(** * run_xlm_roberta.py: text cleaning, sample retrieval, rolling AUC and the
      fitter's checkpoint policy, as a shallow embedding.

    Python values are modelled as follows.
    - A [str] is a list of Unicode code points ([text]).  The classification of
      a code point as whitespace ([str.isspace], [\s]) or word character ([\w])
      is fixed below for the ASCII range and left to the Unicode database
      [ucd] above it.
    - The [random] module is a tape of raw draws with a cursor; [_randbelow n]
      reads one draw modulo [n].
    - Library calls whose result depends on trained data (NLTK's Punkt model,
      the SentencePiece vocabulary, the classifier) are variables of the
      section. *)

From Stdlib Require Import List String Ascii Bool Arith NArith ZArith QArith Lia Permutation.
Import ListNotations.

Close Scope Q_scope.
Close Scope Z_scope.
Open Scope nat_scope.

Set Implicit Arguments.

(** ** Characters and strings *)

Definition char := N.
Definition text := list char.

Definition str (s : string) : text :=
  map N_of_ascii (list_ascii_of_string s).

Inductive uclass : Type := USpace | UWord | UOther.

Definition uclass_eqb (a b : uclass) : bool :=
  match a, b with
  | USpace, USpace | UWord, UWord | UOther, UOther => true
  | _, _ => false
  end.

(** The ASCII range: [\t \n \v \f \r], the four separators 0x1c-0x1f and the
    space are whitespace; letters, digits and the underscore are word
    characters. *)
Definition ascii_class (c : char) : uclass :=
  if ((9 <=? c) && (c <=? 13) || (28 <=? c) && (c <=? 32))%N then USpace
  else if ((48 <=? c) && (c <=? 57) || (65 <=? c) && (c <=? 90)
           || (c =? 95) || (97 <=? c) && (c <=? 122))%N then UWord
  else UOther.

Definition char_hash : char := 35%N.
Definition char_at : char := 64%N.
Definition char_space : char := 32%N.
Definition char_dquote : char := 34%N.

Definition is_ascii_digit (c : char) : bool := ((48 <=? c) && (c <=? 57))%N.

(** ** Exceptions *)

Inductive exn : Type :=
| IndexError
| UnboundLocalError
| ValueError
| ZeroDivisionError
| FileNotFoundError.

Inductive result (A : Type) : Type :=
| Ok (a : A)
| Raise (e : exn).

Arguments Ok {A} a.
Arguments Raise {A} e.

Definition bind {A B : Type} (m : result A) (f : A -> result B) : result B :=
  match m with
  | Ok a => f a
  | Raise e => Raise e
  end.

Notation "x <- m ;; k" := (bind m (fun x => k))
  (at level 61, m at next level, right associativity).
Notation "' p <- m ;; k" := (bind m (fun x => let 'p := x in k))
  (at level 61, p pattern, m at next level, right associativity).

(** ** The fragment of [re] the script uses *)

Inductive regex : Type :=
| Eps
| Chr (c : char)
| Cls (p : char -> bool)
| Opt (r : regex)
| Plus (p : char -> bool)
| Bnd
| Cat (r1 r2 : regex).

Fixpoint lit (s : text) : regex :=
  match s with
  | [] => Eps
  | c :: s' => Cat (Chr c) (lit s')
  end.

Section Text.

Variable ucd : char -> uclass.

Definition classify (c : char) : uclass :=
  if (c <? 128)%N then ascii_class c else ucd c.

Definition is_space (c : char) : bool := uclass_eqb (classify c) USpace.
Definition is_word (c : char) : bool := uclass_eqb (classify c) UWord.
Definition non_space (c : char) : bool := negb (is_space c).

Definition word_opt (o : option char) : bool :=
  match o with
  | Some c => is_word c
  | None => false
  end.

(** [\b]: the characters on the two sides differ in being word characters;
    the ends of the string count as non-word. *)
Definition boundary (prev : option char) (s : text) : bool :=
  xorb (word_opt prev) (word_opt (hd_error s)).

(** Greedy repetition of a class, after its first character: take one more
    character when possible and fall back to the continuation. *)
Fixpoint star (p : char -> bool) (prev : option char) (s : text) (n : nat)
    (k : option char -> text -> nat -> option nat) : option nat :=
  match s with
  | c :: s' =>
      if p c then
        match star p (Some c) s' (S n) k with
        | Some m => Some m
        | None => k prev s n
        end
      else k prev s n
  | [] => k prev s n
  end.

(** Backtracking matcher: [prev] is the character before the position, [n]
    the number of characters consumed so far, [k] what is left to match. *)
Fixpoint rmatch (r : regex) (prev : option char) (s : text) (n : nat)
    (k : option char -> text -> nat -> option nat) : option nat :=
  match r with
  | Eps => k prev s n
  | Chr c =>
      match s with
      | x :: s' => if (x =? c)%N then k (Some x) s' (S n) else None
      | [] => None
      end
  | Cls p =>
      match s with
      | x :: s' => if p x then k (Some x) s' (S n) else None
      | [] => None
      end
  | Opt r1 =>
      match rmatch r1 prev s n k with
      | Some m => Some m
      | None => k prev s n
      end
  | Plus p =>
      match s with
      | x :: s' => if p x then star p (Some x) s' (S n) k else None
      | [] => None
      end
  | Bnd => if boundary prev s then k prev s n else None
  | Cat r1 r2 => rmatch r1 prev s n (fun prev' s' n' => rmatch r2 prev' s' n' k)
  end.

(** Length of the match of [r] that starts at the head of [s]. *)
Definition match_at (r : regex) (prev : option char) (s : text) : option nat :=
  rmatch r prev s 0 (fun _ _ n => Some n).

(** [re.sub(r, repl, s)] for a pattern that matches no empty string: scan
    left to right, replace each match, resume after it.  [skip] counts the
    characters of the current match still to drop. *)
Fixpoint sub_from (r : regex) (repl : text) (prev : option char) (s : text)
    (skip : nat) : text :=
  match s with
  | [] => []
  | c :: s' =>
      match skip with
      | S j => sub_from r repl (Some c) s' j
      | O =>
          match match_at r prev s with
          | Some (S j) => repl ++ sub_from r repl (Some c) s' j
          | _ => c :: sub_from r repl (Some c) s' 0
          end
      end
  end.

Definition re_sub (r : regex) (repl : text) (s : text) : text :=
  sub_from r repl None s 0.

(** [re.search(r, s) is not None]. *)
Fixpoint search_from (r : regex) (prev : option char) (s : text) : bool :=
  match match_at r prev s with
  | Some _ => true
  | None =>
      match s with
      | [] => false
      | c :: s' => search_from r (Some c) s'
      end
  end.

Definition re_search (r : regex) (s : text) : bool := search_from r None s.

(** The five patterns of the script. *)
Definition re_digits_quote : regex :=
  Cls (fun c => is_ascii_digit c || (c =? char_dquote)%N).
Definition re_digits : regex := Cls is_ascii_digit.
Definition re_hashtag : regex := Cat (Chr char_hash) (Cat (Plus non_space) Bnd).
Definition re_mention : regex := Cat (Chr char_at) (Cat (Plus non_space) Bnd).
Definition re_url : regex :=
  Cat (lit (str "http")) (Cat (Opt (Chr 115%N)) (Plus non_space)).
Definition re_spaces : regex := Plus is_space.

(** ** str.strip and str.join *)

Fixpoint lstrip (s : text) : text :=
  match s with
  | c :: s' => if is_space c then lstrip s' else s
  | [] => []
  end.

Definition rstrip (s : text) : text := rev (lstrip (rev s)).
Definition strip (s : text) : text := rstrip (lstrip s).

Fixpoint join (sep : text) (l : list text) : text :=
  match l with
  | [] => []
  | [x] => x
  | x :: l' => x ++ sep ++ join sep l'
  end.

End Text.

(** ** Sentence splitting and text cleaning *)

(** The [LANGS] table. *)
Definition LANGS : list (string * string) :=
  [ ("en", "english"); ("it", "italian"); ("fr", "french"); ("es", "spanish");
    ("tr", "turkish"); ("ru", "english"); ("pt", "english") ]%string.

Fixpoint dict_get (d : list (string * string)) (key : string) (default : string) : string :=
  match d with
  | [] => default
  | (k, v) :: d' => if String.eqb k key then v else dict_get d' key default
  end.

(** [s[a:b]] for non-negative bounds. *)
Definition slice (s : text) (a b : nat) : text := firstn (b - a) (skipn a s).

Fixpoint text_eqb (a b : text) : bool :=
  match a, b with
  | [], [] => true
  | x :: a', y :: b' => (x =? y)%N && text_eqb a' b'
  | _, _ => false
  end.

(** [x in l] on a list of strings. *)
Fixpoint mem (x : text) (l : list text) : bool :=
  match l with
  | [] => false
  | y :: l' => text_eqb x y || mem x l'
  end.

Section Cleaner.

Variable ucd : char -> uclass.

(** The trained Punkt model of a language: the spans of the sentences it
    finds in a text.  [sent_tokenize] returns the slices of the text at
    these spans. *)
Variable punkt_spans : string -> text -> list (nat * nat).

Definition sent_tokenize (t : text) (language : string) : list text :=
  map (fun se => slice t (fst se) (snd se)) (punkt_spans language t).

Definition get_sentences (t : text) (lang : string) : list text :=
  sent_tokenize t (dict_get LANGS lang "english").

(** The loop of [exclude_duplicate_sentences]: [acc] is the list
    [sentences] built so far. *)
Fixpoint dedup_loop (acc : list text) (l : list text) : list text :=
  match l with
  | [] => acc
  | s :: l' =>
      let sentence := strip ucd s in
      if mem sentence acc then dedup_loop acc l'
      else dedup_loop (acc ++ [sentence]) l'
  end.

Definition exclude_duplicate_sentences (t : text) (lang : string) : text :=
  join [char_space] (dedup_loop [] (get_sentences t lang)).

Definition clean_regex (t : text) : text :=
  let t := re_sub ucd re_digits_quote [] t in
  let t := re_sub ucd (re_hashtag ucd) [] t in
  let t := re_sub ucd (re_mention ucd) [] t in
  let t := re_sub ucd (re_url ucd) [] t in
  re_sub ucd (re_spaces ucd) [char_space] t.

Definition clean_text (t : text) (lang : string) : text :=
  strip ucd (exclude_duplicate_sentences (clean_regex t) lang).

End Cleaner.

(** ** The [random] module *)

Record Rng : Type := { tape : nat -> N; cursor : nat }.

Definition next_raw (g : Rng) : N * Rng :=
  (tape g (cursor g), {| tape := tape g; cursor := S (cursor g) |}).

(** [_randbelow(n)], for [n > 0]. *)
Definition randbelow (n : nat) (g : Rng) : nat * Rng :=
  let (d, g') := next_raw g in (N.to_nat (d mod N.of_nat n), g').

(** [random.randint(a, b)]: an integer in [a, b]. *)
Definition randint (a b : nat) (g : Rng) : nat * Rng :=
  let (k, g') := randbelow (b - a + 1) g in (a + k, g').

(** [random.random()]: a multiple of 2^-53 in [0, 1). *)
Definition two53 : positive := 9007199254740992%positive.

Definition random (g : Rng) : Q * Rng :=
  let (d, g') := next_raw g in
  (Qmake (Z.of_N d mod Zpos two53) two53, g').

(** [random.choice(seq)]: raises [IndexError] on an empty sequence. *)
Definition choice {A : Type} (seq : list A) (g : Rng) : result (A * Rng) :=
  match seq with
  | [] => Raise IndexError
  | _ :: _ =>
      let (i, g') := randbelow (List.length seq) g in
      match nth_error seq i with
      | Some x => Ok (x, g')
      | None => Raise IndexError
      end
  end.

(** [x[i] = v] on a list; nothing changes out of range (the callers below stay
    in range). *)
Fixpoint set_nth {A : Type} (i : nat) (v : A) (l : list A) : list A :=
  match l, i with
  | [], _ => []
  | _ :: l', O => v :: l'
  | x :: l', S i' => x :: set_nth i' v l'
  end.

(** [x[i], x[j] = x[j], x[i]]. *)
Definition swap {A : Type} (i j : nat) (l : list A) : list A :=
  match nth_error l j, nth_error l i with
  | Some a, Some b => set_nth j b (set_nth i a l)
  | _, _ => l
  end.

(** [random.shuffle]: for i from len-1 down to 1, swap x[i] with x[j],
    j = _randbelow(i+1). *)
Fixpoint shuffle_loop {A : Type} (i : nat) (x : list A) (g : Rng) : list A * Rng :=
  match i with
  | O => (x, g)
  | S i' =>
      let (j, g') := randbelow (S i) g in
      shuffle_loop i' (swap i j x) g'
  end.

Definition shuffle {A : Type} (x : list A) (g : Rng) : list A * Rng :=
  shuffle_loop (List.length x - 1) x g.

(** ** SynthesicOpenSubtitlesTransform *)

Record SyntheticPool : Type := {
  synthesic_toxic : list text;
  synthesic_non_toxic : list text
}.

(** [for i in range(n): texts.append(random.choice(pool))]. *)
Fixpoint append_choices (n : nat) (pool : list text) (texts : list text) (g : Rng)
    : result (list text * Rng) :=
  match n with
  | O => Ok (texts, g)
  | S n' =>
      match choice pool g with
      | Raise e => Raise e
      | Ok (x, g') => append_choices n' pool (texts ++ [x]) g'
      end
  end.

(** The fragments before the shuffle. *)
Definition synthesic_fragments (pool : SyntheticPool) (t : text) (toxic : Z) (g : Rng)
    : result (list text * Rng) :=
  let texts := [t] in
  if (toxic =? 0)%Z then
    let (n, g1) := randint 1 5 g in
    append_choices n (synthesic_non_toxic pool) texts g1
  else
    let (n0, g1) := randint 0 2 g in
    match append_choices n0 (synthesic_non_toxic pool) texts g1 with
    | Raise e => Raise e
    | Ok (texts, g2) =>
        let (n1, g3) := randint 1 3 g2 in
        append_choices n1 (synthesic_toxic pool) texts g3
    end.

Definition generate_synthesic_sample (pool : SyntheticPool) (t : text) (toxic : Z) (g : Rng)
    : result (text * Rng) :=
  match synthesic_fragments pool t toxic g with
  | Raise e => Raise e
  | Ok (texts, g1) =>
      let (texts, g2) := shuffle texts g1 in
      Ok (join [char_space] texts, g2)
  end.

(** [BasicTransform.__call__] of albumentations: the transform is applied when
    [random.random() < p]; otherwise the data comes back unchanged. *)
Definition gate (p : Q) (g : Rng) : bool * Rng :=
  let (u, g') := random g in (negb (Qle_bool p u), g').

(** [get_synthesic_transforms()]: the mixer, with [p=0.5]. *)
Definition synthesic_p : Q := (1 # 2)%Q.

(** The double that the literal [0.95] denotes, 8556839292003942 / 2^53: it
    lies just below 95/100, and the draws of [random.random()] are compared
    with it. *)
Definition double_0_95 : Q := (8556839292003942 # 9007199254740992)%Q.

Definition synthesic_transforms (pool : SyntheticPool) (data : text * Z) (g : Rng)
    : result ((text * Z) * Rng) :=
  let (fire, g1) := gate synthesic_p g in
  if fire then
    match generate_synthesic_sample pool (fst data) (snd data) g1 with
    | Raise e => Raise e
    | Ok (t, g2) => Ok ((t, snd data), g2)
    end
  else Ok (data, g1).

(** ** The tokenizer *)

Definition MAX_LENGTH : nat := 224.

(** Special token ids of the XLM-RoBERTa vocabulary. *)
Definition bos_token_id : Z := 0%Z.
Definition pad_token_id : Z := 1%Z.
Definition eos_token_id : Z := 2%Z.

Definition sumZ (l : list Z) : Z := fold_right Z.add 0%Z l.

Section Tokenizer.

(** The SentencePiece model: the ids of the pieces of a text. *)
Variable sp_encode : text -> list Z.

(** [encode_plus] for a single sequence: truncate the ids from the right so
    that they fit [max_length] with the special tokens, wrap them in
    [<s> ... </s>], pad on the right, and mark the real tokens in the
    attention mask. *)
Definition encode_plus (t : text) (add_special_tokens : bool) (max_length : nat)
    (pad_to_max_length : bool) : list Z * list Z :=
  let ids := sp_encode t in
  let special := if add_special_tokens then 2 else 0 in
  let total_len := List.length ids + special in
  let ids :=
    if max_length <? total_len
    then firstn (List.length ids - (total_len - max_length)) ids
    else ids in
  let input_ids :=
    if add_special_tokens then [bos_token_id] ++ ids ++ [eos_token_id] else ids in
  let difference := max_length - List.length input_ids in
  if pad_to_max_length && (List.length input_ids <? max_length)
  then (input_ids ++ repeat pad_token_id difference,
        repeat 1%Z (List.length input_ids) ++ repeat 0%Z difference)
  else (input_ids, repeat 1%Z (List.length input_ids)).

Definition get_tokens (t : text) : list Z * list Z :=
  encode_plus t true MAX_LENGTH true.

End Tokenizer.

(** ** DatasetRetriever *)

Record DatasetRetriever : Type := {
  test : bool;
  labels_or_ids : list Z;
  comment_texts : list text;
  langs : list string;
  use_train_transforms : bool
}.

(** A local variable that may not have been assigned. *)
Definition read_local {A : Type} (v : option A) : result A :=
  match v with
  | Some a => Ok a
  | None => Raise UnboundLocalError
  end.

Definition index {A : Type} (l : list A) (i : nat) : result A :=
  match nth_error l i with
  | Some a => Ok a
  | None => Raise IndexError
  end.

Section Retriever.

Variable ucd : char -> uclass.
Variable punkt_spans : string -> text -> list (nat * nat).
Variable sp_encode : text -> list Z.
Variable pool : SyntheticPool.

(** The [apply] methods of the text transforms. *)
Definition collapse_spaces (t : text) : text :=
  re_sub ucd (re_spaces ucd) [char_space] t.

Definition ExcludeUsersMentioned_apply (data : text * string) : text * string :=
  (collapse_spaces (re_sub ucd (re_mention ucd) [] (fst data)), snd data).

Definition ExcludeUrls_apply (data : text * string) : text * string :=
  (collapse_spaces (re_sub ucd (re_url ucd) [] (fst data)), snd data).

Definition ExcludeNumbers_apply (data : text * string) : text * string :=
  (collapse_spaces (re_sub ucd re_digits [] (fst data)), snd data).

Definition ExcludeHashtags_apply (data : text * string) : text * string :=
  (collapse_spaces (re_sub ucd (re_hashtag ucd) [] (fst data)), snd data).

Definition ExcludeDuplicateSentences_apply (data : text * string) : text * string :=
  (exclude_duplicate_sentences ucd punkt_spans (fst data) (snd data), snd data).

(** A transform behind its probability gate. *)
Definition gated {A : Type} (p : Q) (apply : A -> A) (data : A) (g : Rng) : A * Rng :=
  let (fire, g') := gate p g in
  if fire then (apply data, g') else (data, g').

Fixpoint run_transforms {A : Type} (ts : list (Q * (A -> A))) (data : A) (g : Rng)
    : A * Rng :=
  match ts with
  | [] => (data, g)
  | (p, apply) :: ts' =>
      let (data', g') := gated p apply data g in
      run_transforms ts' data' g'
  end.

(** [albumentations.Compose(ts, p)]: the chain runs when
    [random.random() < p]; none of the transforms is [always_apply]. *)
Definition compose {A : Type} (ts : list (Q * (A -> A))) (p : Q) (data : A) (g : Rng)
    : A * Rng :=
  let (need_to_run, g') := gate p g in
  if need_to_run then run_transforms ts data g' else (data, g').

Definition train_transforms (data : text * string) (g : Rng) : (text * string) * Rng :=
  compose
    [ (double_0_95, ExcludeUsersMentioned_apply);
      (double_0_95, ExcludeUrls_apply);
      (double_0_95, ExcludeNumbers_apply);
      (double_0_95, ExcludeHashtags_apply);
      (double_0_95, ExcludeDuplicateSentences_apply) ]
    1%Q data g.

Definition Sample : Type := (Z * list Z * list Z)%type.

Definition getitem (self : DatasetRetriever) (idx : nat) (g : Rng) : result (Sample * Rng) :=
  match index (comment_texts self) idx with
  | Raise e => Raise e
  | Ok t =>
  match index (langs self) idx with
  | Raise e => Raise e
  | Ok lang =>
  match (if test self then Ok None
         else match index (labels_or_ids self) idx with
              | Ok l => Ok (Some l)
              | Raise e => Raise e
              end) with
  | Raise e => Raise e
  | Ok label =>
    let target := label in
    let finish (t : text) (g : Rng) : result (Sample * Rng) :=
      let (tokens, attention_mask) := get_tokens sp_encode t in
      if test self then
        match index (labels_or_ids self) idx with
        | Ok i => Ok ((i, tokens, attention_mask), g)
        | Raise e => Raise e
        end
      else
        match read_local target with
        | Ok tg => Ok ((tg, tokens, attention_mask), g)
        | Raise e => Raise e
        end in
    if use_train_transforms self then
      let (data, g1) := train_transforms (t, lang) g in
      let t := fst data in
      let (tokens, attention_mask) := get_tokens sp_encode t in
      let token_length := sumZ attention_mask in
      if (token_length <? 60)%Z then
        match read_local label with
        | Raise e => Raise e
        | Ok l =>
            match synthesic_transforms pool (t, l) g1 with
            | Raise e => Raise e
            | Ok (data', g2) => finish (fst data') g2
            end
        end
      else
        match read_local target with
        | Raise e => Raise e
        | Ok tg => Ok ((tg, tokens, attention_mask), g1)
        end
    else finish t g
  end end end.

End Retriever.

(** ** Meters *)

Definition Qltb (a b : Q) : bool := negb (Qle_bool b a).

(** [a[-n:]]. *)
Definition last_n {A : Type} (n : nat) (l : list A) : list A :=
  skipn (List.length l - n) l.

(** [sklearn.metrics.roc_auc_score] on binary labels: the share of
    (positive, negative) pairs that the scores order correctly, a tie counting
    for a half.  It raises [ValueError] when a label is neither 0 nor 1 or
    when one of the two classes is absent. *)
Definition scores_of (label : Z) (y_true : list Z) (y_score : list Q) : list Q :=
  map snd (filter (fun p => (fst p =? label)%Z) (combine y_true y_score)).

Definition pair_credit (p n : Q) : Q :=
  if Qltb n p then 1%Q else if Qeq_bool p n then (1 # 2)%Q else 0%Q.

Definition Qsum (l : list Q) : Q := fold_right Qplus 0%Q l.

Definition roc_auc_score (y_true : list Z) (y_score : list Q) : result Q :=
  if negb (forallb (fun y => (y =? 0)%Z || (y =? 1)%Z) y_true) then Raise ValueError
  else
    let pos := scores_of 1%Z y_true y_score in
    let neg := scores_of 0%Z y_true y_score in
    match pos, neg with
    | [], _ | _, [] => Raise ValueError
    | _, _ =>
        Ok (Qred (Qsum (map (fun p => Qsum (map (pair_credit p) neg)) pos)
                  / inject_Z (Z.of_nat (List.length pos * List.length neg))))
    end.

Record RocAucMeter : Type := {
  y_true : list Z;
  y_pred : list Q;
  score : Q
}.

Definition RocAucMeter_reset : RocAucMeter :=
  {| y_true := [0%Z; 1%Z]; y_pred := [(1 # 2)%Q; (1 # 2)%Q]; score := 0%Q |}.

(** [__init__] only calls [reset]. *)
Definition RocAucMeter_init : RocAucMeter := RocAucMeter_reset.

Definition RocAucMeter_avg (m : RocAucMeter) : Q := score m.

(** [AverageMeter].  The count is an integer and [val] is the value given; the
    running [sum] and [avg], doubles in the code, are held here as the exact
    rationals that those doubles approximate. *)
Record AverageMeter : Type := {
  am_val : Q;
  am_avg : Q;
  am_sum : Q;
  am_count : Z
}.

Definition AverageMeter_reset : AverageMeter :=
  {| am_val := 0%Q; am_avg := 0%Q; am_sum := 0%Q; am_count := 0%Z |}.

Definition AverageMeter_update (m : AverageMeter) (val : Q) (n : Z) : result AverageMeter :=
  let sum := (am_sum m + val * inject_Z n)%Q in
  let count := (am_count m + n)%Z in
  if (count =? 0)%Z then Raise ZeroDivisionError
  else Ok {| am_val := val; am_avg := (sum / inject_Z count)%Q; am_sum := sum; am_count := count |}.

Section Meter.

(** The logits of one example, and the class-1 probability that the softmax
    of the two logits gives. *)
Variable Logits : Type.
Variable softmax1 : Logits -> Q.

Definition RocAucMeter_update (m : RocAucMeter) (targets : list Z) (logits : list Logits)
    : result RocAucMeter :=
  let y_true' := y_true m ++ targets in
  let y_pred' := y_pred m ++ map softmax1 logits in
  s <- roc_auc_score (last_n 10000 y_true') (last_n 10000 y_pred') ;;
  Ok {| y_true := y_true'; y_pred := y_pred'; score := s |}.

End Meter.

(** ** TPUFitter *)

Record Batch : Type := {
  targets : list Z;
  inputs : list (list Z);
  attention_masks : list (list Z)
}.

Record Config : Type := {
  batch_size : nat;
  n_epochs : nat;
  verbose : bool;
  verbose_step : nat;
  step_scheduler : bool;
  validation_scheduler : bool
}.

(** [TrainGlobalConfig]. *)
Definition TrainGlobalConfig : Config :=
  {| batch_size := 7; n_epochs := 3; verbose := true; verbose_step := 50;
     step_scheduler := false; validation_scheduler := true |}.

(** What the fitter writes to its log file. *)
Inductive LogMsg : Type :=
| MsgLR (lr : Q)
| MsgTrainStep (step : nat) (loss score : Q)
| MsgTrainResult (epoch : nat) (loss score : Q)
| MsgValResult (epoch : nat) (loss score : Q)
| MsgImproved (old new : Q)
| MsgNotImproved (best : Q).

(** The effects of the fitter on the classifier and on the file system, in
    the order they happen. *)
Inductive Event : Type :=
| Log (m : LogMsg)
| Forward
| Backward
| OptimizerStep
| ZeroGrad
| SchedulerStep
| Save (node_count : nat)
| LoadCheckpoint (n : nat)
| Submission (predictions : list (Z * Q)).

Section Fitter.

(** The opaque classifier, its optimizer and its scheduler. *)
Variables Model Optimizer Scheduler Logits : Type.
Variable softmax1 : Logits -> Q.
Variable model_train model_eval : Model -> Model.
Variable forward : Model -> Batch -> Q * list Logits.
Variable backward : Model -> Batch -> Model.
Variable optimizer_step : Optimizer -> Model -> Optimizer * Model.
Variable zero_grad : Optimizer -> Model -> Model.
Variable scheduler_step : Scheduler -> option Q -> Optimizer -> Scheduler * Optimizer.
Variable get_lr : Optimizer -> Q.

(** The globals [train_data_len] and [val_len]. *)
Variables train_data_len val_len : nat.

Record TPUFitter : Type := {
  best_score : Q;
  epoch : nat;
  final_scores : RocAucMeter;
  model : Model;
  optimizer : Optimizer;
  scheduler : Scheduler;
  (** [node-ckpts/best_model{n}.bin], by [n], with the state saved there *)
  ckpts : list (nat * Model);
  trace : list Event
}.

Definition emit (e : Event) (st : TPUFitter) : TPUFitter :=
  {| best_score := best_score st; epoch := epoch st; final_scores := final_scores st;
     model := model st; optimizer := optimizer st; scheduler := scheduler st;
     ckpts := ckpts st; trace := trace st ++ [e] |}.

Definition with_model (m : Model) (st : TPUFitter) : TPUFitter :=
  {| best_score := best_score st; epoch := epoch st; final_scores := final_scores st;
     model := m; optimizer := optimizer st; scheduler := scheduler st;
     ckpts := ckpts st; trace := trace st |}.

Definition with_optimizer (o : Optimizer) (st : TPUFitter) : TPUFitter :=
  {| best_score := best_score st; epoch := epoch st; final_scores := final_scores st;
     model := model st; optimizer := o; scheduler := scheduler st;
     ckpts := ckpts st; trace := trace st |}.

Definition with_scheduler (s : Scheduler) (st : TPUFitter) : TPUFitter :=
  {| best_score := best_score st; epoch := epoch st; final_scores := final_scores st;
     model := model st; optimizer := optimizer st; scheduler := s;
     ckpts := ckpts st; trace := trace st |}.

Definition with_final_scores (f : RocAucMeter) (st : TPUFitter) : TPUFitter :=
  {| best_score := best_score st; epoch := epoch st; final_scores := f;
     model := model st; optimizer := optimizer st; scheduler := scheduler st;
     ckpts := ckpts st; trace := trace st |}.

Definition with_best_score (b : Q) (st : TPUFitter) : TPUFitter :=
  {| best_score := b; epoch := epoch st; final_scores := final_scores st;
     model := model st; optimizer := optimizer st; scheduler := scheduler st;
     ckpts := ckpts st; trace := trace st |}.

Definition with_epoch (e : nat) (st : TPUFitter) : TPUFitter :=
  {| best_score := best_score st; epoch := e; final_scores := final_scores st;
     model := model st; optimizer := optimizer st; scheduler := scheduler st;
     ckpts := ckpts st; trace := trace st |}.

Definition with_ckpts (c : list (nat * Model)) (st : TPUFitter) : TPUFitter :=
  {| best_score := best_score st; epoch := epoch st; final_scores := final_scores st;
     model := model st; optimizer := optimizer st; scheduler := scheduler st;
     ckpts := c; trace := trace st |}.

(** [TPUFitter.__init__]. *)
Definition TPUFitter_init (m : Model) (o : Optimizer) (s : Scheduler)
    (dir : list (nat * Model)) : TPUFitter :=
  {| best_score := 0%Q; epoch := 0; final_scores := RocAucMeter_init;
     model := m; optimizer := o; scheduler := s; ckpts := dir; trace := [] |}.

Definition do_scheduler_step (metrics : option Q) (st : TPUFitter) : TPUFitter :=
  let (s, o) := scheduler_step (scheduler st) metrics (optimizer st) in
  emit SchedulerStep (with_optimizer o (with_scheduler s st)).

(** [with01 < self.config.batch_size*0.15]. *)
Definition too_few_positives (cfg : Config) (b : Batch) : bool :=
  Qltb (inject_Z (sumZ (targets b)))
       (inject_Z (Z.of_nat (batch_size cfg)) * (15 # 100))%Q.

(** The body of the loop of [train_one_epoch]. *)
Definition train_step (cfg : Config) (st : TPUFitter) (losses : AverageMeter)
    (step : nat) (b : Batch) : result (TPUFitter * AverageMeter) :=
  st <- (if verbose cfg then
           match verbose_step cfg with
           | O => Raise ZeroDivisionError
           | S _ =>
               if step mod verbose_step cfg =? 0
               then Ok (emit (Log (MsgTrainStep step (am_avg losses)
                                     (RocAucMeter_avg (final_scores st)))) st)
               else Ok st
           end
         else Ok st) ;;
  if too_few_positives cfg b then Ok (st, losses)
  else
    let (loss, logits) := forward (model st) b in
    let st := emit Forward st in
    fs <- RocAucMeter_update softmax1 (final_scores st) (targets b) logits ;;
    let st := with_final_scores fs st in
    losses <- AverageMeter_update losses loss (Z.of_nat (List.length (inputs b))) ;;
    let st := emit Backward (with_model (backward (model st) b) st) in
    let (o, m) := optimizer_step (optimizer st) (model st) in
    let st := emit OptimizerStep (with_model m (with_optimizer o st)) in
    let st := emit ZeroGrad (with_model (zero_grad (optimizer st) (model st)) st) in
    let st := if step_scheduler cfg then do_scheduler_step None st else st in
    Ok (st, losses).

Fixpoint train_loop (cfg : Config) (st : TPUFitter) (losses : AverageMeter)
    (step : nat) (loader : list Batch) : result (TPUFitter * AverageMeter) :=
  match loader with
  | [] => Ok (st, losses)
  | b :: loader' =>
      '(st', losses') <- train_step cfg st losses step b ;;
      train_loop cfg st' losses' (S step) loader'
  end.

Definition train_one_epoch (cfg : Config) (st : TPUFitter) (train_loader : list Batch)
    : result (AverageMeter * RocAucMeter * TPUFitter) :=
  let st := with_model (model_train (model st)) st in
  let losses := AverageMeter_reset in
  match batch_size cfg with
  | O => Raise ZeroDivisionError
  | S _ =>
      let bar := train_data_len / batch_size cfg in
      '(st, losses) <- train_loop cfg st losses 0 (firstn bar train_loader) ;;
      let st := with_model (model_eval (model st)) st in
      Ok (losses, final_scores st, st)
  end.

Fixpoint validation_loop (st : TPUFitter) (losses : AverageMeter) (fs : RocAucMeter)
    (loader : list Batch) : result (TPUFitter * AverageMeter * RocAucMeter) :=
  match loader with
  | [] => Ok (st, losses, fs)
  | b :: loader' =>
      let (loss, logits) := forward (model st) b in
      let st := emit Forward st in
      fs <- RocAucMeter_update softmax1 fs (targets b) logits ;;
      losses <- AverageMeter_update losses loss (Z.of_nat (List.length (inputs b))) ;;
      validation_loop st losses fs loader'
  end.

Definition validation (cfg : Config) (st : TPUFitter) (val_loader : list Batch)
    : result (AverageMeter * RocAucMeter * TPUFitter) :=
  let st := with_model (model_eval (model st)) st in
  match batch_size cfg with
  | O => Raise ZeroDivisionError
  | S _ =>
      let bar := val_len / batch_size cfg + 1 in
      '(st, losses, fs) <-
        validation_loop st AverageMeter_reset RocAucMeter_init (firstn bar val_loader) ;;
      Ok (losses, fs, st)
  end.

Fixpoint lookup_ckpt (n : nat) (dir : list (nat * Model)) : option Model :=
  match dir with
  | [] => None
  | (k, m) :: dir' => if k =? n then Some m else lookup_ckpt n dir'
  end.

Fixpoint write_ckpt (n : nat) (m : Model) (dir : list (nat * Model)) : list (nat * Model) :=
  match dir with
  | [] => [(n, m)]
  | (k, m') :: dir' => if k =? n then (k, m) :: dir' else (k, m') :: write_ckpt n m dir'
  end.

(** [self.save(f'node-ckpts/best_model{n}.bin')]. *)
Definition save (n : nat) (st : TPUFitter) : TPUFitter :=
  emit (Save n) (with_ckpts (write_ckpt n (model st) (ckpts st)) st).

Definition predict (m : Model) (b : Batch) : list (Z * Q) :=
  combine (targets b) (map softmax1 (snd (forward m b))).

Fixpoint inference_loop (st : TPUFitter) (acc : list (Z * Q)) (loader : list Batch)
    : TPUFitter * list (Z * Q) :=
  match loader with
  | [] => (st, acc)
  | b :: loader' =>
      inference_loop (emit Forward st) (acc ++ predict (model st) b) loader'
  end.

(** [run_inference]: loads [best_model{node_count-1}.bin]. *)
Definition run_inference (st : TPUFitter) (test_loader : list Batch) : result TPUFitter :=
  match List.length (ckpts st) with
  | O => Raise FileNotFoundError
  | S n =>
      match lookup_ckpt n (ckpts st) with
      | None => Raise FileNotFoundError
      | Some m =>
          let st := emit (LoadCheckpoint n) (with_model (model_eval m) st) in
          let (st, result) := inference_loop st [] test_loader in
          Ok (emit (Submission result) st)
      end
  end.

(** The end of an epoch of [fit], from the scheduler step on, given the
    validation score [avg]. *)
Definition end_of_epoch (cfg : Config) (st : TPUFitter) (avg : Q)
    (test_loader : list Batch) : result TPUFitter :=
  let st := if validation_scheduler cfg then do_scheduler_step (Some avg) st else st in
  let st := with_epoch (S (epoch st)) st in
  if Qltb (best_score st) avg then
    let st := emit (Log (MsgImproved (best_score st) avg)) st in
    let st := with_best_score avg st in
    let node_count := List.length (ckpts st) in
    let st := save node_count st in
    run_inference st test_loader
  else Ok (emit (Log (MsgNotImproved (best_score st))) st).

Definition fit_epoch (cfg : Config) (st : TPUFitter) (train_loader val_loader
    test_loader : list Batch) : result TPUFitter :=
  let st := if verbose cfg then emit (Log (MsgLR (get_lr (optimizer st)))) st else st in
  '(losses, fs, st) <- train_one_epoch cfg st train_loader ;;
  let st := emit (Log (MsgTrainResult (epoch st) (am_avg losses) (RocAucMeter_avg fs))) st in
  '(losses, fs, st) <- validation cfg st val_loader ;;
  let st := emit (Log (MsgValResult (epoch st) (am_avg losses) (RocAucMeter_avg fs))) st in
  end_of_epoch cfg st (RocAucMeter_avg fs) test_loader.

(** [fit]: [train_loader e] is what iterating the training loader yields in
    epoch [e] (it samples and augments at random). *)
Fixpoint fit_loop (cfg : Config) (n e : nat) (st : TPUFitter)
    (train_loader : nat -> list Batch) (val_loader test_loader : list Batch)
    : result TPUFitter :=
  match n with
  | O => Ok st
  | S n' =>
      st <- fit_epoch cfg st (train_loader e) val_loader test_loader ;;
      fit_loop cfg n' (S e) st train_loader val_loader test_loader
  end.

Definition fit (cfg : Config) (st : TPUFitter) (train_loader : nat -> list Batch)
    (val_loader test_loader : list Batch) : result TPUFitter :=
  fit_loop cfg (n_epochs cfg) 0 st train_loader val_loader test_loader.

(** Readings of the trace. *)
Definition is_save (e : Event) : bool :=
  match e with Save _ => true | _ => false end.

Definition saves (tr : list Event) : nat := List.length (filter is_save tr).

Fixpoint val_scores (tr : list Event) : list Q :=
  match tr with
  | [] => []
  | Log (MsgValResult _ _ s) :: tr' => s :: val_scores tr'
  | _ :: tr' => val_scores tr'
  end.

Definition is_classifier_call (e : Event) : bool :=
  match e with
  | Forward | Backward | OptimizerStep | ZeroGrad | SchedulerStep => true
  | _ => false
  end.

End Fitter.

(** ** Concrete collaborators, for running the definitions *)

(** A Unicode database in which no code point above ASCII is whitespace or a
    word character. *)
Definition ucd_other (c : char) : uclass := UOther.

(** A Punkt model that never breaks a sentence: the whole text, trimmed on
    the right, is the one sentence (no sentence at all for a blank text). *)
Definition punkt_whole (language : string) (t : text) : list (nat * nat) :=
  match rstrip ucd_other t with
  | [] => []
  | _ :: _ => [(0, List.length (rstrip ucd_other t))]
  end.

(** A Punkt model that breaks after every full stop. *)
Fixpoint stops_from (t : text) (start pos : nat) : list (nat * nat) :=
  match t with
  | [] => if start <? pos then [(start, pos)] else []
  | c :: t' =>
      if (c =? 46)%N then (start, S pos) :: stops_from t' (S pos) (S pos)
      else stops_from t' start (S pos)
  end.

Definition punkt_stops (language : string) (t : text) : list (nat * nat) :=
  stops_from t 0 0.

(** A Punkt installation with the Turkish model only: every other model
    finds no sentence. *)
Definition punkt_turkish_only (language : string) (t : text) : list (nat * nat) :=
  if String.eqb language "turkish" then punkt_stops language t else [].

(** A SentencePiece model with one piece per character. *)
Definition sp_chars (t : text) : list Z := map (fun c => (Z.of_N c + 4)%Z) t.

Definition pool_demo : SyntheticPool :=
  {| synthesic_toxic := [str "You fool."; str "Get lost."];
     synthesic_non_toxic := [str "Good morning."; str "See you soon."; str "Thanks."] |}.

(** A generator whose every raw draw is [d]. *)
Definition rng_const (d : N) : Rng := {| tape := fun _ => d; cursor := 0 |}.

(** A generator that replays the draws of [l], then zeros. *)
Definition rng_of (l : list N) : Rng := {| tape := fun i => nth i l 0%N; cursor := 0 |}.

(** A small dataset: two training comments, with and without augmentation. *)
Definition dataset_demo (augment : bool) : DatasetRetriever :=
  {| test := false;
     labels_or_ids := [0%Z; 1%Z];
     comment_texts := [str "Check this out http://x.co #great @bob 123"; str "You again."];
     langs := ["en"%string; "en"%string];
     use_train_transforms := augment |}.

(** A generator for the second comment of the demonstration dataset: the six
    draws of the augmentation gates are 0, the draw of the mixer's gate is
    2^52, which [random()] turns into one half. *)
Definition rng_mixer_half : Rng := rng_of [0; 0; 0; 0; 0; 0; 4503599627370496]%N.

(** A table-driven classifier for running the fitter: the model is the number
    of optimizer steps taken so far, and after [m] steps the class-1
    probabilities of a batch are the first entries of [scores m]. *)
Definition stub_forward (scores : nat -> list Q) (m : nat) (b : Batch) : Q * list Q :=
  (0%Q, firstn (List.length (targets b)) (scores m)).

Definition stub_optimizer_step (o : unit) (m : nat) : unit * nat := (o, S m).

Definition stub_scheduler_step (s : unit) (metrics : option Q) (o : unit) : unit * unit :=
  (s, o).

Definition batch_of (ts : list Z) : Batch :=
  {| targets := ts; inputs := map (fun _ => []) ts; attention_masks := map (fun _ => []) ts |}.

(** Events that are neither a checkpoint save nor a validation result. *)
Definition is_quiet (e : Event) : bool :=
  match e with
  | Save _ => false
  | Log (MsgValResult _ _ _) => false
  | _ => true
  end.

(** The claim's reading of checkpointing: the number of scores of a list that
    strictly improve on the best score seen before them, [best] being the
    best score before the first one. *)
Fixpoint strict_improvements (best : Q) (scores : list Q) : nat :=
  match scores with
  | [] => 0
  | s :: rest =>
      if Qltb best s then S (strict_improvements s rest)
      else strict_improvements best rest
  end.

(** Two epochs of the table-driven classifier, one training batch and one
    validation batch of five comments each; [second] is the table of the
    second validation. *)
Definition scenario_config : Config :=
  {| batch_size := 7; n_epochs := 2; verbose := true; verbose_step := 50;
     step_scheduler := false; validation_scheduler := true |}.

Definition scenario_scores (second : list Q) (m : nat) : list Q :=
  match m with
  | 1 => [1 # 10; 1 # 10; 1 # 2; 7 # 10; 9 # 10]%Q
  | 2 => second
  | _ => [1 # 5; 1 # 5; 1 # 5; 4 # 5; 4 # 5]%Q
  end.

Definition scenario_fit (second : list Q) : result (TPUFitter nat unit unit) :=
  fit (fun q : Q => q) (fun m => m) (fun m => m)
    (stub_forward (scenario_scores second)) (fun m _ => m)
    stub_optimizer_step (fun _ m => m) stub_scheduler_step (fun _ => 0%Q) 7 5
    scenario_config (TPUFitter_init 0 tt tt [])
    (fun _ => [batch_of [0; 0; 0; 1; 1]%Z]) [batch_of [0; 0; 0; 0; 1]%Z] [].

(** The position of the first occurrence of [x] in [l] (the length of [l]
    when there is none). *)
Fixpoint first_index (x : text) (l : list text) : nat :=
  match l with
  | [] => 0
  | y :: l' => if text_eqb x y then 0 else S (first_index x l')
  end.

(** ** Invariants of cleaned text *)

(** Whether a word character occurs in [s] before its first whitespace. *)
Fixpoint word_in_run (ucd : char -> uclass) (s : text) : bool :=
  match s with
  | [] => false
  | c :: s' => if is_space ucd c then false else is_word ucd c || word_in_run ucd s'
  end.

(** No occurrence of [tag] in [s] is followed, before the next whitespace, by
    a word character. *)
Fixpoint clean_tag (ucd : char -> uclass) (tag : char) (s : text) : bool :=
  match s with
  | [] => true
  | c :: s' =>
      (if (c =? tag)%N then negb (word_in_run ucd s') else true) && clean_tag ucd tag s'
  end.

(** [s] starts with "http" and one more character that is not whitespace. *)
Definition url_here (ucd : char -> uclass) (s : text) : bool :=
  match s with
  | a :: b :: c :: d :: x :: _ =>
      (a =? 104)%N && (b =? 116)%N && (c =? 116)%N && (d =? 112)%N && non_space ucd x
  | _ => false
  end.

Fixpoint no_url (ucd : char -> uclass) (s : text) : bool :=
  match s with
  | [] => true
  | _ :: s' => negb (url_here ucd s) && no_url ucd s'
  end.

(** The number of leading characters of [s] in the class [p]. *)
Fixpoint run_len (p : char -> bool) (s : text) : nat :=
  match s with
  | [] => 0
  | c :: s' => if p c then S (run_len p s') else 0
  end.

(** [s] is empty or starts with whitespace. *)
Definition starts_blank (ucd : char -> uclass) (s : text) : bool :=
  match s with
  | [] => true
  | c :: _ => is_space ucd c
  end.

(** [x] occurs in [s] as a block of consecutive characters. *)
Definition substring (x s : text) : Prop := exists a b, s = a ++ x ++ b.

(** [t] is [s] without some of its non-whitespace characters. *)
Inductive del_ns (ucd : char -> uclass) : text -> text -> Prop :=
| del_nil : del_ns ucd [] []
| del_keep c s t : del_ns ucd s t -> del_ns ucd (c :: s) (c :: t)
| del_drop c s t : non_space ucd c = true -> del_ns ucd s t -> del_ns ucd (c :: s) t.

(** The patterns as the specification words them: a [#] or an [@] followed by
    a run of non-whitespace characters, with no condition on where the run
    ends. *)
Definition spec_hashtag_pattern (ucd : char -> uclass) : regex :=
  Cat (Chr char_hash) (Plus (non_space ucd)).

Definition spec_mention_pattern (ucd : char -> uclass) : regex :=
  Cat (Chr char_at) (Plus (non_space ucd)).

(** ** Shapes of whitespace *)

(** [s] starts with a whitespace character. *)
Definition head_space (ucd : char -> uclass) (s : text) : bool :=
  match s with
  | [] => false
  | c :: _ => is_space ucd c
  end.

(** Every whitespace character of [s] is a plain space, and none is followed
    by another whitespace character. *)
Fixpoint single_spaced (ucd : char -> uclass) (s : text) : bool :=
  match s with
  | [] => true
  | c :: s' =>
      (if is_space ucd c then (c =? char_space)%N && negb (head_space ucd s') else true)
      && single_spaced ucd s'
  end.

(** [s] neither starts nor ends with a whitespace character. *)
Definition trimmed (ucd : char -> uclass) (s : text) : bool :=
  negb (head_space ucd s) && negb (head_space ucd (rev s)).

(** ** ShuffleSentencesTransform *)

(** [ShuffleSentencesTransform.apply]: the sentences, shuffled in place by
    [random.shuffle], joined by single spaces. *)
Definition ShuffleSentences_apply (punkt_spans : string -> text -> list (nat * nat))
    (data : text * string) (g : Rng) : (text * string) * Rng :=
  let sentences := get_sentences punkt_spans (fst data) (snd data) in
  let (sentences, g') := shuffle sentences g in
  ((join [char_space] sentences, snd data), g').

(** The value that the [i]-th next call of [random.random()] returns. *)
Definition draw (g : Rng) (i : nat) : Q :=
  fst (random {| tape := tape g; cursor := cursor g + i |}).

(** The generator after [n] more draws. *)
Definition advance (g : Rng) (n : nat) : Rng :=
  {| tape := tape g; cursor := cursor g + n |}.

(** A generator whose every [random.random()] is just below 1. *)
Definition rng_high : Rng := rng_const 9007199254740991%N.

(** A test dataset that asks for the training augmentation. *)
Definition dataset_test_augmented : DatasetRetriever :=
  {| test := true;
     labels_or_ids := [7%Z];
     comment_texts := [str "You again."];
     langs := ["en"%string];
     use_train_transforms := true |}.

(** ** Sequences of meter updates *)



(** ** Readings of the fitter's trace *)

Definition is_forward (e : Event) : bool :=
  match e with Forward => true | _ => false end.

Definition is_backward (e : Event) : bool :=
  match e with Backward => true | _ => false end.

Definition is_optimizer_step (e : Event) : bool :=
  match e with OptimizerStep => true | _ => false end.

Definition is_zero_grad (e : Event) : bool :=
  match e with ZeroGrad => true | _ => false end.

(** Events of the file system: a checkpoint written or read, a submission
    written. *)
Definition is_file_event (e : Event) : bool :=
  match e with
  | Save _ | LoadCheckpoint _ | Submission _ => true
  | _ => false
  end.

Definition count (p : Event -> bool) (tr : list Event) : nat :=
  List.length (filter p tr).

(** The best score after a list of validation scores. *)
Definition best_after (best : Q) (scores : list Q) : Q :=
  fold_left (fun b s => if Qltb b s then s else b) scores best.

(** [st'] comes from [st] by training steps: the best score, the epoch
    counter and the checkpoints are untouched, no file is written or read,
    and every forward pass comes with its backward pass, optimizer step and
    gradient reset. *)
Definition training_frame (Model Optimizer Scheduler : Type)
    (st st' : TPUFitter Model Optimizer Scheduler) : Prop :=
  best_score st' = best_score st /\ epoch st' = epoch st /\ ckpts st' = ckpts st /\
  exists evs,
    trace st' = trace st ++ evs /\
    forallb (fun e => negb (is_file_event e)) evs = true /\
    count is_backward evs = count is_forward evs /\
    count is_optimizer_step evs = count is_forward evs /\
    count is_zero_grad evs = count is_forward evs.

(** The checkpoints and the trace stay in step: as many files are added as
    saves are recorded, and a directory numbered from 0 stays so. *)
Definition ckpt_sync (Model Optimizer Scheduler : Type)
    (st st' : TPUFitter Model Optimizer Scheduler) : Prop :=
  (map fst (ckpts st) = seq 0 (List.length (ckpts st)) ->
   map fst (ckpts st') = seq 0 (List.length (ckpts st'))) /\
  exists evs,
    trace st' = trace st ++ evs /\
    List.length (ckpts st') = List.length (ckpts st) + saves evs.

(** The [i]-th raw draw that the generator has still to give. *)
Definition raw (g : Rng) (i : nat) : N := tape g (cursor g + i).

(** The next draws of the generator are those of [ds]. *)
Definition reads (g : Rng) (ds : list N) : Prop :=
  forall i, i < List.length ds -> raw g i = nth i ds 0%N.

(** * Properties *)

(** ** Tokenization *)

Lemma sumZ_repeat_one (n : nat) : sumZ (repeat 1%Z n) = Z.of_nat n.
Proof.
  induction n as [|n IH]; [reflexivity|].
  cbn [repeat sumZ fold_right]. fold (sumZ (repeat 1%Z n)). rewrite IH. lia.
Qed.

Lemma sumZ_repeat_zero (n : nat) : sumZ (repeat 0%Z n) = 0%Z.
Proof.
  induction n as [|n IH]; [reflexivity|].
  cbn [repeat sumZ fold_right]. fold (sumZ (repeat 0%Z n)). rewrite IH. lia.
Qed.

Lemma sumZ_app (a b : list Z) : sumZ (a ++ b) = (sumZ a + sumZ b)%Z.
Proof.
  induction a as [|x a IH]; [reflexivity|].
  cbn [app sumZ fold_right]. fold (sumZ (a ++ b)). fold (sumZ a). rewrite IH. lia.
Qed.

(** The three facts about [encode_plus] the claims rest on, for any maximal
    length of at least two and any SentencePiece model. *)
Lemma encode_plus_shape (sp : text -> list Z) (t : text) (n : nat) :
  2 <= n ->
  List.length (fst (encode_plus sp t true n true)) = n /\
  List.length (snd (encode_plus sp t true n true)) = n /\
  (2 <= sumZ (snd (encode_plus sp t true n true)))%Z.
Proof.
  intros Hn. unfold encode_plus.
  set (ids := sp t).
  destruct (n <? List.length ids + 2) eqn:Hlong.
  - apply Nat.ltb_lt in Hlong.
    set (ids' := firstn (List.length ids - (List.length ids + 2 - n)) ids).
    assert (Hlen : List.length ids' = n - 2).
    { unfold ids'. rewrite length_firstn. lia. }
    assert (Hin : List.length ([bos_token_id] ++ ids' ++ [eos_token_id]) = n).
    { rewrite !length_app. cbn [List.length]. lia. }
    cbn [andb]. rewrite Hin, Nat.ltb_irrefl. cbn [fst snd].
    rewrite repeat_length, sumZ_repeat_one. repeat split; lia.
  - apply Nat.ltb_ge in Hlong.
    assert (Hin : List.length ([bos_token_id] ++ ids ++ [eos_token_id])
                  = List.length ids + 2).
    { rewrite !length_app. cbn [List.length]. lia. }
    cbv iota. cbn [andb]. rewrite Hin.
    destruct (List.length ids + 2 <? n) eqn:Hshort; cbn [fst snd].
    + apply Nat.ltb_lt in Hshort.
      rewrite sumZ_app, sumZ_repeat_one, sumZ_repeat_zero.
      rewrite (length_app (_ ++ _)), (length_app (repeat 1%Z _)), !repeat_length, Hin.
      repeat split; lia.
    + apply Nat.ltb_ge in Hshort.
      rewrite repeat_length, sumZ_repeat_one, ?Hin. repeat split; lia.
Qed.

Lemma get_tokens_length (sp : text -> list Z) (t : text) :
  List.length (fst (get_tokens sp t)) = MAX_LENGTH /\
  List.length (snd (get_tokens sp t)) = MAX_LENGTH.
Proof.
  unfold get_tokens.
  destruct (encode_plus_shape sp t (n := MAX_LENGTH)) as (H1 & H2 & _).
  - unfold MAX_LENGTH. lia.
  - split; assumption.
Qed.


(** Whatever path [__getitem__] takes, the sequences it returns come from
    [get_tokens]. *)
Lemma getitem_tokens_from_get_tokens ucd punkt sp pool self idx g target tokens mask g' :
  getitem ucd punkt sp pool self idx g = Ok ((target, tokens, mask), g') ->
  exists t, get_tokens sp t = (tokens, mask).
Proof.
  unfold getitem.
  destruct (index (comment_texts self) idx) as [t|e]; [|discriminate].
  destruct (index (langs self) idx) as [lang|e]; [|discriminate].
  assert (Hfinish : forall (label : option Z) t0 g0,
    (let (tokens0, attention_mask) := get_tokens sp t0 in
     if test self
     then match index (labels_or_ids self) idx with
          | Ok i => Ok ((i, tokens0, attention_mask), g0)
          | Raise e => Raise e
          end
     else match read_local label with
          | Ok tg => Ok ((tg, tokens0, attention_mask), g0)
          | Raise e => Raise e
          end) = Ok ((target, tokens, mask), g') ->
    exists t1, get_tokens sp t1 = (tokens, mask)).
  { intros label t0 g0. destruct (get_tokens sp t0) as [tk am] eqn:E.
    destruct (test self).
    - destruct (index (labels_or_ids self) idx); [|discriminate].
      intros H; injection H as <- <- <- <-. now exists t0.
    - destruct (read_local label); [|discriminate].
      intros H; injection H as <- <- <- <-. now exists t0. }
  destruct (if test self then Ok None else _) as [label|e]; [|discriminate].
  cbv zeta.
  destruct (use_train_transforms self); [|apply Hfinish].
  destruct (train_transforms ucd punkt (t, lang) g) as [data g1].
  destruct (get_tokens sp (fst data)) as [tk am] eqn:E.
  destruct (sumZ am <? 60)%Z.
  - destruct label as [l|]; cbn [read_local]; [|discriminate].
    destruct (synthesic_transforms pool (fst data, l) g1) as [[data' g2]|e]; [|discriminate].
    apply (Hfinish (Some l)).
  - destruct label as [tg|]; cbn [read_local]; [|discriminate].
    intros H; injection H as <- <- <- <-. now exists (fst data).
Qed.

(** C2: for every text, the empty one included, [get_tokens] returns token ids
    and an attention mask of exactly [MAX_LENGTH] = 224 entries each, and so
    does every sample that [__getitem__] returns. *)
Theorem C2_tokens_and_mask_have_max_length :
  MAX_LENGTH = 224 /\
  (forall sp t,
     List.length (fst (get_tokens sp t)) = MAX_LENGTH /\
     List.length (snd (get_tokens sp t)) = MAX_LENGTH) /\
  (forall ucd punkt sp pool self idx g target tokens mask g',
     getitem ucd punkt sp pool self idx g = Ok ((target, tokens, mask), g') ->
     List.length tokens = MAX_LENGTH /\ List.length mask = MAX_LENGTH).
Proof.
  split; [reflexivity|]. split.
  - intros sp t. apply get_tokens_length.
  - intros ucd punkt sp pool self idx g target tokens mask g' H.
    apply getitem_tokens_from_get_tokens in H as [t Ht].
    pose proof (get_tokens_length sp t) as Hl. rewrite Ht in Hl. exact Hl.
Qed.

(** The claim at work: the first comment of the demonstration dataset,
    fetched without augmentation, and the empty text. *)
Lemma C2_witness :
  (exists target tokens mask g',
     getitem ucd_other punkt_whole sp_chars pool_demo (dataset_demo false) 0 (rng_const 0%N)
       = Ok ((target, tokens, mask), g') /\
     List.length tokens = 224 /\ List.length mask = 224) /\
  List.length (fst (get_tokens sp_chars [])) = 224.
Proof.
  destruct C2_tokens_and_mask_have_max_length as (_ & Htok & Hget).
  split.
  - destruct (getitem ucd_other punkt_whole sp_chars pool_demo (dataset_demo false) 0 (rng_const 0%N))
      as [[[[target tokens] mask] g']|e] eqn:E.
    + exists target, tokens, mask, g'. split; [reflexivity|].
      exact (Hget _ _ _ _ _ _ _ _ _ _ _ E).
    + vm_compute in E. discriminate E.
  - exact (proj1 (Htok sp_chars [])).
Defined.

(** The attention mask of the empty string sums to 2: the two special tokens
    are real tokens. *)
Lemma C3_counterexample_empty_mask_sum :
  sumZ (snd (get_tokens sp_chars [])) = 2%Z
  /\ firstn 3 (fst (get_tokens sp_chars [])) = [bos_token_id; eos_token_id; pad_token_id].
Proof. split; vm_compute; reflexivity. Qed.

(** C3 (amended): tokenizing the empty string cannot fail ([get_tokens] is a
    total function); when SentencePiece finds no piece in it, the result is
    [<s>], [</s>] and 222 padding tokens, with an attention mask that sums to 2;
    and no text at all has a mask that sums to less than 2. *)
Theorem C3_empty_string_tokens :
  forall sp : text -> list Z,
    sp [] = [] ->
    get_tokens sp [] =
      (bos_token_id :: eos_token_id :: repeat pad_token_id 222,
       1%Z :: 1%Z :: repeat 0%Z 222)
    /\ sumZ (snd (get_tokens sp [])) = 2%Z
    /\ (forall t, (2 <= sumZ (snd (get_tokens sp t)))%Z).
Proof.
  intros sp Hsp.
  assert (E : get_tokens sp [] =
      (bos_token_id :: eos_token_id :: repeat pad_token_id 222,
       1%Z :: 1%Z :: repeat 0%Z 222)).
  { unfold get_tokens, encode_plus. rewrite Hsp. reflexivity. }
  split; [exact E|]. split.
  - rewrite E. reflexivity.
  - intros t. unfold get_tokens.
    apply (encode_plus_shape sp t (n := MAX_LENGTH)). unfold MAX_LENGTH. lia.
Qed.

Lemma C3_witness :
  sp_chars [] = [] /\
  get_tokens sp_chars [] =
    (bos_token_id :: eos_token_id :: repeat pad_token_id 222,
     1%Z :: 1%Z :: repeat 0%Z 222).
Proof.
  split; [reflexivity|].
  exact (proj1 (C3_empty_string_tokens sp_chars eq_refl)).
Defined.

(** ** The cleaning scenario *)

(** The regular expressions leave the three words and one trailing space. *)
Lemma clean_regex_scenario (ucd : char -> uclass) :
  clean_regex ucd (str "Check this out http://x.co #great @bob 123") = str "Check this out ".
Proof. vm_compute. reflexivity. Qed.

(** C9: [clean_text] maps "Check this out http://x.co #great @bob 123", with
    language "en", to exactly "Check this out", given that the English Punkt
    model finds the one sentence "Check this out" in what the regular
    expressions leave. *)
Theorem C9_clean_text_scenario :
  forall (ucd : char -> uclass) (punkt_spans : string -> text -> list (nat * nat)),
    punkt_spans "english"%string (str "Check this out ") = [(0, 14)] ->
    clean_text ucd punkt_spans (str "Check this out http://x.co #great @bob 123") "en"
      = str "Check this out".
Proof.
  intros ucd punkt_spans Hpunkt.
  unfold clean_text, exclude_duplicate_sentences, get_sentences, sent_tokenize.
  rewrite clean_regex_scenario.
  change (dict_get LANGS "en" "english") with "english"%string.
  rewrite Hpunkt. vm_compute. reflexivity.
Qed.

Lemma C9_witness :
  punkt_whole "english"%string (str "Check this out ") = [(0, 14)] /\
  clean_text ucd_other punkt_whole (str "Check this out http://x.co #great @bob 123") "en"
    = str "Check this out".
Proof.
  split; [reflexivity|].
  exact (C9_clean_text_scenario ucd_other punkt_whole eq_refl).
Defined.

(** ** RocAucMeter *)

Lemma last_n_all {A : Type} (n : nat) (l : list A) :
  List.length l <= n -> last_n n l = l.
Proof.
  intros H. unfold last_n. replace (List.length l - n) with 0 by lia. reflexivity.
Qed.

(** [last_n n l] is the tail of [l] of length [min n (len l)]. *)
Lemma last_n_spec {A : Type} (n : nat) (l : list A) :
  firstn (List.length l - n) l ++ last_n n l = l /\
  List.length (last_n n l) = Nat.min n (List.length l).
Proof.
  unfold last_n. split; [apply firstn_skipn|]. rewrite length_skipn. lia.
Qed.

Lemma last_n_app_exact {A : Type} (n : nat) (pre l : list A) :
  List.length l = n -> last_n n (pre ++ l) = l.
Proof.
  intros H. unfold last_n. rewrite length_app, H.
  replace (List.length pre + n - n) with (List.length pre + 0) by lia.
  rewrite skipn_app, Nat.add_0_r, skipn_all.
  replace (List.length pre - List.length pre) with 0 by lia. reflexivity.
Qed.

Lemma roc_auc_score_seeded (ys : list Z) (p0 p1 : Q) (ps : list Q) :
  forallb (fun y => (y =? 0)%Z || (y =? 1)%Z) ys = true ->
  exists s, roc_auc_score (0%Z :: 1%Z :: ys) (p0 :: p1 :: ps) = Ok s.
Proof.
  intros Hbin. unfold roc_auc_score.
  cbn [forallb Z.eqb orb andb]. rewrite Hbin. cbn [negb].
  unfold scores_of. cbn [combine filter fst snd Z.eqb map].
  destruct (map snd (filter _ (combine ys ps))); eexists; reflexivity.
Qed.

(** C7: right after [reset] the meter holds exactly the two seed pairs and
    [avg] is 0; an [update] appends to the history without ever trimming it and
    sets [avg] to the ROC-AUC of the last 10,000 pairs of the history, so that
    a batch of 10,000 pairs makes the older history irrelevant; and an update
    with binary labels succeeds as long as the seeds are among the last
    10,000 pairs. *)
Theorem C7_rolling_auc (Logits : Type) (softmax1 : Logits -> Q) :
  (RocAucMeter_avg RocAucMeter_reset = 0%Q /\
   y_true RocAucMeter_reset = [0%Z; 1%Z] /\
   y_pred RocAucMeter_reset = [(1 # 2)%Q; (1 # 2)%Q]) /\
  (forall m targets logits m',
     RocAucMeter_update softmax1 m targets logits = Ok m' ->
     y_true m' = y_true m ++ targets /\
     y_pred m' = y_pred m ++ map softmax1 logits /\
     List.length (y_true m') = List.length (y_true m) + List.length targets /\
     roc_auc_score (last_n 10000 (y_true m')) (last_n 10000 (y_pred m'))
       = Ok (RocAucMeter_avg m') /\
     List.length (last_n 10000 (y_true m')) = Nat.min 10000 (List.length (y_true m')) /\
     firstn (List.length (y_true m') - 10000) (y_true m') ++ last_n 10000 (y_true m')
       = y_true m') /\
  (forall m targets logits,
     List.length targets = 10000 -> List.length logits = 10000 ->
     RocAucMeter_update softmax1 m targets logits =
       (s <- roc_auc_score targets (map softmax1 logits) ;;
        Ok {| y_true := y_true m ++ targets;
              y_pred := y_pred m ++ map softmax1 logits;
              score := s |})) /\
  (forall ys p0 p1 ps sc targets logits,
     forallb (fun y => (y =? 0)%Z || (y =? 1)%Z) (ys ++ targets) = true ->
     List.length ys = List.length ps ->
     List.length targets = List.length logits ->
     2 + List.length ys + List.length targets <= 10000 ->
     exists m',
       RocAucMeter_update softmax1
         {| y_true := 0%Z :: 1%Z :: ys; y_pred := p0 :: p1 :: ps; score := sc |}
         targets logits = Ok m').
Proof.
  split; [repeat split|]. split; [|split].
  - intros m targets logits m'. unfold RocAucMeter_update. cbv zeta.
    destruct (roc_auc_score _ _) as [s|e] eqn:E; cbn [bind]; [|discriminate].
    intros H; injection H as <-. cbn [y_true y_pred RocAucMeter_avg score].
    split; [reflexivity|]. split; [reflexivity|]. split; [apply length_app|].
    split; [exact E|]. destruct (last_n_spec 10000 (y_true m ++ targets)) as [H1 H2].
    split; assumption.
  - intros m targets logits Ht Hl. unfold RocAucMeter_update. cbv zeta.
    rewrite (last_n_app_exact (y_true m) targets Ht).
    rewrite (last_n_app_exact (y_pred m) (map softmax1 logits)); [reflexivity|].
    rewrite length_map. exact Hl.
  - intros ys p0 p1 ps sc targets logits Hbin Hlen1 Hlen2 Hsmall.
    unfold RocAucMeter_update. cbv zeta. cbn [y_true y_pred].
    rewrite !last_n_all.
    + cbn [app]. destruct (roc_auc_score_seeded (ys ++ targets) p0 p1 (ps ++ map softmax1 logits) Hbin)
        as [s Hs].
      rewrite Hs. cbn [bind]. eexists; reflexivity.
    + cbn [app List.length]. rewrite length_app, length_map. lia.
    + cbn [app List.length]. rewrite length_app. lia.
Qed.

(** One update of a fresh meter with the pairs (1, 0.9) and (0, 0.2): the
    history has four pairs and the score is 7/8. *)
Lemma C7_witness :
  exists m',
    RocAucMeter_update (fun q : Q => q) RocAucMeter_reset [1%Z; 0%Z] [(9 # 10)%Q; (2 # 10)%Q]
      = Ok m' /\
    y_true m' = [0%Z; 1%Z; 1%Z; 0%Z] /\
    RocAucMeter_avg m' = (7 # 8)%Q /\
    roc_auc_score (last_n 10000 (y_true m')) (last_n 10000 (y_pred m')) = Ok (RocAucMeter_avg m').
Proof.
  destruct (C7_rolling_auc (fun q : Q => q)) as (_ & Hupd & _ & _).
  eexists. split; [vm_compute; reflexivity|].
  split; [reflexivity|]. split; [reflexivity|].
  refine (proj1 (proj2 (proj2 (proj2 (Hupd RocAucMeter_reset [1%Z; 0%Z] [(9 # 10)%Q; (2 # 10)%Q] _ _))))).
  vm_compute. reflexivity.
Defined.

(** ** The random module and the mixer *)

Lemma randbelow_lt (n : nat) (g : Rng) : 0 < n -> fst (randbelow n g) < n.
Proof.
  intros Hn. unfold randbelow, next_raw. cbn [fst].
  pose proof (N.mod_upper_bound (tape g (cursor g)) (N.of_nat n)). lia.
Qed.

Lemma randint_range (a b : nat) (g : Rng) :
  a <= b -> a <= fst (randint a b g) <= b.
Proof.
  intros Hab. unfold randint.
  pose proof (@randbelow_lt (b - a + 1) g) as H.
  destruct (randbelow (b - a + 1) g) as [k g']. cbn [fst] in *. specialize (H ltac:(lia)). lia.
Qed.

Lemma choice_nonempty {A : Type} (seq : list A) (g : Rng) :
  seq <> [] -> exists x g', choice seq g = Ok (x, g') /\ In x seq.
Proof.
  intros Hne. unfold choice. destruct seq as [|a seq']; [congruence|].
  pose proof (@randbelow_lt (List.length (a :: seq')) g) as Hlt.
  destruct (randbelow (List.length (a :: seq')) g) as [i g']. cbn [fst] in Hlt. specialize (Hlt ltac:(cbn [List.length]; lia)).
  destruct (nth_error (a :: seq') i) as [x|] eqn:E.
  - exists x, g'. split; [reflexivity|]. exact (nth_error_In _ _ E).
  - apply nth_error_None in E. cbn [List.length] in *. lia.
Qed.

Lemma append_choices_spec (n : nat) (pool texts : list text) (g : Rng) :
  pool <> [] ->
  exists xs g', append_choices n pool texts g = Ok (texts ++ xs, g') /\
                List.length xs = n /\ Forall (fun x => In x pool) xs.
Proof.
  intros Hne. revert texts g.
  induction n as [|n IH]; intros texts g; cbn [append_choices].
  - exists [], g. rewrite app_nil_r. repeat split. constructor.
  - destruct (@choice_nonempty _ pool g Hne) as (x & g1 & Hc & Hin). rewrite Hc.
    destruct (IH (texts ++ [x]) g1) as (xs & g' & He & Hl & Hf).
    exists (x :: xs), g'. rewrite He, <- app_assoc. cbn [app List.length].
    repeat split; [congruence|]. constructor; assumption.
Qed.

(** Assigning at an index trades the old element for the new one. *)
Lemma set_nth_perm {A : Type} (l : list A) (i : nat) (a b : A) :
  nth_error l i = Some b -> Permutation (a :: l) (b :: set_nth i a l).
Proof.
  revert i. induction l as [|x l IH]; intros [|i] H; cbn in H; try discriminate.
  - injection H as ->. cbn [set_nth]. apply perm_swap.
  - cbn [set_nth]. specialize (IH i H).
    rewrite (perm_swap x a l). rewrite (perm_swap x b (set_nth i a l)).
    now apply perm_skip.
Qed.

Lemma set_nth_same {A : Type} (l : list A) (i j : nat) (a b : A) :
  nth_error l j = Some a -> nth_error l i = Some b ->
  nth_error (set_nth i a l) j = Some a.
Proof.
  revert i j. induction l as [|x l IH]; intros [|i] [|j] Hj Hi; cbn in *; try discriminate;
    try assumption; try reflexivity.
  now apply IH.
Qed.

Lemma swap_perm {A : Type} (i j : nat) (l : list A) : Permutation (swap i j l) l.
Proof.
  unfold swap.
  destruct (nth_error l j) as [a|] eqn:Hj; [|reflexivity].
  destruct (nth_error l i) as [b|] eqn:Hi; [|reflexivity].
  pose proof (@set_nth_perm _ l i a b Hi) as P1.
  pose proof (@set_nth_perm _ (set_nth i a l) j b a (@set_nth_same _ l i j a b Hj Hi)) as P2.
  apply Permutation_cons_inv with (a := a).
  symmetry. rewrite P1. exact P2.
Qed.

Lemma shuffle_loop_perm {A : Type} (i : nat) (x : list A) (g : Rng) :
  Permutation (fst (shuffle_loop i x g)) x.
Proof.
  revert x g. induction i as [|i IH]; intros x g; cbn [shuffle_loop]; [reflexivity|].
  destruct (randbelow (S (S i)) g) as [j g'].
  rewrite IH. apply swap_perm.
Qed.

Lemma shuffle_perm {A : Type} (x : list A) (g : Rng) : Permutation (fst (shuffle x g)) x.
Proof. apply shuffle_loop_perm. Qed.

(** ** The trigger of the mixer *)

Lemma gate_true (p : Q) (g : Rng) : (fst (random g) < p)%Q -> fst (gate p g) = true.
Proof.
  unfold gate. destruct (random g) as [u g']. cbn [fst]. intros H.
  destruct (Qle_bool p u) eqn:E; [|reflexivity].
  apply Qle_bool_iff in E. exfalso. exact (Qlt_not_le _ _ H E).
Qed.

Lemma gate_false (p : Q) (g : Rng) : (p <= fst (random g))%Q -> fst (gate p g) = false.
Proof.
  unfold gate. destruct (random g) as [u g']. cbn [fst]. intros H.
  apply Qle_bool_iff in H. rewrite H. reflexivity.
Qed.

Lemma gate_rng (p : Q) (g : Rng) : snd (gate p g) = snd (random g).
Proof. unfold gate. destruct (random g). reflexivity. Qed.

(** With the gate draw at one half, the short second comment of the
    demonstration dataset (12 real tokens) comes back unmixed: its text is
    tokenized as it is, and only the seven gate draws are consumed. *)
Lemma C1_counterexample_short_text_not_mixed :
  fst (train_transforms ucd_other punkt_whole (str "You again.", "en"%string) rng_mixer_half)
    = (str "You again.", "en"%string) /\
  (sumZ (snd (get_tokens sp_chars (str "You again."))) <? 60)%Z = true /\
  exists g',
    getitem ucd_other punkt_whole sp_chars pool_demo (dataset_demo true) 1 rng_mixer_half
      = Ok ((1%Z, fst (get_tokens sp_chars (str "You again.")),
                  snd (get_tokens sp_chars (str "You again."))), g') /\
    cursor g' = 7.
Proof.
  split; [vm_compute; reflexivity|]. split; [vm_compute; reflexivity|].
  eexists. split; [vm_compute; reflexivity|]. reflexivity.
Qed.

(** C1 (amended): in training mode with augmentation, [__getitem__] returns
    the first tokenization, unmixed, when it has 60 real tokens or more; when
    it has fewer, the mixer transform is called, and it mixes only if its own
    draw is below p = 0.5: then the mixed text is tokenized from scratch,
    otherwise the augmented text is tokenized again as it is. *)
Theorem C1_mixer_trigger :
  forall ucd punkt sp pool self idx g t lang label,
    use_train_transforms self = true ->
    test self = false ->
    nth_error (comment_texts self) idx = Some t ->
    nth_error (langs self) idx = Some lang ->
    nth_error (labels_or_ids self) idx = Some label ->
    let aug := fst (fst (train_transforms ucd punkt (t, lang) g)) in
    let g1 := snd (train_transforms ucd punkt (t, lang) g) in
    let count := sumZ (snd (get_tokens sp aug)) in
    let u := fst (random g1) in
    let g2 := snd (random g1) in
    ((60 <= count)%Z ->
       getitem ucd punkt sp pool self idx g
         = Ok ((label, fst (get_tokens sp aug), snd (get_tokens sp aug)), g1)) /\
    ((count < 60)%Z -> (synthesic_p <= u)%Q ->
       getitem ucd punkt sp pool self idx g
         = Ok ((label, fst (get_tokens sp aug), snd (get_tokens sp aug)), g2)) /\
    ((count < 60)%Z -> (u < synthesic_p)%Q ->
       getitem ucd punkt sp pool self idx g
         = match generate_synthesic_sample pool aug label g2 with
           | Raise e => Raise e
           | Ok (mixed, g3) =>
               Ok ((label, fst (get_tokens sp mixed), snd (get_tokens sp mixed)), g3)
           end).
Proof.
  intros ucd punkt sp pool self idx g t lang label Haug Htest Ht Hlang Hlabel.
  cbv zeta. unfold getitem, index.
  rewrite Ht, Hlang, Htest, Hlabel, Haug. cbv zeta. cbn [read_local].
  destruct (train_transforms ucd punkt (t, lang) g) as [data g1]. cbn [fst snd].
  destruct (get_tokens sp (fst data)) as [tk am] eqn:E. cbn [fst snd].
  split; [|split].
  - intros H. apply Z.ltb_ge in H. rewrite H. reflexivity.
  - intros H Hu. apply Z.ltb_lt in H. rewrite H.
    unfold synthesic_transforms.
    pose proof (@gate_false synthesic_p g1 Hu) as Hg.
    pose proof (gate_rng synthesic_p g1) as Hr.
    destruct (gate synthesic_p g1) as [fire gg]. cbn [fst snd] in Hg, Hr. subst fire gg.
    cbn [fst snd]. rewrite E. reflexivity.
  - intros H Hu. apply Z.ltb_lt in H. rewrite H.
    unfold synthesic_transforms.
    pose proof (@gate_true synthesic_p g1 Hu) as Hg.
    pose proof (gate_rng synthesic_p g1) as Hr.
    destruct (gate synthesic_p g1) as [fire gg]. cbn [fst snd] in Hg, Hr. subst fire gg.
    cbn [fst snd].
    destruct (generate_synthesic_sample pool (fst data) label (snd (random g1)))
      as [[mixed g3]|e]; [|reflexivity].
    cbn [fst]. destruct (get_tokens sp mixed). reflexivity.
Qed.

(** The three cases on the demonstration dataset: the second comment, with
    the mixer's draw at 0 (mixed) and at one half (not mixed). *)
Lemma C1_witness :
  (use_train_transforms (dataset_demo true) = true /\ test (dataset_demo true) = false /\
   nth_error (comment_texts (dataset_demo true)) 1 = Some (str "You again.") /\
   nth_error (langs (dataset_demo true)) 1 = Some "en"%string /\
   nth_error (labels_or_ids (dataset_demo true)) 1 = Some 1%Z) /\
  (sumZ (snd (get_tokens sp_chars (str "You again."))) < 60)%Z /\
  (fst (random (snd (train_transforms ucd_other punkt_whole (str "You again.", "en"%string)
                       (rng_const 0%N))))
     < synthesic_p)%Q /\
  exists mixed g3,
    getitem ucd_other punkt_whole sp_chars pool_demo (dataset_demo true) 1 (rng_const 0%N)
      = Ok ((1%Z, fst (get_tokens sp_chars mixed), snd (get_tokens sp_chars mixed)), g3) /\
    List.length (str "You again.") < List.length mixed.
Proof.
  split; [repeat split|].
  assert (Hc : (sumZ (snd (get_tokens sp_chars (str "You again."))) < 60)%Z)
    by (vm_compute; reflexivity).
  assert (Hu : (fst (random (snd (train_transforms ucd_other punkt_whole
                   (str "You again.", "en"%string) (rng_const 0%N)))) < synthesic_p)%Q)
    by (vm_compute; reflexivity).
  split; [exact Hc|]. split; [exact Hu|].
  pose proof (@C1_mixer_trigger ucd_other punkt_whole sp_chars pool_demo (dataset_demo true) 1
                (rng_const 0%N) _ _ _ eq_refl eq_refl eq_refl eq_refl eq_refl) as H.
  cbv zeta in H. destruct H as (_ & _ & H).
  assert (Ha : fst (fst (train_transforms ucd_other punkt_whole
                 (str "You again.", "en"%string) (rng_const 0%N))) = str "You again.")
    by (vm_compute; reflexivity).
  rewrite Ha in H. specialize (H Hc Hu).
  destruct (generate_synthesic_sample pool_demo (str "You again.") 1%Z _)
    as [[mixed g3]|e] eqn:E.
  - exists mixed, g3. split; [exact H|].
    vm_compute in E. injection E as <- _. vm_compute. lia.
  - vm_compute in E. discriminate E.
Defined.

(** ** The training loop *)

Section FitterProperties.

Variables Model Optimizer Scheduler Logits : Type.
Variable softmax1 : Logits -> Q.
Variable model_train model_eval : Model -> Model.
Variable forward : Model -> Batch -> Q * list Logits.
Variable backward : Model -> Batch -> Model.
Variable optimizer_step : Optimizer -> Model -> Optimizer * Model.
Variable zero_grad : Optimizer -> Model -> Model.
Variable scheduler_step : Scheduler -> option Q -> Optimizer -> Scheduler * Optimizer.
Variable get_lr : Optimizer -> Q.
Variables train_data_len val_len : nat.

Local Notation Fitter := (TPUFitter Model Optimizer Scheduler).
Local Notation train_step' :=
  (train_step softmax1 forward backward optimizer_step zero_grad scheduler_step).
Local Notation train_loop' :=
  (train_loop softmax1 forward backward optimizer_step zero_grad scheduler_step).

(** C10: a batch whose labels sum to strictly less than 0.15 times the
    configured batch size is skipped by the loop of [train_one_epoch]: the
    step succeeds, the loss meter, the rolling AUC meter, the model, the
    optimizer, the scheduler, the best score, the epoch counter and the
    checkpoints are unchanged, no forward pass, backward pass, optimizer
    step, gradient reset or scheduler step is recorded (at most the verbose
    log line is written), and the loop goes on with the next batch. *)
Theorem C10_skipped_batch :
  forall (cfg : Config) (st : Fitter) (losses : AverageMeter) (step : nat) (b : Batch)
         (rest : list Batch),
    (inject_Z (sumZ (targets b)) < inject_Z (Z.of_nat (batch_size cfg)) * (15 # 100))%Q ->
    (verbose cfg = true -> verbose_step cfg <> 0) ->
    exists st' : Fitter,
      train_step' cfg st losses step b = Ok (st', losses) /\
      model st' = model st /\
      optimizer st' = optimizer st /\
      scheduler st' = scheduler st /\
      final_scores st' = final_scores st /\
      best_score st' = best_score st /\
      epoch st' = epoch st /\
      ckpts st' = ckpts st /\
      filter is_classifier_call (trace st') = filter is_classifier_call (trace st) /\
      (trace st' = trace st \/
       trace st' = trace st ++ [Log (MsgTrainStep step (am_avg losses)
                                       (RocAucMeter_avg (final_scores st)))]) /\
      train_loop' cfg st losses step (b :: rest) = train_loop' cfg st' losses (S step) rest.
Proof.
  intros cfg st losses step b rest Hsum Hverbose.
  assert (Hskip : too_few_positives cfg b = true).
  { unfold too_few_positives, Qltb.
    destruct (Qle_bool _ _) eqn:E; [|reflexivity].
    apply Qle_bool_iff in E. exfalso. exact (Qlt_not_le _ _ Hsum E). }
  cbn [train_loop]. unfold train_step.
  destruct (verbose cfg) eqn:Hv.
  - specialize (Hverbose eq_refl).
    destruct (verbose_step cfg) as [|k] eqn:Hk; [congruence|].
    destruct (step mod S k =? 0); cbn [bind]; rewrite Hskip; cbn [bind].
    + eexists. split; [reflexivity|]. cbn [emit model optimizer scheduler final_scores
        best_score epoch ckpts trace].
      repeat (split; [reflexivity|]).
      split; [|split; [right; reflexivity|reflexivity]].
      rewrite filter_app. cbn [filter is_classifier_call]. apply app_nil_r.
    + exists st. repeat (split; [reflexivity|]). split; [left; reflexivity|reflexivity].
  - cbn [bind]. rewrite Hskip. cbn [bind].
    exists st. repeat (split; [reflexivity|]). split; [left; reflexivity|reflexivity].
Qed.

End FitterProperties.

(** With the batch size 7 of [TrainGlobalConfig] the threshold is 1.05: a
    batch with a single toxic comment is skipped. *)
Lemma C10_witness :
  (inject_Z (sumZ (targets (batch_of [0; 0; 1; 0; 0; 0; 0]%Z)))
     < inject_Z (Z.of_nat (batch_size TrainGlobalConfig)) * (15 # 100))%Q /\
  exists st',
    train_step (fun q : Q => q) (stub_forward (fun _ => [])) (fun m _ => m)
      stub_optimizer_step (fun _ m => m) stub_scheduler_step
      TrainGlobalConfig (TPUFitter_init 0 tt tt []) AverageMeter_reset 1
      (batch_of [0; 0; 1; 0; 0; 0; 0]%Z) = Ok (st', AverageMeter_reset) /\
    model st' = 0 /\ trace st' = [].
Proof.
  assert (H : (inject_Z (sumZ (targets (batch_of [0; 0; 1; 0; 0; 0; 0]%Z)))
     < inject_Z (Z.of_nat (batch_size TrainGlobalConfig)) * (15 # 100))%Q)
    by (vm_compute; reflexivity).
  split; [exact H|].
  destruct (@C10_skipped_batch nat unit unit Q (fun q : Q => q) (stub_forward (fun _ => []))
              (fun m _ => m) stub_optimizer_step (fun _ m => m) stub_scheduler_step
              TrainGlobalConfig (TPUFitter_init 0 tt tt []) AverageMeter_reset 1
              (batch_of [0; 0; 1; 0; 0; 0; 0]%Z) [] H ltac:(discriminate))
    as (st' & Hstep & Hm & _ & _ & _ & _ & _ & _ & _ & Htr & _).
  exists st'. split; [exact Hstep|]. split; [exact Hm|].
  destruct Htr as [Htr|Htr]; [exact Htr|].
  vm_compute in Hstep. injection Hstep as <-. reflexivity.
Defined.

(** ** Checkpointing *)

Lemma saves_app (a b : list Event) : saves (a ++ b) = saves a + saves b.
Proof. unfold saves. rewrite filter_app, length_app. reflexivity. Qed.

Lemma val_scores_app (a b : list Event) : val_scores (a ++ b) = val_scores a ++ val_scores b.
Proof.
  induction a as [|e a IH]; [reflexivity|].
  destruct e as [[]| | | | | | | |]; cbn [app val_scores]; rewrite ?IH; reflexivity.
Qed.

Lemma quiet_saves (evs : list Event) : forallb is_quiet evs = true -> saves evs = 0.
Proof.
  induction evs as [|e evs IH]; [reflexivity|].
  cbn [forallb]. intros H. apply andb_prop in H as [He Hevs].
  change (e :: evs) with ([e] ++ evs). rewrite saves_app, (IH Hevs).
  destruct e as [[]| | | | | | | |]; try reflexivity; discriminate He.
Qed.

Lemma quiet_val_scores (evs : list Event) : forallb is_quiet evs = true -> val_scores evs = [].
Proof.
  induction evs as [|e evs IH]; [reflexivity|].
  cbn [forallb]. intros H. apply andb_prop in H as [He Hevs].
  destruct e as [[]| | | | | | | |]; cbn [val_scores]; try (exact (IH Hevs)); discriminate He.
Qed.

Lemma Qltb_lt (a b : Q) : Qltb a b = true <-> (a < b)%Q.
Proof.
  unfold Qltb. split.
  - intros H. apply Qnot_le_lt. intros Hle. apply Qle_bool_iff in Hle.
    rewrite Hle in H. discriminate H.
  - intros H. destruct (Qle_bool b a) eqn:E; [|reflexivity].
    apply Qle_bool_iff in E. exfalso. exact (Qlt_not_le _ _ H E).
Qed.

Lemma Qltb_ge (a b : Q) : Qltb a b = false <-> (b <= a)%Q.
Proof.
  unfold Qltb. rewrite negb_false_iff. apply Qle_bool_iff.
Qed.

Section Checkpointing.

Variables Model Optimizer Scheduler Logits : Type.
Variable softmax1 : Logits -> Q.
Variable model_train model_eval : Model -> Model.
Variable forward : Model -> Batch -> Q * list Logits.
Variable backward : Model -> Batch -> Model.
Variable optimizer_step : Optimizer -> Model -> Optimizer * Model.
Variable zero_grad : Optimizer -> Model -> Model.
Variable scheduler_step : Scheduler -> option Q -> Optimizer -> Scheduler * Optimizer.
Variable get_lr : Optimizer -> Q.
Variables train_data_len val_len : nat.

Local Notation Fitter := (TPUFitter Model Optimizer Scheduler).

(** [st'] comes from [st] by steps that neither save a checkpoint, nor log a
    validation result, nor touch the best score. *)
Definition quiet_step (st st' : Fitter) : Prop :=
  best_score st' = best_score st /\
  exists evs, trace st' = trace st ++ evs /\ forallb is_quiet evs = true.

Lemma quiet_refl (st : Fitter) : quiet_step st st.
Proof. split; [reflexivity|]. exists []. now rewrite app_nil_r. Qed.

Lemma quiet_trans (a b c : Fitter) : quiet_step a b -> quiet_step b c -> quiet_step a c.
Proof.
  intros [Hb1 (e1 & Ht1 & Hq1)] [Hb2 (e2 & Ht2 & Hq2)]. split; [congruence|].
  exists (e1 ++ e2). rewrite Ht2, Ht1, <- app_assoc. split; [reflexivity|].
  rewrite forallb_app, Hq1, Hq2. reflexivity.
Qed.

Lemma quiet_emit (e : Event) (st : Fitter) : is_quiet e = true -> quiet_step st (emit e st).
Proof.
  intros He. split; [reflexivity|]. exists [e]. split; [reflexivity|].
  cbn [forallb]. now rewrite He.
Qed.

Lemma quiet_same (st st' : Fitter) :
  best_score st' = best_score st -> trace st' = trace st -> quiet_step st st'.
Proof. intros Hb Ht. split; [exact Hb|]. exists []. now rewrite app_nil_r. Qed.

Lemma quiet_scheduler (metrics : option Q) (st : Fitter) :
  quiet_step st (do_scheduler_step scheduler_step metrics st).
Proof.
  unfold do_scheduler_step. destruct (scheduler_step _ _ _) as [s o].
  eapply quiet_trans; [|apply quiet_emit; reflexivity].
  apply quiet_same; reflexivity.
Qed.

Lemma quiet_train_step cfg (st : Fitter) losses step b st' losses' :
  train_step softmax1 forward backward optimizer_step zero_grad scheduler_step
    cfg st losses step b = Ok (st', losses') ->
  quiet_step st st'.
Proof.
  unfold train_step.
  set (logged := if verbose cfg then _ else _).
  assert (Hlog : forall s1, logged = Ok s1 -> quiet_step st s1).
  { subst logged. intros s1. destruct (verbose cfg).
    - destruct (verbose_step cfg) as [|k]; [discriminate|].
      destruct (step mod S k =? 0); intros H; injection H as <-.
      + apply quiet_emit. reflexivity.
      + apply quiet_refl.
    - intros H; injection H as <-. apply quiet_refl. }
  destruct logged as [s1|e]; cbn [bind]; [|discriminate].
  specialize (Hlog s1 eq_refl).
  destruct (too_few_positives cfg b).
  - intros H; injection H as <- <-. exact Hlog.
  - destruct (forward (model s1) b) as [loss logits].
    destruct (RocAucMeter_update _ _ _ _) as [fs|e]; cbn [bind]; [|discriminate].
    destruct (AverageMeter_update _ _ _) as [l2|e]; cbn [bind]; [|discriminate].
    cbv zeta.
    destruct (optimizer_step _ _) as [o m].
    intros H; injection H as <- <-.
    eapply quiet_trans; [exact Hlog|].
    destruct (step_scheduler cfg).
    + eapply quiet_trans; [|apply quiet_scheduler].
      split; [reflexivity|]. exists [Forward; Backward; OptimizerStep; ZeroGrad].
      split; [|reflexivity]. cbn [emit trace with_model with_optimizer with_final_scores].
      rewrite <- !app_assoc. reflexivity.
    + split; [reflexivity|]. exists [Forward; Backward; OptimizerStep; ZeroGrad].
      split; [|reflexivity]. cbn [emit trace with_model with_optimizer with_final_scores].
      rewrite <- !app_assoc. reflexivity.
Qed.

Lemma quiet_train_loop cfg loader : forall (st : Fitter) losses step st' losses',
  train_loop softmax1 forward backward optimizer_step zero_grad scheduler_step
    cfg st losses step loader = Ok (st', losses') ->
  quiet_step st st'.
Proof.
  induction loader as [|b loader IH]; intros st losses step st' losses'; cbn [train_loop].
  - intros H; injection H as <- <-. apply quiet_refl.
  - destruct (train_step _ _ _ _ _ _ _ _ _ _ _) as [[s1 l1]|e] eqn:E; cbn [bind]; [|discriminate].
    intros H. eapply quiet_trans; [exact (quiet_train_step _ _ _ _ _ E)|exact (IH _ _ _ _ _ H)].
Qed.

Lemma quiet_train_one_epoch cfg (st : Fitter) loader losses fs st' :
  train_one_epoch softmax1 model_train model_eval forward backward optimizer_step zero_grad
    scheduler_step train_data_len cfg st loader = Ok (losses, fs, st') ->
  quiet_step st st'.
Proof.
  unfold train_one_epoch. cbv zeta.
  destruct (batch_size cfg) as [|k]; [discriminate|].
  destruct (train_loop _ _ _ _ _ _ _ _ _ _ _) as [[s1 l1]|e] eqn:E; cbn [bind]; [|discriminate].
  intros H; injection H as <- <- <-.
  apply quiet_train_loop in E.
  eapply quiet_trans; [|apply quiet_same; reflexivity].
  eapply quiet_trans; [|exact E]. apply quiet_same; reflexivity.
Qed.

Lemma quiet_validation_loop loader : forall (st : Fitter) losses fs st' losses' fs',
  validation_loop softmax1 forward st losses fs loader = Ok (st', losses', fs') ->
  quiet_step st st'.
Proof.
  induction loader as [|b loader IH]; intros st losses fs st' losses' fs'; cbn [validation_loop].
  - intros H; injection H as <- <- <-. apply quiet_refl.
  - destruct (forward (model st) b) as [loss logits].
    destruct (RocAucMeter_update _ _ _ _) as [fs1|e]; cbn [bind]; [|discriminate].
    destruct (AverageMeter_update _ _ _) as [l1|e]; cbn [bind]; [|discriminate].
    intros H. apply IH in H.
    eapply quiet_trans; [|exact H]. apply quiet_emit. reflexivity.
Qed.

Lemma quiet_validation cfg (st : Fitter) loader losses fs st' :
  validation softmax1 model_eval forward val_len cfg st loader = Ok (losses, fs, st') ->
  quiet_step st st'.
Proof.
  unfold validation. cbv zeta.
  destruct (batch_size cfg) as [|k]; [discriminate|].
  destruct (validation_loop _ _ _ _ _ _) as [[[s1 l1] f1]|e] eqn:E; cbn [bind]; [|discriminate].
  intros H; injection H as <- <- <-.
  apply quiet_validation_loop in E.
  eapply quiet_trans; [|exact E]. apply quiet_same; reflexivity.
Qed.

Lemma quiet_inference_loop loader : forall (st : Fitter) acc,
  quiet_step st (fst (inference_loop softmax1 forward st acc loader)).
Proof.
  induction loader as [|b loader IH]; intros st acc; cbn [inference_loop].
  - apply quiet_refl.
  - eapply quiet_trans; [|apply IH]. apply quiet_emit. reflexivity.
Qed.

Lemma quiet_run_inference (st : Fitter) loader st' :
  run_inference softmax1 model_eval forward st loader = Ok st' -> quiet_step st st'.
Proof.
  unfold run_inference.
  destruct (List.length (ckpts st)) as [|n]; [discriminate|].
  destruct (lookup_ckpt n (ckpts st)) as [m|]; [|discriminate].
  cbv zeta.
  pose proof (quiet_inference_loop loader
                (emit (LoadCheckpoint n) (with_model (model_eval m) st)) []) as Hq.
  destruct (inference_loop _ _ _ _ _) as [s1 res]. cbn [fst] in Hq.
  intros H; injection H as <-.
  eapply quiet_trans; [|apply quiet_emit; reflexivity].
  eapply quiet_trans; [|exact Hq].
  eapply quiet_trans; [|apply quiet_emit; reflexivity].
  apply quiet_same; reflexivity.
Qed.

(** What the end of an epoch adds to the trace and does to the best score. *)
Lemma end_of_epoch_effect cfg (st : Fitter) avg loader st' :
  end_of_epoch softmax1 model_eval forward scheduler_step cfg st avg loader = Ok st' ->
  exists evs,
    trace st' = trace st ++ evs /\ val_scores evs = [] /\
    saves evs = (if Qltb (best_score st) avg then 1 else 0) /\
    best_score st' = (if Qltb (best_score st) avg then avg else best_score st).
Proof.
  unfold end_of_epoch. cbv zeta.
  set (s1 := if validation_scheduler cfg then _ else st).
  assert (H1 : quiet_step st s1).
  { subst s1. destruct (validation_scheduler cfg); [apply quiet_scheduler|apply quiet_refl]. }
  destruct H1 as [Hb1 (e1 & Ht1 & Hq1)].
  cbn [with_epoch best_score]. rewrite Hb1.
  destruct (Qltb (best_score st) avg).
  - intros H. apply quiet_run_inference in H as [Hb2 (e2 & Ht2 & Hq2)].
    cbn [save emit with_ckpts with_best_score with_epoch trace best_score ckpts] in Ht2, Hb2.
    exists (e1 ++ [Log (MsgImproved (best_score st) avg)] ++ [Save (List.length (ckpts s1))] ++ e2).
    split; [rewrite Ht2, Ht1, <- !app_assoc; reflexivity|].
    rewrite !val_scores_app, !saves_app, (quiet_val_scores _ Hq1), (quiet_val_scores _ Hq2),
      (quiet_saves _ Hq1), (quiet_saves _ Hq2).
    repeat split; [exact Hb2].
  - intros H; injection H as <-.
    exists (e1 ++ [Log (MsgNotImproved (best_score st))]).
    cbn [emit with_epoch trace best_score]. rewrite Ht1, <- app_assoc.
    rewrite val_scores_app, saves_app, (quiet_val_scores _ Hq1), (quiet_saves _ Hq1).
    repeat split. exact Hb1.
Qed.

Lemma fit_epoch_effect cfg (st : Fitter) train_loader val_loader test_loader st' :
  fit_epoch softmax1 model_train model_eval forward backward optimizer_step zero_grad
    scheduler_step get_lr train_data_len val_len cfg st train_loader val_loader test_loader
    = Ok st' ->
  exists avg evs,
    trace st' = trace st ++ evs /\ val_scores evs = [avg] /\
    saves evs = (if Qltb (best_score st) avg then 1 else 0) /\
    best_score st' = (if Qltb (best_score st) avg then avg else best_score st).
Proof.
  unfold fit_epoch. cbv zeta.
  set (s0 := if verbose cfg then _ else st).
  assert (H0 : quiet_step st s0).
  { subst s0. destruct (verbose cfg); [apply quiet_emit; reflexivity|apply quiet_refl]. }
  destruct (train_one_epoch _ _ _ _ _ _ _ _ _ _ _ _) as [[[l1 f1] s1]|e] eqn:E1;
    cbn [bind]; [|discriminate].
  apply quiet_train_one_epoch in E1.
  destruct (validation _ _ _ _ _ _ _) as [[[l2 f2] s2]|e] eqn:E2; cbn [bind]; [|discriminate].
  apply quiet_validation in E2.
  intros H. apply end_of_epoch_effect in H as (e3 & Ht3 & Hv3 & Hs3 & Hb3).
  assert (Hq : quiet_step st s1) by (eapply quiet_trans; eassumption).
  assert (Hq2 : quiet_step (emit (Log (MsgTrainResult (epoch s1) (am_avg l1) (RocAucMeter_avg f1))) s1) s2)
    by exact E2.
  assert (Hq3 : quiet_step st s2).
  { eapply quiet_trans; [exact Hq|]. eapply quiet_trans; [|exact Hq2].
    apply quiet_emit. reflexivity. }
  destruct Hq3 as [Hb (e & Ht & Hqe)].
  cbn [emit trace best_score] in Ht3, Hs3, Hb3. rewrite Hb in Hs3, Hb3.
  exists (RocAucMeter_avg f2),
    (e ++ [Log (MsgValResult (epoch s2) (am_avg l2) (RocAucMeter_avg f2))] ++ e3).
  split; [rewrite Ht3, Ht, <- !app_assoc; reflexivity|].
  rewrite !val_scores_app, !saves_app, (quiet_val_scores _ Hqe), (quiet_saves _ Hqe), Hv3.
  repeat split; assumption.
Qed.

Lemma fit_loop_effect cfg train_loader val_loader test_loader n :
  forall e (st st' : Fitter),
    fit_loop softmax1 model_train model_eval forward backward optimizer_step zero_grad
      scheduler_step get_lr train_data_len val_len cfg n e st train_loader val_loader
      test_loader = Ok st' ->
    exists evs,
      trace st' = trace st ++ evs /\
      List.length (val_scores evs) = n /\
      saves evs = strict_improvements (best_score st) (val_scores evs).
Proof.
  induction n as [|n IH]; intros e st st'; cbn [fit_loop].
  - intros H; injection H as <-. exists []. now rewrite app_nil_r.
  - destruct (fit_epoch _ _ _ _ _ _ _ _ _ _ _ _ _ _ _ _) as [s1|x] eqn:E; cbn [bind];
      [|discriminate].
    intros H. apply fit_epoch_effect in E as (avg & e1 & Ht1 & Hv1 & Hs1 & Hb1).
    apply IH in H as (e2 & Ht2 & Hl2 & Hs2).
    exists (e1 ++ e2). rewrite Ht2, Ht1, <- app_assoc.
    rewrite val_scores_app, saves_app, Hv1, Hs1, Hs2, Hb1.
    split; [reflexivity|]. split; [cbn [app List.length]; lia|].
    cbn [app strict_improvements].
    destruct (Qltb (best_score st) avg); reflexivity.
Qed.

(** C4 (amended): [fit] saves a checkpoint at the end of an epoch exactly
    when the validation score of the epoch is strictly above the best score
    so far, which is 0 for a fresh fitter.  The saves of a run are therefore
    as many as the logged validation scores that strictly improve on their
    predecessors and on 0: two when the scores are 0.80 then 0.85 (one after
    each epoch), one when they are 0.80 then 0.75. *)
Theorem C4_checkpoint_on_strict_improvement :
  (forall cfg (st : Fitter) avg test_loader st',
     end_of_epoch softmax1 model_eval forward scheduler_step cfg st avg test_loader = Ok st' ->
     ((best_score st < avg)%Q ->
        saves (trace st') = S (saves (trace st)) /\ best_score st' = avg) /\
     ((avg <= best_score st)%Q ->
        saves (trace st') = saves (trace st) /\ best_score st' = best_score st)) /\
  (forall cfg m o s train_loader val_loader test_loader (st' : Fitter),
     fit softmax1 model_train model_eval forward backward optimizer_step zero_grad
       scheduler_step get_lr train_data_len val_len cfg (TPUFitter_init m o s [])
       train_loader val_loader test_loader = Ok st' ->
     List.length (val_scores (trace st')) = n_epochs cfg /\
     saves (trace st') = strict_improvements 0 (val_scores (trace st')) /\
     (val_scores (trace st') = [4 # 5; 17 # 20]%Q -> saves (trace st') = 2) /\
     (val_scores (trace st') = [4 # 5; 3 # 4]%Q -> saves (trace st') = 1)).
Proof.
  split.
  - intros cfg st avg test_loader st' H.
    apply end_of_epoch_effect in H as (evs & Ht & _ & Hs & Hb).
    rewrite Ht, saves_app, Hs, Hb. split.
    + intros Hlt. apply Qltb_lt in Hlt. rewrite Hlt. split; [lia|reflexivity].
    + intros Hge. apply Qltb_ge in Hge. rewrite Hge. split; [lia|reflexivity].
  - intros cfg m o s train_loader val_loader test_loader st' H.
    unfold fit in H. apply fit_loop_effect in H as (evs & Ht & Hl & Hs).
    cbn [TPUFitter_init trace best_score app] in Ht, Hs. rewrite Ht.
    split; [exact Hl|]. split; [exact Hs|].
    split; intros Hv; rewrite Hs, Hv; reflexivity.
Qed.

End Checkpointing.

(** A fresh fitter whose two validation scores are 0.80 and 0.85 saves twice;
    with 0.80 and 0.75 it saves once. *)
Lemma C4_counterexample_scenarios :
  (exists st', scenario_fit [1 # 10; 1 # 10; 1 # 10; 7 # 10; 9 # 10]%Q = Ok st' /\
               val_scores (trace st') = [4 # 5; 17 # 20]%Q /\ saves (trace st') = 2) /\
  (exists st', scenario_fit [1 # 10; 1 # 2; 1 # 2; 7 # 10; 9 # 10]%Q = Ok st' /\
               val_scores (trace st') = [4 # 5; 3 # 4]%Q /\ saves (trace st') = 1).
Proof.
  split; eexists; (split; [vm_compute; reflexivity|]); split; vm_compute; reflexivity.
Qed.

(** The first scenario, run on the table-driven classifier. *)
Lemma C4_witness :
  exists st',
    fit (fun q : Q => q) (fun m => m) (fun m => m)
      (stub_forward (scenario_scores [1 # 10; 1 # 10; 1 # 10; 7 # 10; 9 # 10]%Q))
      (fun m _ => m) stub_optimizer_step (fun _ m => m) stub_scheduler_step
      (fun _ => 0%Q) 7 5 scenario_config (TPUFitter_init 0 tt tt [])
      (fun _ => [batch_of [0; 0; 0; 1; 1]%Z]) [batch_of [0; 0; 0; 0; 1]%Z] [] = Ok st' /\
    List.length (val_scores (trace st')) = n_epochs scenario_config /\
    saves (trace st') = strict_improvements 0 (val_scores (trace st')) /\
    val_scores (trace st') = [4 # 5; 17 # 20]%Q /\
    saves (trace st') = 2.
Proof.
  assert (E : exists st',
    fit (fun q : Q => q) (fun m => m) (fun m => m)
      (stub_forward (scenario_scores [1 # 10; 1 # 10; 1 # 10; 7 # 10; 9 # 10]%Q))
      (fun m _ => m) stub_optimizer_step (fun _ m => m) stub_scheduler_step
      (fun _ => 0%Q) 7 5 scenario_config (TPUFitter_init 0 tt tt [])
      (fun _ => [batch_of [0; 0; 0; 1; 1]%Z]) [batch_of [0; 0; 0; 0; 1]%Z] [] = Ok st' /\
    val_scores (trace st') = [4 # 5; 17 # 20]%Q).
  { eexists. split; vm_compute; reflexivity. }
  destruct E as [st' [E Hv]]. exists st'. split; [exact E|].
  destruct (proj2 (@C4_checkpoint_on_strict_improvement nat unit unit Q (fun q : Q => q)
                (fun m => m) (fun m => m)
                (stub_forward (scenario_scores [1 # 10; 1 # 10; 1 # 10; 7 # 10; 9 # 10]%Q))
                (fun m _ => m) stub_optimizer_step (fun _ m => m) stub_scheduler_step
                (fun _ => 0%Q) 7 5) scenario_config 0 tt tt
                (fun _ => [batch_of [0; 0; 0; 1; 1]%Z]) [batch_of [0; 0; 0; 0; 1]%Z] [] st' E)
    as (Hl & Hs & Hup & _).
  split; [exact Hl|]. split; [exact Hs|]. split; [exact Hv|]. exact (Hup Hv).
Defined.

(** ** Duplicate sentences *)

Lemma text_eqb_eq (a b : text) : text_eqb a b = true <-> a = b.
Proof.
  revert b. induction a as [|x a IH]; intros [|y b]; cbn [text_eqb];
    try (split; [discriminate|discriminate]); [tauto|].
  rewrite andb_true_iff, N.eqb_eq, IH. split.
  - intros [-> ->]. reflexivity.
  - intros H; injection H as -> ->. split; reflexivity.
Qed.

Lemma text_eqb_refl (a : text) : text_eqb a a = true.
Proof. now apply text_eqb_eq. Qed.

Lemma text_eqb_neq (a b : text) : a <> b -> text_eqb a b = false.
Proof.
  intros H. destruct (text_eqb a b) eqn:E; [|reflexivity].
  apply text_eqb_eq in E. contradiction.
Qed.

Lemma mem_In (x : text) (l : list text) : mem x l = true <-> In x l.
Proof.
  induction l as [|y l IH]; cbn [mem In]; [split; [discriminate|tauto]|].
  rewrite orb_true_iff, IH, text_eqb_eq. split; intros [H|H]; auto.
Qed.

Lemma mem_not_In (x : text) (l : list text) : mem x l = false <-> ~ In x l.
Proof.
  rewrite <- mem_In. destruct (mem x l); split; intros H; try reflexivity; try discriminate.
  - exfalso. now apply H.
Qed.

(** The loop appends to [acc] the new trimmed sentences of [l], each once, in
    the order of their first occurrences. *)
Lemma dedup_loop_spec (ucd : char -> uclass) (l : list text) :
  forall acc, NoDup acc ->
  exists news,
    dedup_loop ucd acc l = acc ++ news /\
    NoDup (acc ++ news) /\
    (forall x, In x news <-> In x (map (strip ucd) l) /\ ~ In x acc) /\
    (forall i j x y, i < j -> nth_error news i = Some x -> nth_error news j = Some y ->
       first_index x (map (strip ucd) l) < first_index y (map (strip ucd) l)).
Proof.
  induction l as [|s l IH]; intros acc Hacc; cbn [dedup_loop map].
  - exists []. rewrite app_nil_r. split; [reflexivity|]. split; [exact Hacc|]. split.
    + intros x. cbn [In]. tauto.
    + intros i j x y _ Hi. destruct i; discriminate Hi.
  - cbv zeta. destruct (mem (strip ucd s) acc) eqn:Hm.
    + apply mem_In in Hm.
      destruct (IH acc Hacc) as (news & He & Hnd & Hin & Hord).
      exists news. split; [exact He|]. split; [exact Hnd|]. split.
      * intros x. rewrite Hin. cbn [In]. split; [tauto|].
        intros [[<-|H] Hn]; [contradiction|]. tauto.
      * intros i j x y Hij Hi Hj. cbn [first_index].
        assert (Hx : x <> strip ucd s).
        { intros ->. apply nth_error_In in Hi. apply Hin in Hi. tauto. }
        assert (Hy : y <> strip ucd s).
        { intros ->. apply nth_error_In in Hj. apply Hin in Hj. tauto. }
        rewrite (text_eqb_neq Hx), (text_eqb_neq Hy).
        apply -> Nat.succ_lt_mono. exact (Hord i j x y Hij Hi Hj).
    + apply mem_not_In in Hm.
      assert (Hacc' : NoDup (acc ++ [strip ucd s])).
      { apply NoDup_app; [exact Hacc|repeat constructor; intros []|].
        intros x Hx [<-|[]]. contradiction. }
      destruct (IH (acc ++ [strip ucd s]) Hacc') as (news & He & Hnd & Hin & Hord).
      exists (strip ucd s :: news).
      split; [rewrite He, <- app_assoc; reflexivity|].
      split; [rewrite <- app_assoc in Hnd; exact Hnd|]. split.
      * intros x. cbn [In]. rewrite Hin, in_app_iff. cbn [In]. split.
        -- intros [<-|[H Hn]]; [tauto|]. tauto.
        -- intros [[<-|H] Hn]; [tauto|].
           destruct (list_eq_dec N.eq_dec (strip ucd s) x) as [->|Hne]; [tauto|].
           right. split; [exact H|]. tauto.
      * intros i j x y Hij Hi Hj. cbn [first_index].
        destruct j as [|j]; [lia|]. cbn [nth_error] in Hj.
        assert (Hy : y <> strip ucd s).
        { intros ->. apply nth_error_In in Hj. apply Hin in Hj.
          apply (proj2 Hj). apply in_or_app. right. now left. }
        rewrite (text_eqb_neq Hy).
        destruct i as [|i]; cbn [nth_error] in Hi.
        -- injection Hi as <-. rewrite text_eqb_refl. lia.
        -- assert (Hx : x <> strip ucd s).
           { intros ->. apply nth_error_In in Hi. apply Hin in Hi.
             apply (proj2 Hi). apply in_or_app. right. now left. }
           rewrite (text_eqb_neq Hx). apply -> Nat.succ_lt_mono.
           apply (Hord i j x y); [lia|exact Hi|exact Hj].
Qed.

(** C5: [clean_text] returns, trimmed, the single-space join of a list of
    sentences in which every sentence that Punkt finds (compared after
    trimming, character by character) occurs exactly once, in the order of
    the first occurrences. *)
Theorem C5_duplicate_sentences_once :
  forall (ucd : char -> uclass) (punkt_spans : string -> text -> list (nat * nat))
         (t : text) (lang : string),
    exists kept : list text,
      clean_text ucd punkt_spans t lang = strip ucd (join [char_space] kept) /\
      exclude_duplicate_sentences ucd punkt_spans (clean_regex ucd t) lang
        = join [char_space] kept /\
      NoDup kept /\
      (forall x, In x kept <->
                 In x (map (strip ucd) (get_sentences punkt_spans (clean_regex ucd t) lang))) /\
      (forall i j x y, i < j -> nth_error kept i = Some x -> nth_error kept j = Some y ->
         first_index x (map (strip ucd) (get_sentences punkt_spans (clean_regex ucd t) lang))
         < first_index y (map (strip ucd) (get_sentences punkt_spans (clean_regex ucd t) lang))).
Proof.
  intros ucd punkt_spans t lang.
  destruct (@dedup_loop_spec ucd (get_sentences punkt_spans (clean_regex ucd t) lang) []
              (NoDup_nil _)) as (kept & He & Hnd & Hin & Hord).
  cbn [app] in He, Hnd.
  exists kept. unfold clean_text, exclude_duplicate_sentences. rewrite He.
  split; [reflexivity|]. split; [reflexivity|]. split; [exact Hnd|]. split; [|exact Hord].
  intros x. rewrite Hin. cbn [In]. tauto.
Qed.

(** ** The regular expressions of [clean_text] *)

Section Matching.

Variable ucd : char -> uclass.

Local Notation ns := (non_space ucd).

(** Whitespace is not a word character. *)
Lemma space_not_word (c : char) : is_space ucd c = true -> is_word ucd c = false.
Proof.
  unfold is_space, is_word. destruct (classify ucd c); cbn; congruence.
Qed.

Lemma non_space_iff (c : char) : ns c = true <-> is_space ucd c = false.
Proof. unfold non_space. apply negb_true_iff. Qed.

Lemma non_space_false (c : char) : ns c = false <-> is_space ucd c = true.
Proof. unfold non_space. apply negb_false_iff. Qed.

(** *** Greedy repetition up to a word boundary *)

Section Boundary.

Variable k : option char -> text -> nat -> option nat.
Hypothesis k_boundary :
  forall prev s n, k prev s n = if boundary ucd prev s then Some n else None.

Lemma star_boundary_none (s : text) : forall prev n,
  word_opt ucd prev = false -> word_in_run ucd s = false ->
  star ns prev s n k = None.
Proof.
  induction s as [|c s IH]; intros prev n Hp Hw; cbn [star].
  - rewrite k_boundary. unfold boundary. rewrite Hp. reflexivity.
  - cbn [word_in_run] in Hw.
    destruct (ns c) eqn:Hn;
      [apply non_space_iff in Hn as Hc|apply non_space_false in Hn as Hc]; rewrite Hc in Hw.
    2:{ rewrite k_boundary. unfold boundary. cbn [hd_error word_opt].
      rewrite Hp, (space_not_word _ Hc). reflexivity. }
    1:{ apply orb_false_iff in Hw as [Hcw Hw].
      rewrite (IH (Some c) (S n) Hcw Hw).
      rewrite k_boundary. unfold boundary. cbn [hd_error word_opt].
      rewrite Hp, Hcw. reflexivity. }
Qed.


Lemma star_boundary_none_inv (s : text) : forall prev n,
  star ns prev s n k = None ->
  word_opt ucd prev = false /\ word_in_run ucd s = false.
Proof.
  induction s as [|c s IH]; intros prev n; cbn [star word_in_run].
  - rewrite k_boundary. unfold boundary. cbn [hd_error word_opt].
    destruct (word_opt ucd prev); cbn; [discriminate|auto].
  - destruct (ns c) eqn:Hn;
      [apply non_space_iff in Hn as Hc|apply non_space_false in Hn as Hc]; rewrite Hc.
    2:{ rewrite k_boundary. unfold boundary. cbn [hd_error word_opt].
      rewrite (space_not_word _ Hc).
      destruct (word_opt ucd prev); cbn; [discriminate|auto]. }
    1:{ destruct (star ns (Some c) s (S n) k) as [m|] eqn:E; [discriminate|].
      apply IH in E as [Hcw Hw]. cbn [word_opt] in Hcw.
      rewrite k_boundary. unfold boundary. cbn [hd_error word_opt]. rewrite Hcw.
      destruct (word_opt ucd prev); cbn; [discriminate|].
      intros _. rewrite Hw. auto. }
Qed.

(** A match stops where no word character is left in the run. *)
Lemma star_boundary_some (s : text) : forall prev n m,
  star ns prev s n k = Some m ->
  exists j, m = n + j /\ forallb ns (firstn j s) = true /\
            word_in_run ucd (skipn j s) = false.
Proof.
  induction s as [|c s IH]; intros prev n m; cbn [star].
  - rewrite k_boundary. destruct (boundary ucd prev []); [|discriminate].
    intros H; injection H as <-. exists 0. repeat split. lia.
  - destruct (ns c) eqn:Hn;
      [apply non_space_iff in Hn as Hc|apply non_space_false in Hn as Hc].
    2:{ rewrite k_boundary. destruct (boundary ucd prev (c :: s)); [|discriminate].
      intros H; injection H as <-. exists 0. split; [lia|]. split; [reflexivity|].
      cbn [skipn word_in_run]. rewrite Hc. reflexivity. }
    1:{ destruct (star ns (Some c) s (S n) k) as [m'|] eqn:E.
      * intros H; injection H as <-.
        apply IH in E as (j & -> & Hns & Hw).
        exists (S j). split; [lia|]. cbn [firstn forallb skipn].
        rewrite Hn. cbn [andb]. auto.
      * apply star_boundary_none_inv in E as [Hcw Hw]. cbn [word_opt] in Hcw.
        rewrite k_boundary. destruct (boundary ucd prev (c :: s)); [|discriminate].
        intros H; injection H as <-. exists 0. split; [lia|]. split; [reflexivity|].
        cbn [skipn word_in_run]. rewrite Hc, Hcw, Hw. reflexivity. }
Qed.

End Boundary.

(** *** [#\S+\b] and [@\S+\b] *)

Definition re_tag (tag : char) : regex := Cat (Chr tag) (Cat (Plus ns) Bnd).

Lemma re_hashtag_tag : re_hashtag ucd = re_tag char_hash.
Proof. reflexivity. Qed.

Lemma re_mention_tag : re_mention ucd = re_tag char_at.
Proof. reflexivity. Qed.

Lemma match_tag_unfold (tag : char) (prev : option char) (s : text) :
  match_at ucd (re_tag tag) prev s =
  match s with
  | c :: x :: s' =>
      if (c =? tag)%N then
        if ns x then
          star ns (Some x) s' 2
            (fun p r n => if boundary ucd p r then Some n else None)
        else None
      else None
  | _ => None
  end.
Proof.
  unfold match_at, re_tag. cbn [rmatch].
  destruct s as [|c [|x s']]; [reflexivity| |].
  - destruct (c =? tag)%N; reflexivity.
  - destruct (c =? tag)%N; [|reflexivity]. destruct (ns x); reflexivity.
Qed.

Lemma match_tag_other (tag : char) prev c s :
  (c =? tag)%N = false -> match_at ucd (re_tag tag) prev (c :: s) = None.
Proof.
  intros H. rewrite match_tag_unfold. destruct s; [reflexivity|]. rewrite H. reflexivity.
Qed.

Lemma match_tag_no_word (tag : char) prev c s :
  word_in_run ucd s = false -> match_at ucd (re_tag tag) prev (c :: s) = None.
Proof.
  intros Hw. rewrite match_tag_unfold. destruct s as [|x s']; [reflexivity|].
  destruct (c =? tag)%N; [|reflexivity].
  cbn [word_in_run] in Hw. destruct (ns x) eqn:Hn; [|reflexivity].
  apply non_space_iff in Hn. rewrite Hn in Hw. apply orb_false_iff in Hw as [Hx Hw].
  apply star_boundary_none; [reflexivity|exact Hx|exact Hw].
Qed.

Lemma match_tag_none (tag : char) prev s :
  match_at ucd (re_tag tag) prev (tag :: s) = None -> word_in_run ucd s = false.
Proof.
  rewrite match_tag_unfold. destruct s as [|x s']; [reflexivity|].
  rewrite N.eqb_refl. cbn [word_in_run].
  destruct (ns x) eqn:Hn;
    [apply non_space_iff in Hn as Hc|apply non_space_false in Hn as Hc]; rewrite Hc;
    [|reflexivity].
  intros H.
  apply star_boundary_none_inv in H as [Hx Hw]; [|reflexivity].
  cbn [word_opt] in Hx. rewrite Hx, Hw. reflexivity.
Qed.

Lemma match_tag_some (tag : char) prev s m :
  match_at ucd (re_tag tag) prev s = Some m ->
  exists c rest j,
    s = c :: rest /\ (c =? tag)%N = true /\ m = S (S j) /\
    forallb ns (firstn (S j) rest) = true /\
    word_in_run ucd (skipn (S j) rest) = false.
Proof.
  rewrite match_tag_unfold. destruct s as [|c [|x s']]; try discriminate.
  destruct (c =? tag)%N eqn:Hc; [|discriminate].
  destruct (ns x) eqn:Hx; [|discriminate]. intros H.
  apply star_boundary_some in H as (j & -> & Hns & Hw); [|reflexivity].
  exists c, (x :: s'), j. split; [reflexivity|]. split; [exact Hc|].
  split; [reflexivity|]. cbn [firstn forallb skipn]. rewrite Hx. auto.
Qed.

(** Once the tags are removed, no tag is left before a word character. *)
Lemma sub_tag_word (tag : char) (s : text) : forall prev,
  is_space ucd tag = false ->
  word_in_run ucd s = false ->
  word_in_run ucd (sub_from ucd (re_tag tag) [] prev s 0) = false.
Proof.
  induction s as [|c s IH]; intros prev Htag Hw; [reflexivity|].
  cbn [sub_from]. cbn [word_in_run] in Hw.
  destruct (is_space ucd c) eqn:Hc.
  - rewrite match_tag_other.
    + cbn [word_in_run]. rewrite Hc. reflexivity.
    + apply N.eqb_neq. intros ->. congruence.
  - apply orb_false_iff in Hw as [Hcw Hw].
    rewrite match_tag_no_word by exact Hw.
    cbn [word_in_run]. rewrite Hc, Hcw, (IH (Some c) Htag Hw). reflexivity.
Qed.

Lemma sub_tag_clean (tag : char) (s : text) : forall prev skip,
  is_space ucd tag = false ->
  clean_tag ucd tag (sub_from ucd (re_tag tag) [] prev s skip) = true.
Proof.
  induction s as [|c s IH]; intros prev skip Htag; [reflexivity|].
  cbn [sub_from]. destruct skip as [|j]; [|apply IH; exact Htag].
  destruct (match_at ucd (re_tag tag) prev (c :: s)) as [[|j]|] eqn:E.
  - apply match_tag_some in E as (? & ? & ? & _ & _ & H & _). discriminate H.
  - cbn [app]. apply IH. exact Htag.
  - cbn [clean_tag]. rewrite (IH (Some c) 0 Htag), andb_true_r.
    destruct (c =? tag)%N eqn:Hc; [|reflexivity].
    apply N.eqb_eq in Hc. subst c.
    apply match_tag_none in E. rewrite sub_tag_word by assumption. reflexivity.
Qed.

End Matching.

Section Preservation.

Variable ucd : char -> uclass.

Local Notation ns := (non_space ucd).

(** *** Greedy repetition with nothing after it *)

Lemma star_all (p : char -> bool) (k : option char -> text -> nat -> option nat) (s : text) :
  (forall prev r n, k prev r n = Some n) ->
  forall prev n, star p prev s n k = Some (n + run_len p s).
Proof.
  intros Hk. induction s as [|c s IH]; intros prev n; cbn [star run_len].
  - rewrite Hk. f_equal. lia.
  - destruct (p c).
    + rewrite IH. f_equal. lia.
    + rewrite Hk. f_equal. lia.
Qed.

Lemma run_len_forallb (p : char -> bool) (s : text) :
  forallb p (firstn (run_len p s) s) = true.
Proof.
  induction s as [|c s IH]; [reflexivity|]. cbn [run_len].
  destruct (p c) eqn:E; [|reflexivity]. cbn [firstn forallb]. rewrite E, IH. reflexivity.
Qed.

Lemma run_len_zero_blank (s : text) : run_len ns s = 0 -> starts_blank ucd s = true.
Proof.
  destruct s as [|c s]; [reflexivity|]. cbn [run_len starts_blank].
  destruct (ns c) eqn:E; [discriminate|]. intros _. now apply non_space_false in E.
Qed.

(** *** [https?\S+] *)

Lemma ns_h : ns 104%N = true. Proof. reflexivity. Qed.
Lemma ns_t : ns 116%N = true. Proof. reflexivity. Qed.
Lemma ns_p : ns 112%N = true. Proof. reflexivity. Qed.
Lemma ns_s : ns 115%N = true. Proof. reflexivity. Qed.

(** The URL pattern matches exactly where "http" and one more non-whitespace
    character stand, and then up to the next whitespace. *)
Lemma match_url (prev : option char) (s : text) :
  match_at ucd (re_url ucd) prev s =
  if url_here ucd s then Some (run_len ns s) else None.
Proof.
  unfold match_at, re_url.
  change (lit (str "http"))
    with (Cat (Chr 104%N) (Cat (Chr 116%N) (Cat (Chr 116%N) (Cat (Chr 112%N) Eps)))).
  cbn [rmatch].
  destruct s as [|a [|b [|c [|d [|x s]]]]]; cbn [url_here].
  - reflexivity.
  - destruct (a =? 104)%N; reflexivity.
  - destruct (a =? 104)%N; [|reflexivity]. destruct (b =? 116)%N; reflexivity.
  - destruct (a =? 104)%N; [|reflexivity]. destruct (b =? 116)%N; [|reflexivity].
    destruct (c =? 116)%N; reflexivity.
  - destruct (a =? 104)%N; [|reflexivity]. destruct (b =? 116)%N; [|reflexivity].
    destruct (c =? 116)%N; [|reflexivity]. destruct (d =? 112)%N; reflexivity.
  - destruct (a =? 104)%N eqn:Ha; [|reflexivity].
    destruct (b =? 116)%N eqn:Hb; [|reflexivity].
    destruct (c =? 116)%N eqn:Hc; [|reflexivity].
    destruct (d =? 112)%N eqn:Hd; [|reflexivity].
    apply N.eqb_eq in Ha, Hb, Hc, Hd. subst a b c d.
    cbn [andb run_len]. rewrite ns_h, ns_t, ns_p.
    destruct (x =? 115)%N eqn:Hx.
    + apply N.eqb_eq in Hx. subst x. rewrite ns_s.
      destruct s as [|y s].
      * cbn [star run_len]. reflexivity.
      * destruct (ns y) eqn:Hy.
        -- rewrite star_all by reflexivity. cbn [run_len]. rewrite Hy. f_equal.
        -- rewrite star_all by reflexivity. cbn [run_len]. rewrite Hy. reflexivity.
    + destruct (ns x) eqn:Hnx; [|reflexivity].
      rewrite star_all by reflexivity. reflexivity.
Qed.

Lemma match_url_non_space (prev : option char) (s : text) (m : nat) :
  match_at ucd (re_url ucd) prev s = Some m -> forallb ns (firstn m s) = true.
Proof.
  rewrite match_url. destruct (url_here ucd s); [|discriminate].
  intros H; injection H as <-. apply run_len_forallb.
Qed.

Lemma match_tag_non_space (tag : char) (prev : option char) (s : text) (m : nat) :
  is_space ucd tag = false ->
  match_at ucd (re_tag ucd tag) prev s = Some m -> forallb ns (firstn m s) = true.
Proof.
  intros Htag H. apply match_tag_some in H as (c & rest & j & -> & Hc & -> & Hns & _).
  apply N.eqb_eq in Hc. subst c.
  change (firstn (S (S j)) (tag :: rest)) with (tag :: firstn (S j) rest).
  cbn [forallb]. rewrite Hns. apply non_space_iff in Htag. rewrite Htag. reflexivity.
Qed.

(** *** Deleting characters that are not whitespace *)

Lemma del_word (s t : text) :
  del_ns ucd s t -> word_in_run ucd s = false -> word_in_run ucd t = false.
Proof.
  induction 1 as [|c s t _ IH|c s t Hc _ IH]; cbn [word_in_run]; [auto| |].
  - destruct (is_space ucd c); [auto|]. intros H. apply orb_false_iff in H as [H1 H2].
    rewrite H1, (IH H2). reflexivity.
  - apply non_space_iff in Hc. rewrite Hc. intros H. apply orb_false_iff in H as [_ H2].
    exact (IH H2).
Qed.

Lemma del_clean (tag : char) (s t : text) :
  del_ns ucd s t -> clean_tag ucd tag s = true -> clean_tag ucd tag t = true.
Proof.
  induction 1 as [|c s t Hd IH|c s t Hc _ IH]; cbn [clean_tag]; [auto| |].
  - intros H. apply andb_true_iff in H as [H1 H2]. rewrite (IH H2), andb_true_r.
    destruct (c =? tag)%N; [|reflexivity].
    apply negb_true_iff in H1. rewrite (del_word Hd H1). reflexivity.
  - intros H. apply andb_true_iff in H as [_ H2]. exact (IH H2).
Qed.

Lemma sub_del_ns (r : regex) :
  (forall prev s m, match_at ucd r prev s = Some m -> forallb ns (firstn m s) = true) ->
  forall s prev skip,
    forallb ns (firstn skip s) = true ->
    del_ns ucd s (sub_from ucd r [] prev s skip).
Proof.
  intros Hr. induction s as [|c s IH]; intros prev skip Hskip; cbn [sub_from].
  - constructor.
  - destruct skip as [|j].
    + destruct (match_at ucd r prev (c :: s)) as [[|j]|] eqn:E.
      * apply del_keep. apply IH. reflexivity.
      * apply Hr in E. cbn [firstn forallb] in E. apply andb_true_iff in E as [Hc Hj].
        cbn [app]. apply del_drop; [exact Hc|]. apply IH. exact Hj.
      * apply del_keep. apply IH. reflexivity.
    + cbn [firstn forallb] in Hskip. apply andb_true_iff in Hskip as [Hc Hj].
      apply del_drop; [exact Hc|]. apply IH. exact Hj.
Qed.

End Preservation.
Section Urls.

Variable ucd : char -> uclass.

Local Notation ns := (non_space ucd).

Lemma url_here_inv (s : text) :
  url_here ucd s = true ->
  exists x rest, s = 104%N :: 116%N :: 116%N :: 112%N :: x :: rest /\ ns x = true.
Proof.
  destruct s as [|a [|b [|c [|d [|x rest]]]]]; cbn [url_here]; try discriminate.
  intros H. repeat (apply andb_true_iff in H as [H ?]).
  apply N.eqb_eq in H. repeat match goal with E : (_ =? _)%N = true |- _ => apply N.eqb_eq in E end.
  subst. exists x, rest. split; [reflexivity|assumption].
Qed.

Lemma url_here_blank (s : text) : starts_blank ucd s = true -> url_here ucd s = false.
Proof.
  intros Hb. destruct (url_here ucd s) eqn:E; [|reflexivity].
  apply url_here_inv in E as (x & rest & -> & _). cbn [starts_blank] in Hb.
  pose proof (ns_h ucd) as H. apply non_space_iff in H. congruence.
Qed.

(** A rewriting of the text that, position by position, either keeps the
    character it reads or leaves whitespace (or nothing) in its place. *)
Definition head_agree (f : option char -> text -> text) : Prop :=
  forall prev s,
    starts_blank ucd (f prev s) = true \/
    exists c s', s = c :: s' /\ f prev s = c :: f (Some c) s'.

(** Such a rewriting brings no URL into being. *)
Lemma url_here_agree (f : option char -> text -> text) :
  head_agree f ->
  forall prev s, url_here ucd (f prev s) = true -> url_here ucd s = true.
Proof.
  intros Hf prev s H.
  apply url_here_inv in H as (x & rest & E & Hx).
  assert (Hstep : forall p r c o, f p r = c :: o -> ns c = true ->
                    exists r', r = c :: r' /\ f (Some c) r' = o).
  { intros p r c o Eo Hc. destruct (Hf p r) as [Hb|(c' & r' & -> & E')].
    - rewrite Eo in Hb. cbn [starts_blank] in Hb. apply non_space_iff in Hc. congruence.
    - rewrite Eo in E'. injection E' as <- ->. exists r'. split; reflexivity. }
  apply Hstep in E as (s1 & -> & E); [|apply ns_h].
  apply Hstep in E as (s2 & -> & E); [|apply ns_t].
  apply Hstep in E as (s3 & -> & E); [|apply ns_t].
  apply Hstep in E as (s4 & -> & E); [|apply ns_p].
  apply Hstep in E as (s5 & -> & E); [|exact Hx].
  cbn [url_here]. rewrite !N.eqb_refl, Hx. reflexivity.
Qed.

(** *** Removing the URLs *)

Lemma sub_url_blank (s : text) : forall prev,
  starts_blank ucd (sub_from ucd (re_url ucd) [] prev s (run_len ns s)) = true.
Proof.
  induction s as [|c s IH]; intros prev; [reflexivity|].
  cbn [run_len]. destruct (ns c) eqn:Hc.
  - cbn [sub_from]. apply IH.
  - cbn [sub_from]. rewrite match_url.
    rewrite url_here_blank; [|cbn [starts_blank]; now apply non_space_false].
    cbn [starts_blank]. now apply non_space_false.
Qed.

Lemma sub_url_agree : head_agree (fun prev s => sub_from ucd (re_url ucd) [] prev s 0).
Proof.
  intros prev [|c s]; [left; reflexivity|].
  cbn [sub_from]. rewrite match_url.
  destruct (url_here ucd (c :: s)) eqn:Hu.
  - left. apply url_here_inv in Hu as (x & rest & E & Hx). injection E as -> ->.
    cbn [run_len]. rewrite ns_h. cbn [app].
    exact (sub_url_blank (116%N :: 116%N :: 112%N :: x :: rest) (Some 104%N)).
  - right. exists c, s. split; reflexivity.
Qed.

Lemma sub_url_no_url (s : text) : forall prev skip,
  skip = 0 \/ skip = run_len ns s ->
  no_url ucd (sub_from ucd (re_url ucd) [] prev s skip) = true.
Proof.
  induction s as [|c s IH]; intros prev skip Hskip; [reflexivity|].
  destruct skip as [|j].
  - destruct (url_here ucd (c :: s)) eqn:Hu.
    + cbn [sub_from]. rewrite match_url, Hu.
      apply url_here_inv in Hu as (x & rest & E & Hx). injection E as -> ->.
      cbn [run_len]. rewrite ns_h. cbn [app]. apply IH. right. reflexivity.
    + assert (Ef : sub_from ucd (re_url ucd) [] prev (c :: s) 0
                   = c :: sub_from ucd (re_url ucd) [] (Some c) s 0).
      { cbn [sub_from]. rewrite match_url, Hu. reflexivity. }
      rewrite Ef. cbn [no_url]. rewrite (IH (Some c) 0 (or_introl eq_refl)), andb_true_r.
      apply negb_true_iff.
      destruct (url_here ucd (c :: sub_from ucd (re_url ucd) [] (Some c) s 0)) eqn:Hu';
        [|reflexivity].
      rewrite <- Ef in Hu'.
      apply (url_here_agree sub_url_agree prev (c :: s)) in Hu'. congruence.
  - destruct Hskip as [Hskip|Hskip]; [discriminate|].
    cbn [run_len] in Hskip. destruct (ns c); [|discriminate]. injection Hskip as ->.
    cbn [sub_from]. apply IH. right. reflexivity.
Qed.

(** *** Collapsing the whitespace *)

Lemma match_spaces_non_space (prev : option char) (c : char) (s : text) :
  ns c = true -> match_at ucd (re_spaces ucd) prev (c :: s) = None.
Proof.
  intros H. apply non_space_iff in H. unfold match_at, re_spaces. cbn [rmatch].
  rewrite H. reflexivity.
Qed.

Lemma sub_spaces_cases (prev : option char) (c : char) (s : text) :
  (ns c = true /\
   sub_from ucd (re_spaces ucd) [char_space] prev (c :: s) 0
     = c :: sub_from ucd (re_spaces ucd) [char_space] (Some c) s 0) \/
  (is_space ucd c = true /\
   exists b j, is_space ucd b = true /\
     sub_from ucd (re_spaces ucd) [char_space] prev (c :: s) 0
       = b :: sub_from ucd (re_spaces ucd) [char_space] (Some c) s j).
Proof.
  destruct (ns c) eqn:Hc.
  - left. split; [reflexivity|]. cbn [sub_from].
    rewrite match_spaces_non_space by exact Hc. reflexivity.
  - right. apply non_space_false in Hc. split; [exact Hc|]. cbn [sub_from].
    destruct (match_at ucd (re_spaces ucd) prev (c :: s)) as [[|j]|].
    + exists c, 0. split; [exact Hc|reflexivity].
    + exists char_space, j. split; reflexivity.
    + exists c, 0. split; [exact Hc|reflexivity].
Qed.

Lemma sub_spaces_agree :
  head_agree (fun prev s => sub_from ucd (re_spaces ucd) [char_space] prev s 0).
Proof.
  intros prev [|c s]; [left; reflexivity|].
  destruct (sub_spaces_cases prev c s) as [[_ E]|[_ (b & j & Hb & E)]]; rewrite E.
  - right. exists c, s. split; reflexivity.
  - left. exact Hb.
Qed.

Lemma sub_spaces_word (s : text) : forall prev,
  word_in_run ucd s = false ->
  word_in_run ucd (sub_from ucd (re_spaces ucd) [char_space] prev s 0) = false.
Proof.
  induction s as [|c s IH]; intros prev Hw; [reflexivity|].
  destruct (sub_spaces_cases prev c s) as [[Hc E]|[_ (b & j & Hb & E)]]; rewrite E;
    cbn [word_in_run].
  - apply non_space_iff in Hc. cbn [word_in_run] in Hw. rewrite Hc in *.
    apply orb_false_iff in Hw as [H1 H2]. rewrite H1, (IH (Some c) H2). reflexivity.
  - rewrite Hb. reflexivity.
Qed.

Lemma sub_spaces_clean (tag : char) (s : text) : forall prev skip,
  is_space ucd tag = false ->
  clean_tag ucd tag s = true ->
  clean_tag ucd tag (sub_from ucd (re_spaces ucd) [char_space] prev s skip) = true.
Proof.
  induction s as [|c s IH]; intros prev skip Htag H; [reflexivity|].
  cbn [clean_tag] in H. apply andb_true_iff in H as [H1 H2].
  destruct skip as [|j]; [|cbn [sub_from]; apply IH; assumption].
  destruct (sub_spaces_cases prev c s) as [[Hc E]|[_ (b & j & Hb & E)]]; rewrite E;
    cbn [clean_tag].
  - rewrite (IH (Some c) 0 Htag H2), andb_true_r.
    destruct (c =? tag)%N; [|reflexivity].
    apply negb_true_iff in H1. rewrite sub_spaces_word by exact H1. reflexivity.
  - rewrite (IH (Some c) j Htag H2), andb_true_r.
    destruct (b =? tag)%N eqn:Hbt; [|reflexivity].
    apply N.eqb_eq in Hbt. congruence.
Qed.

Lemma sub_spaces_no_url (s : text) : forall prev skip,
  no_url ucd s = true ->
  no_url ucd (sub_from ucd (re_spaces ucd) [char_space] prev s skip) = true.
Proof.
  induction s as [|c s IH]; intros prev skip H; [reflexivity|].
  pose proof H as Hall.
  cbn [no_url] in H. apply andb_true_iff in H as [H1 H2]. apply negb_true_iff in H1.
  destruct skip as [|j]; [|cbn [sub_from]; apply IH; assumption].
  destruct (sub_spaces_cases prev c s) as [[Hc E]|[_ (b & j & Hb & E)]].
  - destruct (url_here ucd (sub_from ucd (re_spaces ucd) [char_space] prev (c :: s) 0))
      eqn:Hu.
    + apply (url_here_agree sub_spaces_agree prev (c :: s)) in Hu. congruence.
    + rewrite E in *. cbn [no_url]. rewrite Hu, (IH (Some c) 0 H2). reflexivity.
  - rewrite E. cbn [no_url]. rewrite (IH (Some c) j H2), andb_true_r.
    apply negb_true_iff. apply url_here_blank. exact Hb.
Qed.

(** The characters of a substitution come from the text or from the
    replacement. *)
Lemma sub_from_In (r : regex) (repl : text) (x : char) (s : text) : forall prev skip,
  In x (sub_from ucd r repl prev s skip) -> In x s \/ In x repl.
Proof.
  induction s as [|c s IH]; intros prev skip; cbn [sub_from]; [intros []|].
  destruct skip as [|j].
  - destruct (match_at ucd r prev (c :: s)) as [[|j]|].
    + intros [<-|H]; [left; now left|]. apply IH in H as [H|H]; [left; now right|now right].
    + intros H. apply in_app_or in H as [H|H]; [now right|].
      apply IH in H as [H|H]; [left; now right|now right].
    + intros [<-|H]; [left; now left|]. apply IH in H as [H|H]; [left; now right|now right].
  - intros H. apply IH in H as [H|H]; [left; now right|now right].
Qed.

End Urls.

(** ** Substrings, trimming and joining *)

Section Pieces.

Variable ucd : char -> uclass.

Local Notation ns := (non_space ucd).

Lemma substring_refl (s : text) : substring s s.
Proof. exists [], []. cbn [app]. now rewrite app_nil_r. Qed.

Lemma substring_trans (x y z : text) : substring x y -> substring y z -> substring x z.
Proof.
  intros (a & b & ->) (c & d & ->). exists (c ++ a), (b ++ d).
  now rewrite <- !app_assoc.
Qed.

Lemma substring_skipn (n : nat) (s : text) : substring (skipn n s) s.
Proof.
  exists (firstn n s), []. rewrite app_nil_r. symmetry. apply firstn_skipn.
Qed.

Lemma substring_firstn (n : nat) (s : text) : substring (firstn n s) s.
Proof. exists [], (skipn n s). cbn [app]. symmetry. apply firstn_skipn. Qed.

Lemma substring_slice (s : text) (a b : nat) : substring (slice s a b) s.
Proof.
  unfold slice. eapply substring_trans; [apply substring_firstn|apply substring_skipn].
Qed.

Lemma lstrip_suffix (s : text) : exists a, s = a ++ lstrip ucd s.
Proof.
  induction s as [|c s [a IH]]; [exists []; reflexivity|]. cbn [lstrip].
  destruct (is_space ucd c).
  - exists (c :: a). cbn [app]. now f_equal.
  - exists []. reflexivity.
Qed.

Lemma substring_lstrip (s : text) : substring (lstrip ucd s) s.
Proof.
  destruct (lstrip_suffix s) as [a E]. exists a, []. now rewrite app_nil_r.
Qed.

Lemma substring_rstrip (s : text) : substring (rstrip ucd s) s.
Proof.
  unfold rstrip. destruct (lstrip_suffix (rev s)) as [a E].
  exists [], (rev a). cbn [app].
  rewrite <- rev_app_distr, <- E. symmetry. apply rev_involutive.
Qed.

Lemma substring_strip (s : text) : substring (strip ucd s) s.
Proof.
  unfold strip. eapply substring_trans; [apply substring_rstrip|apply substring_lstrip].
Qed.

Lemma substring_In (x s : text) (c : char) : substring x s -> In c x -> In c s.
Proof.
  intros (a & b & ->) H. apply in_or_app. right. apply in_or_app. now left.
Qed.

(** *** The invariants on substrings *)

Lemma word_in_run_app (a b : text) :
  word_in_run ucd (a ++ b) = false -> word_in_run ucd a = false.
Proof.
  induction a as [|c a IH]; [reflexivity|]. cbn [app word_in_run].
  destruct (is_space ucd c); [auto|]. intros H. apply orb_false_iff in H as [H1 H2].
  rewrite H1, (IH H2). reflexivity.
Qed.

Lemma clean_tag_app (tag : char) (a b : text) :
  clean_tag ucd tag (a ++ b) = true ->
  clean_tag ucd tag a = true /\ clean_tag ucd tag b = true.
Proof.
  induction a as [|c a IH]; [auto|]. cbn [app clean_tag]. intros H.
  apply andb_true_iff in H as [H1 H2]. destruct (IH H2) as [Ha Hb].
  split; [|exact Hb]. rewrite Ha, andb_true_r.
  destruct (c =? tag)%N; [|reflexivity].
  apply negb_true_iff in H1. rewrite (@word_in_run_app a b H1). reflexivity.
Qed.

Lemma clean_tag_substring (tag : char) (x s : text) :
  substring x s -> clean_tag ucd tag s = true -> clean_tag ucd tag x = true.
Proof.
  intros (a & b & ->) H. apply clean_tag_app in H as [_ H]. now apply clean_tag_app in H.
Qed.

Lemma url_here_app (a b : text) : url_here ucd a = true -> url_here ucd (a ++ b) = true.
Proof.
  intros H. apply url_here_inv in H as (x & rest & -> & Hx).
  cbn [app url_here]. rewrite !N.eqb_refl, Hx. reflexivity.
Qed.

Lemma no_url_app (a b : text) :
  no_url ucd (a ++ b) = true -> no_url ucd a = true /\ no_url ucd b = true.
Proof.
  induction a as [|c a IH]; [auto|]. intros H.
  change ((c :: a) ++ b) with (c :: (a ++ b)) in H. cbn [no_url] in H.
  apply andb_true_iff in H as [H1 H2]. destruct (IH H2) as [Ha Hb].
  split; [|exact Hb]. cbn [no_url]. rewrite Ha, andb_true_r.
  apply negb_true_iff. apply negb_true_iff in H1.
  destruct (url_here ucd (c :: a)) eqn:E; [|reflexivity].
  apply (@url_here_app (c :: a) b) in E. cbn [app] in E. congruence.
Qed.

Lemma no_url_substring (x s : text) :
  substring x s -> no_url ucd s = true -> no_url ucd x = true.
Proof.
  intros (a & b & ->) H. apply no_url_app in H as [_ H]. now apply no_url_app in H.
Qed.

(** *** The invariants on texts joined by a space *)

Lemma word_in_run_glue (a b : text) (sp : char) :
  is_space ucd sp = true -> word_in_run ucd (a ++ sp :: b) = word_in_run ucd a.
Proof.
  intros Hsp. induction a as [|c a IH]; cbn [app word_in_run]; [now rewrite Hsp|].
  now rewrite IH.
Qed.

Lemma clean_tag_glue (tag : char) (a b : text) (sp : char) :
  is_space ucd sp = true -> is_space ucd tag = false ->
  clean_tag ucd tag a = true -> clean_tag ucd tag b = true ->
  clean_tag ucd tag (a ++ sp :: b) = true.
Proof.
  intros Hsp Htag Ha Hb. induction a as [|c a IH]; cbn [app clean_tag].
  - rewrite Hb, andb_true_r. destruct (sp =? tag)%N eqn:E; [|reflexivity].
    apply N.eqb_eq in E. congruence.
  - cbn [clean_tag] in Ha. apply andb_true_iff in Ha as [H1 H2].
    rewrite (IH H2), andb_true_r, word_in_run_glue by exact Hsp. exact H1.
Qed.

Lemma url_here_glue (a b : text) (sp : char) :
  is_space ucd sp = true -> url_here ucd (a ++ sp :: b) = true -> url_here ucd a = true.
Proof.
  intros Hsp H. apply url_here_inv in H as (x & rest & E & Hx).
  assert (Hstep : forall a' c o, a' ++ sp :: b = c :: o -> ns c = true ->
                    exists a'', a' = c :: a'' /\ a'' ++ sp :: b = o).
  { intros [|c' a''] c o Eo Hc; cbn [app] in Eo; injection Eo as -> <-.
    - apply non_space_iff in Hc. congruence.
    - exists a''. split; reflexivity. }
  apply Hstep in E as (a1 & -> & E); [|apply ns_h].
  apply Hstep in E as (a2 & -> & E); [|apply ns_t].
  apply Hstep in E as (a3 & -> & E); [|apply ns_t].
  apply Hstep in E as (a4 & -> & E); [|apply ns_p].
  apply Hstep in E as (a5 & -> & E); [|exact Hx].
  cbn [url_here]. rewrite !N.eqb_refl, Hx. reflexivity.
Qed.

Lemma no_url_glue (a b : text) (sp : char) :
  is_space ucd sp = true ->
  no_url ucd a = true -> no_url ucd b = true -> no_url ucd (a ++ sp :: b) = true.
Proof.
  intros Hsp Ha Hb. induction a as [|c a IH].
  - cbn [app no_url]. rewrite Hb, andb_true_r. apply negb_true_iff.
    apply url_here_blank. exact Hsp.
  - cbn [no_url] in Ha. apply andb_true_iff in Ha as [H1 H2]. apply negb_true_iff in H1.
    change ((c :: a) ++ sp :: b) with (c :: (a ++ sp :: b)). cbn [no_url].
    rewrite (IH H2), andb_true_r. apply negb_true_iff.
    destruct (url_here ucd (c :: a ++ sp :: b)) eqn:E; [|reflexivity].
    apply (@url_here_glue (c :: a) b sp Hsp) in E. congruence.
Qed.

Lemma space_is_space : is_space ucd char_space = true.
Proof. reflexivity. Qed.

Lemma join_invariant (P : text -> bool) (l : list text) :
  P [] = true ->
  (forall a b, P a = true -> P b = true -> P (a ++ char_space :: b) = true) ->
  (forall x, In x l -> P x = true) ->
  P (join [char_space] l) = true.
Proof.
  intros Hnil Hglue. induction l as [|x l IH]; intros Hall; [exact Hnil|].
  destruct l as [|y l]; [apply Hall; now left|].
  change (join [char_space] (x :: y :: l)) with (x ++ char_space :: join [char_space] (y :: l)).
  apply Hglue; [apply Hall; now left|]. apply IH. intros z Hz. apply Hall. now right.
Qed.

Lemma join_In (l : list text) (c : char) :
  In c (join [char_space] l) -> c = char_space \/ exists x, In x l /\ In c x.
Proof.
  induction l as [|x l IH]; [intros []|].
  destruct l as [|y l].
  - intros H. right. exists x. split; [now left|exact H].
  - change (join [char_space] (x :: y :: l))
      with (x ++ char_space :: join [char_space] (y :: l)).
    intros H. apply in_app_or in H as [H|[H|H]].
    + right. exists x. split; [now left|exact H].
    + now left.
    + apply IH in H as [H|(z & Hz & Hc)]; [now left|].
      right. exists z. split; [now right|exact Hc].
Qed.

(** *** From the invariants to the patterns *)

Lemma search_cls (p : char -> bool) (s : text) : forall prev,
  (forall c, In c s -> p c = false) -> search_from ucd (Cls p) prev s = false.
Proof.
  induction s as [|c s IH]; intros prev H; [reflexivity|].
  cbn [search_from]. unfold match_at. cbn [rmatch].
  rewrite (H c (or_introl eq_refl)). apply IH. intros x Hx. apply H. now right.
Qed.

Lemma search_tag (tag : char) (s : text) : forall prev,
  clean_tag ucd tag s = true -> search_from ucd (re_tag ucd tag) prev s = false.
Proof.
  induction s as [|c s IH]; intros prev H; [reflexivity|].
  cbn [clean_tag] in H. apply andb_true_iff in H as [H1 H2].
  cbn [search_from].
  assert (E : match_at ucd (re_tag ucd tag) prev (c :: s) = None).
  { destruct (c =? tag)%N eqn:Hc.
    - apply negb_true_iff in H1. now apply match_tag_no_word.
    - now apply match_tag_other. }
  rewrite E. apply IH. exact H2.
Qed.

Lemma search_url (s : text) : forall prev,
  no_url ucd s = true -> search_from ucd (re_url ucd) prev s = false.
Proof.
  induction s as [|c s IH]; intros prev H; [reflexivity|].
  cbn [no_url] in H. apply andb_true_iff in H as [H1 H2]. apply negb_true_iff in H1.
  cbn [search_from]. rewrite match_url, H1. apply IH. exact H2.
Qed.

(** Removing a class of characters leaves none of them. *)
Lemma sub_cls_none (p : char -> bool) (s : text) : forall prev skip c,
  In c (sub_from ucd (Cls p) [] prev s skip) -> p c = false.
Proof.
  induction s as [|x s IH]; intros prev skip c; cbn [sub_from]; [intros []|].
  destruct skip as [|j]; [|apply IH].
  unfold match_at. cbn [rmatch]. destruct (p x) eqn:Hx.
  - cbn [app]. apply IH.
  - intros [<-|H]; [exact Hx|]. exact (IH _ _ _ H).
Qed.

End Pieces.

(** ** What [clean_text] leaves *)

Section Cleaned.

Variable ucd : char -> uclass.
Variable punkt_spans : string -> text -> list (nat * nat).

Local Notation ns := (non_space ucd).

Lemma hash_not_space : is_space ucd char_hash = false.
Proof. reflexivity. Qed.

Lemma at_not_space : is_space ucd char_at = false.
Proof. reflexivity. Qed.

(** What the five substitutions establish. *)
Lemma clean_regex_invariants (t : text) :
  (forall c, In c (clean_regex ucd t) ->
             (is_ascii_digit c || (c =? char_dquote)%N) = false) /\
  clean_tag ucd char_hash (clean_regex ucd t) = true /\
  clean_tag ucd char_at (clean_regex ucd t) = true /\
  no_url ucd (clean_regex ucd t) = true.
Proof.
  unfold clean_regex. cbv zeta. unfold re_sub.
  set (t1 := sub_from ucd re_digits_quote [] None t 0).
  set (t2 := sub_from ucd (re_hashtag ucd) [] None t1 0).
  set (t3 := sub_from ucd (re_mention ucd) [] None t2 0).
  set (t4 := sub_from ucd (re_url ucd) [] None t3 0).
  assert (D1 : forall c, In c t1 -> (is_ascii_digit c || (c =? char_dquote)%N) = false).
  { intros c. apply (sub_cls_none ucd (fun c => is_ascii_digit c || (c =? char_dquote)%N)). }
  assert (H2 : clean_tag ucd char_hash t2 = true).
  { apply (sub_tag_clean ucd char_hash t1 None 0 hash_not_space). }
  assert (N3 : del_ns ucd t2 t3).
  { apply sub_del_ns; [|reflexivity].
    intros prev s m. apply (@match_tag_non_space ucd char_at prev s m at_not_space). }
  assert (M3 : clean_tag ucd char_at t3 = true).
  { apply (sub_tag_clean ucd char_at t2 None 0 at_not_space). }
  assert (N4 : del_ns ucd t3 t4).
  { apply sub_del_ns; [|reflexivity]. intros prev s m. apply match_url_non_space. }
  assert (U4 : no_url ucd t4 = true).
  { apply sub_url_no_url. now left. }
  split; [|split; [|split]].
  - intros c Hc. apply sub_from_In in Hc as [Hc|[<-|[]]]; [|reflexivity].
    apply sub_from_In in Hc as [Hc|[]]. apply sub_from_In in Hc as [Hc|[]].
    apply sub_from_In in Hc as [Hc|[]]. exact (D1 c Hc).
  - apply sub_spaces_clean; [exact hash_not_space|].
    apply (del_clean char_hash N4). apply (del_clean char_hash N3). exact H2.
  - apply sub_spaces_clean; [exact at_not_space|].
    apply (del_clean char_at N4). exact M3.
  - apply sub_spaces_no_url. exact U4.
Qed.

(** Every sentence kept by the deduplication is a trimmed slice of the text. *)
Lemma kept_sentences_substrings (t : text) (lang : string) (x : text) :
  In x (dedup_loop ucd [] (get_sentences punkt_spans t lang)) -> substring x t.
Proof.
  destruct (@dedup_loop_spec ucd (get_sentences punkt_spans t lang) [] (NoDup_nil _))
    as (kept & He & _ & Hin & _).
  rewrite He. cbn [app]. intros H. apply Hin in H as [H _].
  apply in_map_iff in H as (y & <- & Hy).
  unfold get_sentences, sent_tokenize in Hy. apply in_map_iff in Hy as (se & <- & _).
  eapply substring_trans; [apply substring_strip|apply substring_slice].
Qed.

(** C8 (amended): in the output of [clean_text] none of the four regular
    expressions of the function has a match: there is no ASCII digit and no
    double quote, no [#] or [@] followed by a run of non-whitespace characters
    that ends at a word boundary, and no "http" or "https" followed by a
    non-whitespace character. *)
Theorem C8_clean_text_leaves_no_match :
  forall (t : text) (lang : string),
    re_search ucd re_digits_quote (clean_text ucd punkt_spans t lang) = false /\
    re_search ucd re_digits (clean_text ucd punkt_spans t lang) = false /\
    re_search ucd (re_hashtag ucd) (clean_text ucd punkt_spans t lang) = false /\
    re_search ucd (re_mention ucd) (clean_text ucd punkt_spans t lang) = false /\
    re_search ucd (re_url ucd) (clean_text ucd punkt_spans t lang) = false.
Proof.
  intros t lang.
  destruct (clean_regex_invariants t) as (D & H & M & U).
  unfold clean_text, exclude_duplicate_sentences.
  set (kept := dedup_loop ucd [] (get_sentences punkt_spans (clean_regex ucd t) lang)).
  assert (Hsub : forall x, In x kept -> substring x (clean_regex ucd t)).
  { intros x. apply kept_sentences_substrings. }
  set (joined := join [char_space] kept).
  assert (Dj : forall c, In c joined ->
                         (is_ascii_digit c || (c =? char_dquote)%N) = false).
  { intros c Hc. apply join_In in Hc as [->|(x & Hx & Hc)]; [reflexivity|].
    apply D. exact (@substring_In x _ c (Hsub x Hx) Hc). }
  assert (Hj : clean_tag ucd char_hash joined = true).
  { apply (join_invariant (clean_tag ucd char_hash)); [reflexivity| |].
    - intros a b. apply clean_tag_glue; [apply space_is_space|apply hash_not_space].
    - intros x Hx. exact (@clean_tag_substring ucd char_hash x _ (Hsub x Hx) H). }
  assert (Mj : clean_tag ucd char_at joined = true).
  { apply (join_invariant (clean_tag ucd char_at)); [reflexivity| |].
    - intros a b. apply clean_tag_glue; [apply space_is_space|apply at_not_space].
    - intros x Hx. exact (@clean_tag_substring ucd char_at x _ (Hsub x Hx) M). }
  assert (Uj : no_url ucd joined = true).
  { apply (join_invariant (no_url ucd)); [reflexivity| |].
    - intros a b. apply no_url_glue. apply space_is_space.
    - intros x Hx. exact (@no_url_substring ucd x _ (Hsub x Hx) U). }
  pose proof (substring_strip ucd joined) as Hs.
  unfold re_search. repeat split.
  - apply search_cls. intros c Hc. apply Dj. exact (@substring_In _ _ c Hs Hc).
  - apply search_cls. intros c Hc.
    pose proof (Dj c (@substring_In _ _ c Hs Hc)) as Hd. now apply orb_false_iff in Hd.
  - apply (search_tag ucd char_hash). exact (@clean_tag_substring ucd char_hash _ _ Hs Hj).
  - apply (search_tag ucd char_at). exact (@clean_tag_substring ucd char_at _ _ Hs Mj).
  - apply search_url. exact (@no_url_substring ucd _ _ Hs Uj).
Qed.

End Cleaned.

(** A [#] or an [@] followed only by characters that are not word characters
    survives the cleaning: "#!" and "@?" come back unchanged, and each is a
    [#] or an [@] followed by a run of non-whitespace characters. *)
Lemma C8_counterexample_tag_survives :
  clean_text ucd_other punkt_whole (str "#!") "en" = str "#!" /\
  re_search ucd_other (spec_hashtag_pattern ucd_other)
    (clean_text ucd_other punkt_whole (str "#!") "en") = true /\
  clean_text ucd_other punkt_whole (str "@?") "en" = str "@?" /\
  re_search ucd_other (spec_mention_pattern ucd_other)
    (clean_text ucd_other punkt_whole (str "@?") "en") = true.
Proof. repeat split; vm_compute; reflexivity. Qed.

(** * Further properties *)

(** ** Sentence splitting *)

(** X1: [get_sentences] splits Italian, French, Spanish and Turkish text
    with the Punkt model that [LANGS] names for the language ([italian],
    [french], [spanish], [turkish]), and text of every other language code
    with the English model: [en], [ru] and [pt], which [LANGS] maps to
    [english], and the codes [LANGS] does not have. *)
Theorem X1_get_sentences_language_fallback :
  forall (punkt_spans : string -> text -> list (nat * nat)) (t : text),
    get_sentences punkt_spans t "it" = sent_tokenize punkt_spans t "italian" /\
    get_sentences punkt_spans t "fr" = sent_tokenize punkt_spans t "french" /\
    get_sentences punkt_spans t "es" = sent_tokenize punkt_spans t "spanish" /\
    get_sentences punkt_spans t "tr" = sent_tokenize punkt_spans t "turkish" /\
    (forall lang : string,
       lang <> "it"%string -> lang <> "fr"%string -> lang <> "es"%string ->
       lang <> "tr"%string ->
       get_sentences punkt_spans t lang = sent_tokenize punkt_spans t "english").
Proof.
  intros punkt_spans t. repeat (split; [reflexivity|]).
  intros lang Hit Hfr Hes Htr. unfold get_sentences. f_equal.
  unfold LANGS. cbn [dict_get].
  destruct (String.eqb_spec "en" lang); [reflexivity|].
  destruct (String.eqb_spec "it" lang); [congruence|].
  destruct (String.eqb_spec "fr" lang); [congruence|].
  destruct (String.eqb_spec "es" lang); [congruence|].
  destruct (String.eqb_spec "tr" lang); [congruence|].
  destruct (String.eqb_spec "ru" lang); [reflexivity|].
  destruct (String.eqb_spec "pt" lang); reflexivity.
Qed.

(** With the Turkish model only, Turkish text is split as that model splits
    it, and German text goes to the English model, which finds nothing. *)
Lemma X1_witness :
  get_sentences punkt_turkish_only (str "Merhaba. Nerede?") "tr"
    = sent_tokenize punkt_stops (str "Merhaba. Nerede?") "turkish" /\
  get_sentences punkt_turkish_only (str "Merhaba. Nerede?") "tr" <> [] /\
  get_sentences punkt_turkish_only (str "Guten Tag. Danke.") "de" = [].
Proof.
  destruct (X1_get_sentences_language_fallback punkt_turkish_only (str "Merhaba. Nerede?"))
    as (_ & _ & _ & Htr & _).
  destruct (X1_get_sentences_language_fallback punkt_turkish_only (str "Guten Tag. Danke."))
    as (_ & _ & _ & _ & Hother).
  split; [rewrite Htr; reflexivity|]. split.
  - rewrite Htr. vm_compute. discriminate.
  - rewrite (Hother "de"%string) by discriminate. reflexivity.
Defined.

(** ** The text transforms *)

Section Transforms.

Variable ucd : char -> uclass.

Local Notation ns := (non_space ucd).

Lemma collapse_In (t : text) (c : char) :
  In c (collapse_spaces ucd t) -> In c t \/ c = char_space.
Proof.
  unfold collapse_spaces, re_sub. intros H.
  apply sub_from_In in H as [H|[H|[]]]; [now left|now right].
Qed.

(** X2: the text that [ExcludeNumbersTransform.apply] returns holds no ASCII
    digit, and its language is the one it was given. *)
Theorem X2_exclude_numbers_leaves_no_digit :
  forall data : text * string,
    re_search ucd re_digits (fst (ExcludeNumbers_apply ucd data)) = false /\
    snd (ExcludeNumbers_apply ucd data) = snd data.
Proof.
  intros data. split; [|reflexivity].
  unfold ExcludeNumbers_apply. cbn [fst]. unfold re_search. apply search_cls.
  intros c Hc. apply collapse_In in Hc as [Hc | ->]; [|reflexivity].
  unfold re_sub in Hc. exact (sub_cls_none ucd is_ascii_digit _ _ _ _ Hc).
Qed.

(** X3: in the text that [ExcludeHashtagsTransform.apply] returns, the hashtag
    pattern has no match. *)
Theorem X3_exclude_hashtags_leaves_no_match :
  forall data : text * string,
    re_search ucd (re_hashtag ucd) (fst (ExcludeHashtags_apply ucd data)) = false /\
    snd (ExcludeHashtags_apply ucd data) = snd data.
Proof.
  intros data. split; [|reflexivity].
  unfold ExcludeHashtags_apply. cbn [fst]. unfold re_search.
  apply (search_tag ucd char_hash). unfold collapse_spaces, re_sub.
  apply sub_spaces_clean; [apply hash_not_space|].
  apply (sub_tag_clean ucd char_hash). apply hash_not_space.
Qed.

(** X4: in the text that [ExcludeUsersMentionedTransform.apply] returns, the
    mention pattern has no match. *)
Theorem X4_exclude_mentions_leaves_no_match :
  forall data : text * string,
    re_search ucd (re_mention ucd) (fst (ExcludeUsersMentioned_apply ucd data)) = false /\
    snd (ExcludeUsersMentioned_apply ucd data) = snd data.
Proof.
  intros data. split; [|reflexivity].
  unfold ExcludeUsersMentioned_apply. cbn [fst]. unfold re_search.
  apply (search_tag ucd char_at). unfold collapse_spaces, re_sub.
  apply sub_spaces_clean; [apply at_not_space|].
  apply (sub_tag_clean ucd char_at). apply at_not_space.
Qed.

(** X5: in the text that [ExcludeUrlsTransform.apply] returns, the URL pattern
    has no match. *)
Theorem X5_exclude_urls_leaves_no_match :
  forall data : text * string,
    re_search ucd (re_url ucd) (fst (ExcludeUrls_apply ucd data)) = false /\
    snd (ExcludeUrls_apply ucd data) = snd data.
Proof.
  intros data. split; [|reflexivity].
  unfold ExcludeUrls_apply. cbn [fst]. unfold re_search.
  apply search_url. unfold collapse_spaces, re_sub.
  apply sub_spaces_no_url. apply sub_url_no_url. now left.
Qed.

(** *** Whitespace after [re.sub(r'\s+', ' ', text)] *)

Lemma match_spaces_space (prev : option char) (c : char) (s : text) :
  is_space ucd c = true ->
  match_at ucd (re_spaces ucd) prev (c :: s) = Some (S (run_len (is_space ucd) s)).
Proof.
  intros H. unfold match_at, re_spaces. cbn [rmatch]. rewrite H.
  rewrite star_all by reflexivity. reflexivity.
Qed.

Lemma skip_spaces_head (s : text) : forall prev,
  head_space ucd
    (sub_from ucd (re_spaces ucd) [char_space] prev s (run_len (is_space ucd) s)) = false.
Proof.
  induction s as [|c s IH]; intros prev; [reflexivity|].
  cbn [run_len]. destruct (is_space ucd c) eqn:Hc; cbn [sub_from].
  - apply IH.
  - rewrite match_spaces_non_space by now apply non_space_iff.
    cbn [head_space]. exact Hc.
Qed.

Lemma collapse_single (s : text) : forall prev skip,
  skip = 0 \/ skip = run_len (is_space ucd) s ->
  single_spaced ucd (sub_from ucd (re_spaces ucd) [char_space] prev s skip) = true.
Proof.
  induction s as [|c s IH]; intros prev skip Hskip; [reflexivity|].
  destruct skip as [|j].
  - cbn [sub_from]. destruct (is_space ucd c) eqn:Hc.
    + rewrite match_spaces_space by exact Hc. cbn [app single_spaced].
      rewrite (space_is_space ucd), N.eqb_refl, skip_spaces_head.
      cbn [negb andb]. apply IH. now right.
    + rewrite match_spaces_non_space by now apply non_space_iff.
      cbn [single_spaced]. rewrite Hc. cbn [andb]. apply IH. now left.
  - destruct Hskip as [Hskip|Hskip]; [discriminate|].
    cbn [run_len] in Hskip. destruct (is_space ucd c); [|discriminate].
    injection Hskip as ->. cbn [sub_from]. apply IH. now right.
Qed.

Lemma collapse_keeps_non_space (s : text) : forall prev skip,
  skip = 0 \/ skip = run_len (is_space ucd) s ->
  filter ns (sub_from ucd (re_spaces ucd) [char_space] prev s skip) = filter ns s.
Proof.
  induction s as [|c s IH]; intros prev skip Hskip; [reflexivity|].
  destruct skip as [|j].
  - cbn [sub_from]. destruct (is_space ucd c) eqn:Hc.
    + rewrite match_spaces_space by exact Hc. cbn [app filter].
      assert (Hn : ns c = false) by now apply non_space_false.
      assert (Hs : ns char_space = false) by reflexivity.
      rewrite Hs, Hn. apply IH. now right.
    + rewrite match_spaces_non_space by now apply non_space_iff.
      cbn [filter]. rewrite (IH (Some c) 0) by now left. reflexivity.
  - destruct Hskip as [Hskip|Hskip]; [discriminate|].
    cbn [run_len] in Hskip. destruct (is_space ucd c) eqn:Hc; [|discriminate].
    injection Hskip as ->. cbn [sub_from filter].
    assert (Hn : ns c = false) by now apply non_space_false.
    rewrite Hn. apply IH. now right.
Qed.

(** X6: replacing the runs of whitespace by a space, as every transform and
    [clean_text] do, leaves plain spaces only, never two in a row, and keeps
    the other characters as they are, in their order. *)
Theorem X6_collapse_spaces_normalises_whitespace :
  forall t : text,
    single_spaced ucd (collapse_spaces ucd t) = true /\
    filter ns (collapse_spaces ucd t) = filter ns t.
Proof.
  intros t. unfold collapse_spaces, re_sub. split.
  - apply collapse_single. now left.
  - apply collapse_keeps_non_space. now left.
Qed.

(** *** Trimming *)

Lemma lstrip_head (s : text) : head_space ucd (lstrip ucd s) = false.
Proof.
  induction s as [|c s IH]; [reflexivity|]. cbn [lstrip].
  destruct (is_space ucd c) eqn:Hc; [exact IH|]. cbn [head_space]. exact Hc.
Qed.

Lemma lstrip_fixed (s : text) : head_space ucd s = false -> lstrip ucd s = s.
Proof.
  destruct s as [|c s]; [reflexivity|]. cbn [head_space lstrip]. now intros ->.
Qed.

Lemma lstrip_app_non_space (a : text) (c : char) :
  is_space ucd c = false -> lstrip ucd (a ++ [c]) = lstrip ucd a ++ [c].
Proof.
  intros Hc. induction a as [|x a IH]; cbn [app lstrip]; [now rewrite Hc|].
  destruct (is_space ucd x); [exact IH|reflexivity].
Qed.

Lemma rstrip_cons_non_space (c : char) (s : text) :
  is_space ucd c = false -> rstrip ucd (c :: s) = c :: rstrip ucd s.
Proof.
  intros Hc. unfold rstrip. cbn [rev].
  rewrite lstrip_app_non_space by exact Hc. rewrite rev_app_distr. reflexivity.
Qed.

Lemma rstrip_head (s : text) : head_space ucd s = false -> head_space ucd (rstrip ucd s) = false.
Proof.
  destruct s as [|c s]; [reflexivity|]. cbn [head_space]. intros Hc.
  rewrite rstrip_cons_non_space by exact Hc. exact Hc.
Qed.

Lemma rstrip_last (s : text) : head_space ucd (rev (rstrip ucd s)) = false.
Proof. unfold rstrip. rewrite rev_involutive. apply lstrip_head. Qed.

Lemma rstrip_fixed (s : text) : head_space ucd (rev s) = false -> rstrip ucd s = s.
Proof.
  intros H. unfold rstrip. rewrite lstrip_fixed by exact H. apply rev_involutive.
Qed.

Lemma strip_trimmed (s : text) : trimmed ucd (strip ucd s) = true.
Proof.
  unfold trimmed, strip.
  rewrite rstrip_head by apply lstrip_head. rewrite rstrip_last. reflexivity.
Qed.

Lemma strip_fixed (s : text) : trimmed ucd s = true -> strip ucd s = s.
Proof.
  unfold trimmed. intros H. apply andb_true_iff in H as [H1 H2].
  apply negb_true_iff in H1, H2. unfold strip.
  rewrite lstrip_fixed by exact H1. apply rstrip_fixed. exact H2.
Qed.

Variable punkt_spans : string -> text -> list (nat * nat).

(** X7: the text that [clean_text] returns neither starts nor ends with
    whitespace, so that trimming it again changes nothing. *)
Theorem X7_clean_text_is_trimmed :
  forall (t : text) (lang : string),
    trimmed ucd (clean_text ucd punkt_spans t lang) = true /\
    strip ucd (clean_text ucd punkt_spans t lang) = clean_text ucd punkt_spans t lang.
Proof.
  intros t lang.
  assert (H : trimmed ucd (clean_text ucd punkt_spans t lang) = true)
    by (unfold clean_text; apply strip_trimmed).
  split; [exact H|]. apply strip_fixed. exact H.
Qed.

(** X8: [clean_text] invents no character: whatever it returns is made of
    characters of its input and of plain spaces. *)
Theorem X8_clean_text_invents_nothing :
  forall (t : text) (lang : string) (c : char),
    In c (clean_text ucd punkt_spans t lang) -> In c t \/ c = char_space.
Proof.
  intros t lang c Hc. unfold clean_text, exclude_duplicate_sentences in Hc.
  apply (@substring_In _ _ c (substring_strip ucd _)) in Hc.
  apply join_In in Hc as [-> | (x & Hx & Hc)]; [now right|].
  apply kept_sentences_substrings in Hx.
  apply (@substring_In _ _ c Hx) in Hc.
  unfold clean_regex in Hc. cbv zeta in Hc. unfold re_sub in Hc.
  apply sub_from_In in Hc as [Hc|[<-|[]]]; [|now right].
  apply sub_from_In in Hc as [Hc|[]]. apply sub_from_In in Hc as [Hc|[]].
  apply sub_from_In in Hc as [Hc|[]]. apply sub_from_In in Hc as [Hc|[]].
  now left.
Qed.

End Transforms.

(** The cleaning of the scenario text returns characters of the input. *)
Lemma X8_witness :
  In 67%N (clean_text ucd_other punkt_whole
             (str "Check this out http://x.co #great @bob 123") "en") /\
  (In 67%N (str "Check this out http://x.co #great @bob 123") \/ 67%N = char_space).
Proof.
  assert (H : In 67%N (clean_text ucd_other punkt_whole
                 (str "Check this out http://x.co #great @bob 123") "en"))
    by (vm_compute; now left).
  split; [exact H|].
  exact (@X8_clean_text_invents_nothing ucd_other punkt_whole _ _ _ H).
Defined.

(** ** The augmentation pipeline *)

Lemma random_advance (g : Rng) : snd (random g) = advance g 1.
Proof. unfold random, next_raw, advance. cbn [snd]. f_equal. lia. Qed.

Lemma random_below_one (g : Rng) : Qle_bool 1 (fst (random g)) = false.
Proof.
  unfold random, next_raw. cbn [fst].
  destruct (Qle_bool 1 _) eqn:E; [|reflexivity].
  apply Qle_bool_iff in E. unfold Qle in E. cbn [Qnum Qden] in E.
  pose proof (Z.mod_pos_bound (Z.of_N (tape g (cursor g))) (Z.pos two53) eq_refl). lia.
Qed.

Lemma advance_advance (g : Rng) (a b : nat) : advance (advance g a) b = advance g (a + b).
Proof. unfold advance. cbn [tape cursor]. f_equal. lia. Qed.

Lemma advance_zero (g : Rng) : advance g 0 = g.
Proof. destruct g as [t c]. unfold advance. cbn [tape cursor]. f_equal. lia. Qed.

Lemma draw_advance (g : Rng) (a i : nat) : draw (advance g a) i = draw g (a + i).
Proof. unfold draw, advance. cbn [tape cursor]. do 3 f_equal. lia. Qed.

Lemma draw_zero (g : Rng) : draw g 0 = fst (random g).
Proof. unfold draw. destruct g as [t c]. cbn [tape cursor]. do 3 f_equal. lia. Qed.

Lemma gate_advance (p : Q) (g : Rng) : snd (gate p g) = advance g 1.
Proof. rewrite gate_rng. apply random_advance. Qed.

Lemma gate_fires (p : Q) (g : Rng) : fst (gate p g) = negb (Qle_bool p (draw g 0)).
Proof. rewrite draw_zero. unfold gate. destruct (random g). reflexivity. Qed.

Lemma gated_spec {A : Type} (p : Q) (f : A -> A) (d : A) (g : Rng) :
  gated p f d g = ((if Qle_bool p (draw g 0) then d else f d), advance g 1).
Proof.
  unfold gated. pose proof (gate_fires p g) as Hf. pose proof (gate_advance p g) as Ha.
  destruct (gate p g) as [fire g']. cbn [fst snd] in Hf, Ha. subst fire g'.
  destruct (Qle_bool p (draw g 0)); reflexivity.
Qed.

Lemma run_transforms_advance {A : Type} (ts : list (Q * (A -> A))) : forall (d : A) (g : Rng),
  snd (run_transforms ts d g) = advance g (List.length ts).
Proof.
  induction ts as [|[p f] ts IH]; intros d g; cbn [run_transforms List.length].
  - symmetry. apply advance_zero.
  - rewrite gated_spec. rewrite IH, advance_advance. reflexivity.
Qed.

Lemma run_transforms_keeps {A B : Type} (proj : A -> B) (ts : list (Q * (A -> A))) :
  Forall (fun pf => forall d, proj (snd pf d) = proj d) ts ->
  forall (d : A) (g : Rng), proj (fst (run_transforms ts d g)) = proj d.
Proof.
  induction 1 as [|[p f] ts Hf _ IH]; intros d g; cbn [run_transforms]; [reflexivity|].
  rewrite gated_spec. rewrite IH. cbn [snd] in Hf.
  destruct (Qle_bool p (draw g 0)); [reflexivity|apply Hf].
Qed.

Lemma compose_one {A : Type} (ts : list (Q * (A -> A))) (d : A) (g : Rng) :
  compose ts 1 d g = run_transforms ts d (advance g 1).
Proof.
  unfold compose. pose proof (gate_fires 1 g) as Hf. pose proof (gate_advance 1 g) as Ha.
  destruct (gate 1 g) as [fire g']. cbn [fst snd] in Hf, Ha. subst fire g'.
  rewrite draw_zero, random_below_one. reflexivity.
Qed.

(** X9: [train_transforms] always runs its chain, keeps the language of the
    pair and consumes exactly six draws of [random.random()]: one for the
    [Compose] and one for each of the five transforms, fired or not. *)
Theorem X9_train_transforms_draws :
  forall (ucd : char -> uclass) (punkt_spans : string -> text -> list (nat * nat))
         (data : text * string) (g : Rng),
    snd (fst (train_transforms ucd punkt_spans data g)) = snd data /\
    snd (train_transforms ucd punkt_spans data g) = advance g 6.
Proof.
  intros ucd punkt_spans data g. unfold train_transforms. rewrite compose_one. split.
  - apply (run_transforms_keeps (@snd text string)).
    repeat constructor.
  - rewrite run_transforms_advance, advance_advance. reflexivity.
Qed.

(** X10: a transform of the chain is skipped when its draw is at least the
    double 0.95 (8556839292003942 / 2^53, a possible draw, just below 95/100):
    when all five draws are, [train_transforms] returns the text as it was
    given; when none is, it returns the text after the mentions, the URLs, the
    digits, the hashtags and the duplicate sentences were removed, in this
    order. *)
Theorem X10_train_transforms_gates :
  forall (ucd : char -> uclass) (punkt_spans : string -> text -> list (nat * nat))
         (data : text * string) (g : Rng),
    ((forall i, 1 <= i <= 5 -> (8556839292003942 # 9007199254740992 <= draw g i)%Q) ->
     fst (train_transforms ucd punkt_spans data g) = data) /\
    ((forall i, 1 <= i <= 5 -> (draw g i < 8556839292003942 # 9007199254740992)%Q) ->
     fst (train_transforms ucd punkt_spans data g) =
       ExcludeDuplicateSentences_apply ucd punkt_spans
         (ExcludeHashtags_apply ucd
            (ExcludeNumbers_apply ucd
               (ExcludeUrls_apply ucd (ExcludeUsersMentioned_apply ucd data))))).
Proof.
  intros ucd punkt_spans data g. unfold train_transforms. rewrite compose_one.
  cbn [run_transforms]. rewrite !gated_spec, !advance_advance, !draw_advance.
  cbn [Nat.add]. change (8556839292003942 # 9007199254740992)%Q with double_0_95.
  split; intros H.
  - assert (E : forall i, 1 <= i <= 5 -> Qle_bool double_0_95 (draw g i) = true).
    { intros i Hi. apply Qle_bool_iff. now apply H. }
    rewrite (E 1), (E 2), (E 3), (E 4), (E 5) by lia. reflexivity.
  - assert (E : forall i, 1 <= i <= 5 -> Qle_bool double_0_95 (draw g i) = false).
    { intros i Hi. destruct (Qle_bool double_0_95 (draw g i)) eqn:El; [|reflexivity].
      apply Qle_bool_iff in El. exfalso. exact (Qlt_not_le _ _ (H i Hi) El). }
    rewrite (E 1), (E 2), (E 3), (E 4), (E 5) by lia. reflexivity.
Qed.

(** With every draw equal to the double 0.95 nothing is removed, although the
    draw is below 95/100; with every draw one step of 2^-53 lower, everything
    is. *)
Lemma X10_witness :
  (draw (rng_const 8556839292003942%N) 1 < 95 # 100)%Q /\
  fst (train_transforms ucd_other punkt_whole (str "see #you at 10", "en"%string)
         (rng_const 8556839292003942%N))
    = (str "see #you at 10", "en"%string) /\
  fst (fst (train_transforms ucd_other punkt_whole (str "see #you at 10", "en"%string)
              (rng_const 8556839292003941%N)))
    = str "see at".
Proof.
  destruct (X10_train_transforms_gates ucd_other punkt_whole
              (str "see #you at 10", "en"%string) (rng_const 8556839292003942%N))
    as [Hskip _].
  destruct (X10_train_transforms_gates ucd_other punkt_whole
              (str "see #you at 10", "en"%string) (rng_const 8556839292003941%N))
    as [_ Hfire].
  split; [unfold Qlt; vm_compute; reflexivity|]. split.
  - apply Hskip. intros i _. unfold Qle. vm_compute. discriminate.
  - rewrite Hfire; [vm_compute; reflexivity|].
    intros i _. unfold Qlt. vm_compute. reflexivity.
Defined.

(** ** The mixer on empty pools *)

Lemma append_choices_empty (n : nat) (texts : list text) (g : Rng) :
  append_choices (S n) [] texts g = Raise IndexError.
Proof. reflexivity. Qed.

Lemma append_choices_raises (n : nat) (pool : list text) : forall texts g e,
  append_choices n pool texts g = Raise e -> e = IndexError.
Proof.
  induction n as [|n IH]; intros texts g e; cbn [append_choices]; [discriminate|].
  destruct (choice pool g) as [[x g']|e'] eqn:E.
  - apply IH.
  - intros H; injection H as <-. unfold choice in E.
    destruct pool as [|a pool]; [now injection E as <-|].
    destruct (randbelow (List.length (a :: pool)) g) as [i g'].
    destruct (nth_error (a :: pool) i); [discriminate|now injection E as <-].
Qed.

Lemma randint_succ (a b : nat) (g : Rng) :
  exists k, fst (randint (S a) b g) = S k.
Proof.
  unfold randint. destruct (randbelow (b - S a + 1) g) as [k g'].
  exists (a + k). reflexivity.
Qed.

(** X11: when the pool it must draw from is empty, the mixer raises
    [IndexError]: for every text of label 0 when the non-toxic pool is empty,
    and for every text of another label when the toxic pool is empty. *)
Theorem X11_mixer_empty_pool_raises :
  forall (pool : SyntheticPool) (t : text) (toxic : Z) (g : Rng),
    (toxic = 0%Z /\ synthesic_non_toxic pool = []) \/
    (toxic <> 0%Z /\ synthesic_toxic pool = []) ->
    generate_synthesic_sample pool t toxic g = Raise IndexError.
Proof.
  intros pool t toxic g [[-> Hp]|[Hne Hp]];
    unfold generate_synthesic_sample, synthesic_fragments; cbv zeta.
  - cbn [Z.eqb]. rewrite Hp.
    destruct (randint_succ 0 5 g) as [k Hk].
    destruct (randint 1 5 g) as [n g1]. cbn [fst] in Hk. subst n. reflexivity.
  - apply Z.eqb_neq in Hne. rewrite Hne, Hp.
    destruct (randint 0 2 g) as [n0 g1].
    destruct (append_choices n0 (synthesic_non_toxic pool) [t] g1) as [[texts g2]|e] eqn:E.
    + destruct (randint_succ 0 3 g2) as [k Hk].
      destruct (randint 1 3 g2) as [n g3]. cbn [fst] in Hk. subst n. reflexivity.
    + apply append_choices_raises in E. subst e. reflexivity.
Qed.

(** A toxic comment and a pool with no toxic sentence. *)
Lemma X11_witness :
  generate_synthesic_sample
    {| synthesic_toxic := []; synthesic_non_toxic := [str "Thanks."] |}
    (str "You again.") 1 (rng_const 0%N) = Raise IndexError.
Proof.
  apply X11_mixer_empty_pool_raises. right. split; [discriminate|reflexivity].
Defined.

(** ** Shuffled sentences *)

Lemma shuffle_loop_advance {A : Type} (i : nat) : forall (x : list A) (g : Rng),
  snd (shuffle_loop i x g) = advance g i.
Proof.
  induction i as [|i IH]; intros x g; cbn [shuffle_loop].
  - symmetry. apply advance_zero.
  - unfold randbelow, next_raw. rewrite IH. unfold advance. cbn [tape cursor].
    f_equal. lia.
Qed.

(** X12: [ShuffleSentencesTransform.apply] returns the single-space join of a
    permutation of the sentences of the text, with the language it was given,
    after one draw for each sentence but the first. *)
Theorem X12_shuffle_sentences_permutes :
  forall (punkt_spans : string -> text -> list (nat * nat)) (data : text * string) (g : Rng),
    exists sentences : list text,
      Permutation sentences (get_sentences punkt_spans (fst data) (snd data)) /\
      ShuffleSentences_apply punkt_spans data g =
        ((join [char_space] sentences, snd data),
         advance g (List.length sentences - 1)).
Proof.
  intros punkt_spans data g. unfold ShuffleSentences_apply. cbv zeta.
  pose proof (shuffle_perm (get_sentences punkt_spans (fst data) (snd data)) g) as Hp.
  pose proof (shuffle_loop_advance
                (List.length (get_sentences punkt_spans (fst data) (snd data)) - 1)
                (get_sentences punkt_spans (fst data) (snd data)) g) as Ha.
  fold (shuffle (get_sentences punkt_spans (fst data) (snd data)) g) in Ha.
  destruct (shuffle (get_sentences punkt_spans (fst data) (snd data)) g) as [s' g'].
  cbn [fst snd] in Hp, Ha. subst g'.
  exists s'. split; [exact Hp|]. rewrite (Permutation_length Hp). reflexivity.
Qed.

(** ** The shape of the token sequences *)

(** X13: [get_tokens] returns [<s>], the first 222 SentencePiece ids of the
    text, [</s>], and padding up to 224 tokens; the attention mask is 1 on the
    real tokens and 0 on the padding, so that it sums to the number of pieces
    plus 2, capped at 224, and is below 60 exactly when the text has fewer
    than 58 pieces. *)
Theorem X13_get_tokens_layout :
  forall (sp : text -> list Z) (t : text),
    fst (get_tokens sp t)
      = bos_token_id :: firstn 222 (sp t)
          ++ eos_token_id :: repeat pad_token_id (222 - List.length (sp t)) /\
    snd (get_tokens sp t)
      = repeat 1%Z (Nat.min (List.length (sp t) + 2) 224)
          ++ repeat 0%Z (222 - List.length (sp t)) /\
    sumZ (snd (get_tokens sp t)) = Z.of_nat (Nat.min (List.length (sp t) + 2) 224) /\
    (sumZ (snd (get_tokens sp t)) <? 60)%Z = (List.length (sp t) <? 58).
Proof.
  intros sp t.
  assert (E : get_tokens sp t =
    (bos_token_id :: firstn 222 (sp t)
       ++ eos_token_id :: repeat pad_token_id (222 - List.length (sp t)),
     repeat 1%Z (Nat.min (List.length (sp t) + 2) 224)
       ++ repeat 0%Z (222 - List.length (sp t)))).
  { unfold get_tokens, encode_plus, MAX_LENGTH. cbv zeta. cbv iota.
    set (ids := sp t).
    destruct (224 <? List.length ids + 2) eqn:Hlong.
    - apply Nat.ltb_lt in Hlong.
      replace (List.length ids - (List.length ids + 2 - 224)) with 222 by lia.
      assert (Hlen : List.length ([bos_token_id] ++ firstn 222 ids ++ [eos_token_id]) = 224).
      { rewrite !length_app, length_firstn. cbn [List.length]. lia. }
      rewrite Hlen, Nat.ltb_irrefl. cbn [andb].
      replace (222 - List.length ids) with 0 by lia.
      replace (Nat.min (List.length ids + 2) 224) with 224 by lia.
      cbn [repeat]. rewrite app_nil_r. reflexivity.
    - apply Nat.ltb_ge in Hlong.
      assert (Hlen : List.length ([bos_token_id] ++ ids ++ [eos_token_id])
                     = List.length ids + 2).
      { rewrite !length_app. cbn [List.length]. lia. }
      rewrite Hlen. rewrite firstn_all2 by lia.
      replace (Nat.min (List.length ids + 2) 224) with (List.length ids + 2) by lia.
      replace (224 - (List.length ids + 2)) with (222 - List.length ids) by lia.
      cbn [andb]. destruct (List.length ids + 2 <? 224) eqn:Hshort.
      + cbn [app]. rewrite <- app_assoc. reflexivity.
      + apply Nat.ltb_ge in Hshort.
        replace (222 - List.length ids) with 0 by lia.
        cbn [repeat app]. rewrite app_nil_r. reflexivity. }
  rewrite E. cbn [fst snd]. split; [reflexivity|]. split; [reflexivity|].
  assert (S : sumZ (repeat 1%Z (Nat.min (List.length (sp t) + 2) 224)
                      ++ repeat 0%Z (222 - List.length (sp t)))
              = Z.of_nat (Nat.min (List.length (sp t) + 2) 224)).
  { rewrite sumZ_app, sumZ_repeat_one, sumZ_repeat_zero. lia. }
  split; [exact S|]. rewrite S.
  destruct (List.length (sp t) <? 58) eqn:H58.
  - apply Nat.ltb_lt in H58. apply Z.ltb_lt. lia.
  - apply Nat.ltb_ge in H58. apply Z.ltb_ge. lia.
Qed.

(** ** Fetching a sample *)

(** X14: a dataset built with [test=True] and [use_train_transforms=True]
    cannot be read: for every index in range [__getitem__] raises
    [UnboundLocalError], because [label] and [target] are only assigned when
    [test] is false. *)
Theorem X14_getitem_test_with_transforms_raises :
  forall ucd punkt_spans sp pool self idx g t lang,
    test self = true ->
    use_train_transforms self = true ->
    nth_error (comment_texts self) idx = Some t ->
    nth_error (langs self) idx = Some lang ->
    getitem ucd punkt_spans sp pool self idx g = Raise UnboundLocalError.
Proof.
  intros ucd punkt_spans sp pool self idx g t lang Htest Haug Ht Hlang.
  unfold getitem, index. rewrite Ht, Hlang, Htest, Haug. cbv zeta.
  destruct (train_transforms ucd punkt_spans (t, lang) g) as [data g1].
  destruct (get_tokens sp (fst data)) as [tokens mask].
  destruct (sumZ mask <? 60)%Z; reflexivity.
Qed.

Lemma X14_witness :
  getitem ucd_other punkt_whole sp_chars pool_demo dataset_test_augmented 0 (rng_const 0%N)
    = Raise UnboundLocalError.
Proof.
  apply (@X14_getitem_test_with_transforms_raises ucd_other punkt_whole sp_chars pool_demo
           dataset_test_augmented 0 (rng_const 0%N) (str "You again.") "en"%string);
    reflexivity.
Defined.

(** X15: without the training augmentation, [__getitem__] draws no random
    number and returns the entry of [labels_or_ids] (the label, or the id of
    a test comment) with the tokens and the mask of the stored text. *)
Theorem X15_getitem_without_transforms :
  forall ucd punkt_spans sp pool self idx g t lang x,
    use_train_transforms self = false ->
    nth_error (comment_texts self) idx = Some t ->
    nth_error (langs self) idx = Some lang ->
    nth_error (labels_or_ids self) idx = Some x ->
    getitem ucd punkt_spans sp pool self idx g
      = Ok ((x, fst (get_tokens sp t), snd (get_tokens sp t)), g).
Proof.
  intros ucd punkt_spans sp pool self idx g t lang x Haug Ht Hlang Hx.
  unfold getitem, index. rewrite Ht, Hlang, Hx, Haug. cbv zeta.
  destruct (get_tokens sp t) as [tokens mask]. cbn [fst snd].
  destruct (test self); reflexivity.
Qed.

Lemma X15_witness :
  getitem ucd_other punkt_whole sp_chars pool_demo (dataset_demo false) 1 (rng_const 0%N)
    = Ok ((1%Z, fst (get_tokens sp_chars (str "You again.")),
                snd (get_tokens sp_chars (str "You again."))), rng_const 0%N).
Proof.
  apply (@X15_getitem_without_transforms ucd_other punkt_whole sp_chars pool_demo
           (dataset_demo false) 1 (rng_const 0%N) (str "You again.") "en"%string 1%Z);
    reflexivity.
Defined.

(** X16: an index past the end of the texts, of the languages or (outside
    test mode) of the labels makes [__getitem__] raise [IndexError]. *)
Theorem X16_getitem_index_error :
  forall ucd punkt_spans sp pool self idx g,
    nth_error (comment_texts self) idx = None \/
    nth_error (langs self) idx = None \/
    (test self = false /\ nth_error (labels_or_ids self) idx = None) ->
    getitem ucd punkt_spans sp pool self idx g = Raise IndexError.
Proof.
  intros ucd punkt_spans sp pool self idx g H. unfold getitem, index.
  destruct (nth_error (comment_texts self) idx) as [t|]; [|reflexivity].
  destruct (nth_error (langs self) idx) as [lang|]; [|reflexivity].
  destruct H as [H|[H|[Htest H]]]; try discriminate.
  rewrite Htest, H. reflexivity.
Qed.

Lemma X16_witness :
  getitem ucd_other punkt_whole sp_chars pool_demo (dataset_demo true) 2 (rng_const 0%N)
    = Raise IndexError.
Proof.
  apply X16_getitem_index_error. left. reflexivity.
Defined.

(** ** The meters *)




Lemma scores_of_none (label y : Z) (ys : list Z) : forall ps : list Q,
  (forall x, In x ys -> x = y) -> y <> label -> scores_of label ys ps = [].
Proof.
  unfold scores_of. induction ys as [|x ys IH]; intros ps H Hne; [reflexivity|].
  destruct ps as [|p ps]; [reflexivity|]. cbn [combine filter fst].
  rewrite (H x (or_introl eq_refl)).
  destruct (y =? label)%Z eqn:E; [apply Z.eqb_eq in E; contradiction|].
  apply IH; [|exact Hne]. intros z Hz. apply H. now right.
Qed.

Lemma roc_auc_score_one_class (y : Z) (ys : list Z) (ps : list Q) :
  (forall x, In x ys -> x = y) -> roc_auc_score ys ps = Raise ValueError.
Proof.
  intros H. unfold roc_auc_score.
  destruct (negb (forallb (fun y0 => (y0 =? 0)%Z || (y0 =? 1)%Z) ys)); [reflexivity|].
  cbv zeta. destruct (Z.eq_dec y 1) as [->|Hne].
  - rewrite (@scores_of_none 0%Z 1%Z ys ps H) by discriminate.
    destruct (scores_of 1 ys ps); reflexivity.
  - rewrite (@scores_of_none 1%Z y ys ps H Hne). reflexivity.
Qed.

(** X18: when the last 10,000 labels of the history, the new ones included,
    are all the same, [RocAucMeter.update] raises [ValueError]: the two seed
    pairs protect the meter only as long as they are among the last 10,000. *)
Theorem X18_roc_auc_meter_one_class_window :
  forall (Logits : Type) (softmax1 : Logits -> Q) (m : RocAucMeter)
         (targets : list Z) (logits : list Logits) (y : Z),
    (forall x, In x (last_n 10000 (y_true m ++ targets)) -> x = y) ->
    RocAucMeter_update softmax1 m targets logits = Raise ValueError.
Proof.
  intros Logits softmax1 m targets logits y H.
  unfold RocAucMeter_update. cbv zeta.
  rewrite (@roc_auc_score_one_class y _ _ H). reflexivity.
Qed.

(** A fresh meter updated with 10,000 toxic examples at once. *)
Lemma X18_witness :
  RocAucMeter_update (fun q : Q => q) RocAucMeter_reset
    (repeat 1%Z 10000) (repeat (9 # 10)%Q 10000) = Raise ValueError.
Proof.
  apply (@X18_roc_auc_meter_one_class_window Q (fun q : Q => q) RocAucMeter_reset
           (repeat 1%Z 10000) (repeat (9 # 10)%Q 10000) 1%Z).
  intros x Hx. rewrite last_n_app_exact in Hx by apply repeat_length.
  exact (repeat_spec _ _ _ Hx).
Defined.

(** ** The skipping threshold *)

(** X24: a training batch is skipped exactly when twenty times the sum of its
    labels is below three times the configured batch size; with the batch
    size 7 of [TrainGlobalConfig], exactly when the labels sum to at most 1. *)
Theorem X24_skip_threshold :
  forall (cfg : Config) (b : Batch),
    too_few_positives cfg b
      = (20 * sumZ (targets b) <? 3 * Z.of_nat (batch_size cfg))%Z /\
    too_few_positives TrainGlobalConfig b = (sumZ (targets b) <=? 1)%Z.
Proof.
  assert (H : forall cfg b, too_few_positives cfg b
      = (20 * sumZ (targets b) <? 3 * Z.of_nat (batch_size cfg))%Z).
  { intros cfg b. unfold too_few_positives, Qltb.
    destruct (Qle_bool _ _) eqn:E; cbn [negb]; symmetry.
    - apply Qle_bool_iff in E. unfold Qle in E. cbn in E. apply Z.ltb_ge. lia.
    - apply Z.ltb_lt.
      assert (Hn : ~ (inject_Z (Z.of_nat (batch_size cfg)) * (15 # 100)
                      <= inject_Z (sumZ (targets b)))%Q).
      { intros Hle. apply Qle_bool_iff in Hle. congruence. }
      apply Qnot_le_lt in Hn. unfold Qlt in Hn. cbn in Hn. lia. }
  intros cfg b. split; [apply H|]. rewrite H.
  cbn [batch_size TrainGlobalConfig].
  destruct (sumZ (targets b) <=? 1)%Z eqn:E.
  - apply Z.leb_le in E. apply Z.ltb_lt. lia.
  - apply Z.leb_gt in E. apply Z.ltb_ge. lia.
Qed.

(** ** What the phases of an epoch touch *)

Lemma count_app (p : Event -> bool) (a b : list Event) :
  count p (a ++ b) = count p a + count p b.
Proof. unfold count. rewrite filter_app, length_app. reflexivity. Qed.

Section FitterFrames.

Variables Model Optimizer Scheduler Logits : Type.
Variable softmax1 : Logits -> Q.
Variable model_train model_eval : Model -> Model.
Variable forward : Model -> Batch -> Q * list Logits.
Variable backward : Model -> Batch -> Model.
Variable optimizer_step : Optimizer -> Model -> Optimizer * Model.
Variable zero_grad : Optimizer -> Model -> Model.
Variable scheduler_step : Scheduler -> option Q -> Optimizer -> Scheduler * Optimizer.
Variable get_lr : Optimizer -> Q.
Variables train_data_len val_len : nat.

Local Notation Fitter := (TPUFitter Model Optimizer Scheduler).

Lemma training_frame_refl (st : Fitter) : training_frame st st.
Proof.
  repeat split. exists []. rewrite app_nil_r. repeat split.
Qed.

Lemma training_frame_trans (a b c : Fitter) :
  training_frame a b -> training_frame b c -> training_frame a c.
Proof.
  intros (Hb1 & He1 & Hc1 & e1 & Ht1 & Hf1 & HB1 & HO1 & HZ1)
         (Hb2 & He2 & Hc2 & e2 & Ht2 & Hf2 & HB2 & HO2 & HZ2).
  split; [congruence|]. split; [congruence|]. split; [congruence|].
  exists (e1 ++ e2). rewrite Ht2, Ht1, <- app_assoc. split; [reflexivity|].
  rewrite forallb_app, Hf1, Hf2, !count_app. repeat split; lia.
Qed.

Lemma training_frame_events (st st' : Fitter) (evs : list Event) :
  best_score st' = best_score st -> epoch st' = epoch st -> ckpts st' = ckpts st ->
  trace st' = trace st ++ evs ->
  forallb (fun e => negb (is_file_event e)) evs = true ->
  count is_backward evs = count is_forward evs ->
  count is_optimizer_step evs = count is_forward evs ->
  count is_zero_grad evs = count is_forward evs ->
  training_frame st st'.
Proof. intros. repeat split; try assumption. exists evs. repeat split; assumption. Qed.

Lemma training_frame_scheduler (metrics : option Q) (st : Fitter) :
  training_frame st (do_scheduler_step scheduler_step metrics st).
Proof.
  unfold do_scheduler_step. destruct (scheduler_step _ _ _) as [s o].
  apply (@training_frame_events _ _ [SchedulerStep]); reflexivity.
Qed.

Lemma training_frame_step cfg (st : Fitter) losses step b st' losses' :
  train_step softmax1 forward backward optimizer_step zero_grad scheduler_step
    cfg st losses step b = Ok (st', losses') ->
  training_frame st st'.
Proof.
  unfold train_step.
  set (logged := if verbose cfg then _ else _).
  assert (Hlog : forall s1, logged = Ok s1 -> training_frame st s1).
  { subst logged. intros s1. destruct (verbose cfg).
    - destruct (verbose_step cfg) as [|k]; [discriminate|].
      destruct (step mod S k =? 0); intros H; injection H as <-.
      + eapply training_frame_events; try reflexivity.
      + apply training_frame_refl.
    - intros H; injection H as <-. apply training_frame_refl. }
  destruct logged as [s1|e]; cbn [bind]; [|discriminate].
  specialize (Hlog s1 eq_refl).
  destruct (too_few_positives cfg b).
  - intros H; injection H as <- <-. exact Hlog.
  - destruct (forward (model s1) b) as [loss logits].
    destruct (RocAucMeter_update _ _ _ _) as [fs|e]; cbn [bind]; [|discriminate].
    destruct (AverageMeter_update _ _ _) as [l2|e]; cbn [bind]; [|discriminate].
    cbv zeta.
    destruct (optimizer_step _ _) as [o m].
    intros H; injection H as <- <-.
    eapply training_frame_trans; [exact Hlog|].
    destruct (step_scheduler cfg).
    + eapply training_frame_trans; [|apply training_frame_scheduler].
      apply (@training_frame_events _ _ [Forward; Backward; OptimizerStep; ZeroGrad]);
        try reflexivity.
      cbn [emit trace with_model with_optimizer with_final_scores].
      rewrite <- !app_assoc. reflexivity.
    + apply (@training_frame_events _ _ [Forward; Backward; OptimizerStep; ZeroGrad]);
        try reflexivity.
      cbn [emit trace with_model with_optimizer with_final_scores].
      rewrite <- !app_assoc. reflexivity.
Qed.

Lemma training_frame_loop cfg loader : forall (st : Fitter) losses step st' losses',
  train_loop softmax1 forward backward optimizer_step zero_grad scheduler_step
    cfg st losses step loader = Ok (st', losses') ->
  training_frame st st'.
Proof.
  induction loader as [|b loader IH]; intros st losses step st' losses'; cbn [train_loop].
  - intros H; injection H as <- <-. apply training_frame_refl.
  - destruct (train_step _ _ _ _ _ _ _ _ _ _ _) as [[s1 l1]|e] eqn:E; cbn [bind]; [|discriminate].
    intros H. eapply training_frame_trans;
      [exact (training_frame_step _ _ _ _ _ E)|exact (IH _ _ _ _ _ H)].
Qed.

Lemma train_one_epoch_training_frame cfg (st : Fitter) train_loader losses fs st' :
  train_one_epoch softmax1 model_train model_eval forward backward optimizer_step zero_grad
    scheduler_step train_data_len cfg st train_loader = Ok (losses, fs, st') ->
  training_frame st st'.
Proof.
  unfold train_one_epoch. cbv zeta.
  destruct (batch_size cfg) as [|k]; [discriminate|].
  destruct (train_loop _ _ _ _ _ _ _ _ _ _ _) as [[s1 l1]|e] eqn:E; cbn [bind]; [|discriminate].
  intros H; injection H as <- <- <-.
  apply training_frame_loop in E.
  eapply training_frame_trans; [|apply (@training_frame_events _ _ []); try reflexivity].
  - eapply training_frame_trans; [|exact E].
    apply (@training_frame_events _ _ []); try reflexivity.
    cbn [with_model trace]. now rewrite app_nil_r.
  - cbn [with_model trace]. now rewrite app_nil_r.
Qed.

(** X20: an epoch of training saves and loads nothing: the best score, the
    epoch counter and the checkpoints are as before, no file event is
    recorded, every forward pass has its backward pass, optimizer step and
    gradient reset, and the meter it returns is the fitter's own rolling
    meter. *)
Theorem X20_train_one_epoch_frame :
  forall cfg (st : Fitter) train_loader losses fs st',
    train_one_epoch softmax1 model_train model_eval forward backward optimizer_step zero_grad
      scheduler_step train_data_len cfg st train_loader = Ok (losses, fs, st') ->
    training_frame st st' /\ fs = final_scores st'.
Proof.
  intros cfg st train_loader losses fs st' H.
  split; [exact (train_one_epoch_training_frame _ _ _ H)|].
  unfold train_one_epoch in H. cbv zeta in H.
  destruct (batch_size cfg) as [|k]; [discriminate|].
  destruct (train_loop _ _ _ _ _ _ _ _ _ _ _) as [[s1 l1]|e]; cbn [bind] in H; [|discriminate].
  injection H as <- <- <-. reflexivity.
Qed.

(** *** Validation *)

Lemma validation_loop_frame loader : forall (st : Fitter) losses fs st' losses' fs',
  validation_loop softmax1 forward st losses fs loader = Ok (st', losses', fs') ->
  model st' = model st /\ optimizer st' = optimizer st /\ scheduler st' = scheduler st /\
  best_score st' = best_score st /\ epoch st' = epoch st /\ ckpts st' = ckpts st /\
  final_scores st' = final_scores st /\
  trace st' = trace st ++ repeat Forward (List.length loader) /\
  y_true fs' = y_true fs ++ List.concat (map targets loader).
Proof.
  induction loader as [|b loader IH]; intros st losses fs st' losses' fs';
    cbn [validation_loop].
  - intros H; injection H as <- <- <-. cbn [repeat List.length map List.concat].
    rewrite !app_nil_r. repeat split.
  - destruct (forward (model st) b) as [loss logits].
    destruct (RocAucMeter_update softmax1 fs (targets b) logits) as [fs1|e] eqn:Eu;
      cbn [bind]; [|discriminate].
    destruct (AverageMeter_update _ _ _) as [l1|e]; cbn [bind]; [|discriminate].
    intros H. apply IH in H as (Hm & Ho & Hs & Hb & He & Hc & Hf & Ht & Hy).
    cbn [emit model optimizer scheduler best_score epoch ckpts final_scores trace]
      in Hm, Ho, Hs, Hb, He, Hc, Hf, Ht.
    repeat (split; [assumption|]). split.
    + rewrite Ht, <- app_assoc. reflexivity.
    + rewrite Hy. unfold RocAucMeter_update in Eu. cbv zeta in Eu.
      destruct (roc_auc_score _ _); cbn [bind] in Eu; [|discriminate].
      injection Eu as <-. cbn [y_true map List.concat]. now rewrite <- app_assoc.
Qed.

(** X19: [validation] only runs forward passes, one for each batch it reads
    (at most [val_len / batch_size + 1]); it leaves the model in evaluation
    mode and the optimizer, the scheduler, the best score, the epoch counter,
    the checkpoints and the fitter's rolling meter as they were; the meter it
    returns was fresh, with the two seed labels before those of the batches. *)
Theorem X19_validation_frame :
  forall cfg (st : Fitter) val_loader losses fs st',
    validation softmax1 model_eval forward val_len cfg st val_loader = Ok (losses, fs, st') ->
    model st' = model_eval (model st) /\
    optimizer st' = optimizer st /\ scheduler st' = scheduler st /\
    best_score st' = best_score st /\ epoch st' = epoch st /\ ckpts st' = ckpts st /\
    final_scores st' = final_scores st /\
    trace st' = trace st
      ++ repeat Forward (Nat.min (val_len / batch_size cfg + 1) (List.length val_loader)) /\
    y_true fs = [0%Z; 1%Z]
      ++ List.concat (map targets (firstn (val_len / batch_size cfg + 1) val_loader)).
Proof.
  intros cfg st val_loader losses fs st'. unfold validation. cbv zeta.
  destruct (batch_size cfg) as [|k] eqn:Hk; [discriminate|].
  destruct (validation_loop _ _ _ _ _ _) as [[[s1 l1] f1]|e] eqn:E; cbn [bind]; [|discriminate].
  intros H; injection H as <- <- <-.
  apply validation_loop_frame in E as (Hm & Ho & Hs & Hb & He & Hc & Hf & Ht & Hy).
  cbn [with_model model optimizer scheduler best_score epoch ckpts final_scores trace]
    in Hm, Ho, Hs, Hb, He, Hc, Hf, Ht.
  rewrite length_firstn in Ht.
  repeat (split; [assumption|]). exact Hy.
Qed.

(** *** Inference and checkpoints *)

Lemma inference_loop_spec loader : forall (st : Fitter) acc,
  snd (inference_loop softmax1 forward st acc loader)
    = acc ++ flat_map (predict softmax1 forward (model st)) loader /\
  model (fst (inference_loop softmax1 forward st acc loader)) = model st /\
  optimizer (fst (inference_loop softmax1 forward st acc loader)) = optimizer st /\
  scheduler (fst (inference_loop softmax1 forward st acc loader)) = scheduler st /\
  best_score (fst (inference_loop softmax1 forward st acc loader)) = best_score st /\
  epoch (fst (inference_loop softmax1 forward st acc loader)) = epoch st /\
  ckpts (fst (inference_loop softmax1 forward st acc loader)) = ckpts st /\
  trace (fst (inference_loop softmax1 forward st acc loader))
    = trace st ++ repeat Forward (List.length loader).
Proof.
  induction loader as [|b loader IH]; intros st acc; cbn [inference_loop].
  - cbn [fst snd flat_map repeat List.length]. rewrite !app_nil_r. repeat split.
  - destruct (IH (emit Forward st) (acc ++ predict softmax1 forward (model st) b))
      as (Hp & Hm & Ho & Hs & Hb & He & Hc & Ht).
    cbn [emit model optimizer scheduler best_score epoch ckpts trace] in *.
    rewrite Hp, Hm, Ho, Hs, Hb, He, Hc, Ht. cbn [flat_map repeat List.length].
    rewrite <- !app_assoc. repeat split.
Qed.

Lemma write_ckpt_fresh (n : nat) (m : Model) (dir : list (nat * Model)) :
  (forall k, In k (map fst dir) -> k <> n) -> write_ckpt n m dir = dir ++ [(n, m)].
Proof.
  induction dir as [|[k m'] dir IH]; intros H; cbn [write_ckpt app]; [reflexivity|].
  destruct (k =? n) eqn:E.
  - apply Nat.eqb_eq in E. exfalso. apply (H k); [now left|exact E].
  - rewrite IH; [reflexivity|]. intros j Hj. apply H. now right.
Qed.

Lemma lookup_ckpt_fresh (n : nat) (m : Model) (dir : list (nat * Model)) :
  (forall k, In k (map fst dir) -> k <> n) -> lookup_ckpt n (dir ++ [(n, m)]) = Some m.
Proof.
  induction dir as [|[k m'] dir IH]; intros H; cbn [lookup_ckpt app].
  - now rewrite Nat.eqb_refl.
  - destruct (k =? n) eqn:E.
    + apply Nat.eqb_eq in E. exfalso. apply (H k); [now left|exact E].
    + apply IH. intros j Hj. apply H. now right.
Qed.

Lemma numbered_fresh (dir : list (nat * Model)) :
  map fst dir = seq 0 (List.length dir) ->
  forall k, In k (map fst dir) -> k <> List.length dir.
Proof. intros H k Hk. rewrite H in Hk. apply in_seq in Hk. lia. Qed.

Lemma numbered_snoc (dir : list (nat * Model)) (m : Model) :
  map fst dir = seq 0 (List.length dir) ->
  map fst (dir ++ [(List.length dir, m)]) = seq 0 (List.length (dir ++ [(List.length dir, m)])).
Proof.
  intros H. rewrite map_app, length_app, H. cbn [map fst List.length].
  rewrite Nat.add_1_r, seq_S. reflexivity.
Qed.

Lemma scheduler_fields (metrics : option Q) (st : Fitter) :
  model (do_scheduler_step scheduler_step metrics st) = model st /\
  best_score (do_scheduler_step scheduler_step metrics st) = best_score st /\
  epoch (do_scheduler_step scheduler_step metrics st) = epoch st /\
  ckpts (do_scheduler_step scheduler_step metrics st) = ckpts st /\
  trace (do_scheduler_step scheduler_step metrics st) = trace st ++ [SchedulerStep].
Proof.
  unfold do_scheduler_step. destruct (scheduler_step _ _ _) as [s o]. repeat split.
Qed.

(** What the end of an epoch does when the score improves, in a checkpoint
    directory whose files are numbered from 0. *)
Lemma end_of_epoch_improved cfg (st : Fitter) avg test_loader :
  map fst (ckpts st) = seq 0 (List.length (ckpts st)) ->
  (best_score st < avg)%Q ->
  exists st' evs,
    end_of_epoch softmax1 model_eval forward scheduler_step cfg st avg test_loader = Ok st' /\
    ckpts st' = ckpts st ++ [(List.length (ckpts st), model st)] /\
    model st' = model_eval (model st) /\
    best_score st' = avg /\ epoch st' = S (epoch st) /\
    trace st' = trace st ++ evs
      ++ [Log (MsgImproved (best_score st) avg); Save (List.length (ckpts st));
          LoadCheckpoint (List.length (ckpts st))]
      ++ repeat Forward (List.length test_loader)
      ++ [Submission (flat_map (predict softmax1 forward (model_eval (model st)))
                        test_loader)] /\
    (evs = [] \/ evs = [SchedulerStep]).
Proof.
  intros Hdir Hlt. apply Qltb_lt in Hlt. unfold end_of_epoch. cbv zeta.
  set (s1 := if validation_scheduler cfg then _ else st).
  assert (H1 : model s1 = model st /\ best_score s1 = best_score st /\
               epoch s1 = epoch st /\ ckpts s1 = ckpts st /\
               exists evs, trace s1 = trace st ++ evs /\ (evs = [] \/ evs = [SchedulerStep])).
  { subst s1. destruct (validation_scheduler cfg).
    - destruct (scheduler_fields (Some avg) st) as (Hm & Hb & He & Hc & Ht).
      repeat (split; [assumption|]). exists [SchedulerStep]. split; [exact Ht|now right].
    - repeat split. exists []. split; [now rewrite app_nil_r|now left]. }
  destruct H1 as (Hm1 & Hb1 & He1 & Hc1 & evs & Ht1 & Hevs).
  cbn [with_epoch best_score]. rewrite Hb1, Hlt.
  unfold run_inference, save.
  cbn [emit with_ckpts with_best_score with_epoch ckpts model trace best_score epoch].
  rewrite Hc1, Hm1, (@write_ckpt_fresh (List.length (ckpts st)) (model st) (ckpts st)
                       (@numbered_fresh (ckpts st) Hdir)).
  rewrite length_app. cbn [List.length]. rewrite Nat.add_1_r.
  rewrite (@lookup_ckpt_fresh (List.length (ckpts st)) (model st) (ckpts st)
             (@numbered_fresh (ckpts st) Hdir)). cbv zeta.
  match goal with
  | |- context [inference_loop softmax1 forward ?s ?a ?l] =>
      destruct (inference_loop_spec l s a) as (Hp & Hm & Ho & Hs & Hb & He & Hc & Ht);
      destruct (inference_loop softmax1 forward s a l) as [s2 res]
  end.
  cbn [fst snd] in Hp, Hm, Ho, Hs, Hb, He, Hc, Ht.
  cbn [emit with_model with_ckpts with_best_score with_epoch model optimizer scheduler
       best_score epoch ckpts trace app] in Hp, Hm, Hb, He, Hc, Ht.
  rewrite He1 in He. rewrite Ht1 in Ht.
  eexists. exists evs. split; [reflexivity|].
  cbn [emit model best_score epoch ckpts trace].
  rewrite Hm, Hb, He, Hc, Ht, Hp.
  repeat (split; [reflexivity|]). split; [|exact Hevs].
  rewrite <- !app_assoc. reflexivity.
Qed.

(** X21: in a checkpoint directory whose files are numbered from 0, the end
    of an epoch whose score improves saves the model under the next number,
    and the inference that follows loads this very checkpoint and predicts
    the whole test loader with it; the directory stays numbered from 0.
    On an empty directory [run_inference] alone raises [FileNotFoundError]. *)
Theorem X21_save_then_infer_round_trip :
  (forall cfg (st : Fitter) avg test_loader,
     map fst (ckpts st) = seq 0 (List.length (ckpts st)) ->
     (best_score st < avg)%Q ->
     exists st',
       end_of_epoch softmax1 model_eval forward scheduler_step cfg st avg test_loader
         = Ok st' /\
       ckpts st' = ckpts st ++ [(List.length (ckpts st), model st)] /\
       map fst (ckpts st') = seq 0 (List.length (ckpts st')) /\
       model st' = model_eval (model st) /\
       In (Save (List.length (ckpts st))) (trace st') /\
       In (LoadCheckpoint (List.length (ckpts st))) (trace st') /\
       In (Submission (flat_map (predict softmax1 forward (model_eval (model st)))
                         test_loader)) (trace st')) /\
  (forall (st : Fitter) test_loader,
     ckpts st = [] ->
     run_inference softmax1 model_eval forward st test_loader = Raise FileNotFoundError).
Proof.
  split.
  - intros cfg st avg test_loader Hdir Hlt.
    destruct (@end_of_epoch_improved cfg st avg test_loader Hdir Hlt)
      as (st' & evs & He & Hc & Hm & _ & _ & Ht & _).
    exists st'. split; [exact He|]. split; [exact Hc|].
    split; [rewrite Hc; apply (@numbered_snoc (ckpts st) (model st) Hdir)|]. split; [exact Hm|].
    rewrite Ht. repeat split.
    + apply in_or_app. right. apply in_or_app. right. apply in_or_app. left.
      right. now left.
    + apply in_or_app. right. apply in_or_app. right. apply in_or_app. left.
      right. right. now left.
    + apply in_or_app. right. apply in_or_app. right. apply in_or_app. right.
      apply in_or_app. right. now left.
  - intros st test_loader H. unfold run_inference. rewrite H. reflexivity.
Qed.

(** *** A whole run of [fit] *)

Lemma no_file_saves (evs : list Event) :
  forallb (fun e => negb (is_file_event e)) evs = true -> saves evs = 0.
Proof.
  induction evs as [|e evs IH]; [reflexivity|]. cbn [forallb]. intros H.
  apply andb_true_iff in H as [He Hevs].
  change (e :: evs) with ([e] ++ evs). rewrite saves_app, (IH Hevs).
  destruct e; try reflexivity; discriminate He.
Qed.

Lemma saves_repeat_forward (k : nat) : saves (repeat Forward k) = 0.
Proof. induction k as [|k IH]; [reflexivity|exact IH]. Qed.

Lemma ckpt_sync_same (st st' : Fitter) (evs : list Event) :
  ckpts st' = ckpts st -> trace st' = trace st ++ evs -> saves evs = 0 ->
  ckpt_sync st st'.
Proof.
  intros Hc Ht Hs. split; [now rewrite Hc|]. exists evs. split; [exact Ht|].
  rewrite Hc, Hs. lia.
Qed.

Lemma ckpt_sync_trans (a b c : Fitter) : ckpt_sync a b -> ckpt_sync b c -> ckpt_sync a c.
Proof.
  intros [W1 (e1 & T1 & L1)] [W2 (e2 & T2 & L2)]. split; [auto|].
  exists (e1 ++ e2). rewrite T2, T1, <- app_assoc, saves_app. split; [reflexivity|lia].
Qed.

Lemma training_frame_sync (st st' : Fitter) : training_frame st st' -> ckpt_sync st st'.
Proof.
  intros (_ & _ & Hc & evs & Ht & Hf & _).
  exact (@ckpt_sync_same st st' evs Hc Ht (@no_file_saves evs Hf)).
Qed.

Lemma validation_sync cfg (st : Fitter) val_loader losses fs st' :
  validation softmax1 model_eval forward val_len cfg st val_loader = Ok (losses, fs, st') ->
  ckpt_sync st st' /\ epoch st' = epoch st.
Proof.
  unfold validation. cbv zeta.
  destruct (batch_size cfg) as [|k]; [discriminate|].
  destruct (validation_loop _ _ _ _ _ _) as [[[s1 l1] f1]|e] eqn:E; cbn [bind]; [|discriminate].
  intros H; injection H as <- <- <-.
  apply validation_loop_frame in E as (_ & _ & _ & _ & He & Hc & _ & Ht & _).
  cbn [with_model epoch ckpts trace] in He, Hc, Ht.
  split; [|exact He]. exact (@ckpt_sync_same _ _ _ Hc Ht (saves_repeat_forward _)).
Qed.

Lemma end_of_epoch_sync cfg (st : Fitter) avg test_loader st' :
  map fst (ckpts st) = seq 0 (List.length (ckpts st)) ->
  end_of_epoch softmax1 model_eval forward scheduler_step cfg st avg test_loader = Ok st' ->
  ckpt_sync st st' /\ epoch st' = S (epoch st).
Proof.
  intros Hdir H. destruct (Qltb (best_score st) avg) eqn:Hlt.
  - apply Qltb_lt in Hlt.
    destruct (@end_of_epoch_improved cfg st avg test_loader Hdir Hlt)
      as (st'' & evs & He & Hc & _ & _ & Hep & Ht & Hevs).
    rewrite He in H. injection H as <-. split; [|exact Hep]. split.
    + intros _. rewrite Hc. exact (@numbered_snoc (ckpts st) (model st) Hdir).
    + eexists. split; [exact Ht|]. rewrite Hc, length_app, !saves_app, saves_repeat_forward.
      destruct Hevs as [-> | ->]; reflexivity.
  - unfold end_of_epoch in H. cbv zeta in H.
    set (s1 := if validation_scheduler cfg then _ else st) in H.
    assert (H1 : best_score s1 = best_score st /\ epoch s1 = epoch st /\
                 ckpts s1 = ckpts st /\
                 exists evs, trace s1 = trace st ++ evs /\ saves evs = 0).
    { subst s1. destruct (validation_scheduler cfg).
      - destruct (scheduler_fields (Some avg) st) as (_ & Hb & He & Hc & Ht).
        repeat (split; [assumption|]). exists [SchedulerStep]. split; [exact Ht|reflexivity].
      - repeat split. exists []. split; [now rewrite app_nil_r|reflexivity]. }
    destruct H1 as (Hb1 & He1 & Hc1 & evs & Ht1 & Hs1).
    cbn [with_epoch best_score] in H. rewrite Hb1, Hlt in H. injection H as <-.
    cbn [emit with_epoch epoch]. split; [|now rewrite He1].
    apply (@ckpt_sync_same _ _ (evs ++ [Log (MsgNotImproved (best_score st))])).
    + exact Hc1.
    + cbn [emit with_epoch trace best_score]. rewrite Ht1, <- app_assoc. reflexivity.
    + rewrite saves_app, Hs1. reflexivity.
Qed.

Lemma fit_epoch_sync cfg (st : Fitter) train_loader val_loader test_loader st' :
  map fst (ckpts st) = seq 0 (List.length (ckpts st)) ->
  fit_epoch softmax1 model_train model_eval forward backward optimizer_step zero_grad
    scheduler_step get_lr train_data_len val_len cfg st train_loader val_loader test_loader
    = Ok st' ->
  ckpt_sync st st' /\ epoch st' = S (epoch st).
Proof.
  intros Hdir. unfold fit_epoch. cbv zeta.
  set (s0 := if verbose cfg then _ else st).
  assert (H0 : ckpt_sync st s0 /\ epoch s0 = epoch st /\ ckpts s0 = ckpts st).
  { subst s0. destruct (verbose cfg).
    - split; [|split; reflexivity].
      apply (@ckpt_sync_same _ _ [Log (MsgLR (get_lr (optimizer st)))]); reflexivity.
    - split; [|split; reflexivity].
      apply (@ckpt_sync_same _ _ []); [reflexivity|now rewrite app_nil_r|reflexivity]. }
  destruct H0 as (S0 & E0 & C0).
  destruct (train_one_epoch _ _ _ _ _ _ _ _ _ _ _ _) as [[[l1 f1] s1]|e] eqn:E1;
    cbn [bind]; [|discriminate].
  apply train_one_epoch_training_frame in E1.
  pose proof (@training_frame_sync _ _ E1) as S1. destruct E1 as (_ & Ep1 & C1 & _).
  destruct (validation _ _ _ _ _ _ _) as [[[l2 f2] s2]|e] eqn:E2; cbn [bind]; [|discriminate].
  apply validation_sync in E2 as [S2 Ep2]. cbn [emit epoch] in Ep2.
  intros H.
  assert (Sa : ckpt_sync st
                 (emit (Log (MsgTrainResult (epoch s1) (am_avg l1) (RocAucMeter_avg f1))) s1)).
  { eapply ckpt_sync_trans; [exact S0|]. eapply ckpt_sync_trans; [exact S1|].
    eapply ckpt_sync_same; reflexivity. }
  assert (Sb : ckpt_sync st
                 (emit (Log (MsgValResult (epoch s2) (am_avg l2) (RocAucMeter_avg f2))) s2)).
  { eapply ckpt_sync_trans; [exact Sa|]. eapply ckpt_sync_trans; [exact S2|].
    eapply ckpt_sync_same; reflexivity. }
  apply end_of_epoch_sync in H as [S3 Ep3]; [|exact (proj1 Sb Hdir)].
  split; [eapply ckpt_sync_trans; eassumption|].
  rewrite Ep3. cbn [emit epoch]. congruence.
Qed.

Lemma fit_loop_sync cfg train_loader val_loader test_loader n : forall e (st st' : Fitter),
  map fst (ckpts st) = seq 0 (List.length (ckpts st)) ->
  fit_loop softmax1 model_train model_eval forward backward optimizer_step zero_grad
    scheduler_step get_lr train_data_len val_len cfg n e st train_loader val_loader
    test_loader = Ok st' ->
  ckpt_sync st st' /\ epoch st' = epoch st + n.
Proof.
  induction n as [|n IH]; intros e st st' Hdir; cbn [fit_loop].
  - intros H; injection H as <-. split; [|lia].
    apply (@ckpt_sync_same _ _ []); [reflexivity|now rewrite app_nil_r|reflexivity].
  - destruct (fit_epoch _ _ _ _ _ _ _ _ _ _ _ _ _ _ _ _) as [s1|x] eqn:E; cbn [bind];
      [|discriminate].
    intros H. apply fit_epoch_sync in E as [S1 E1]; [|exact Hdir].
    apply IH in H as [S2 E2]; [|exact (proj1 S1 Hdir)].
    split; [eapply ckpt_sync_trans; eassumption|lia].
Qed.

Lemma fit_loop_best cfg train_loader val_loader test_loader n : forall e (st st' : Fitter),
  fit_loop softmax1 model_train model_eval forward backward optimizer_step zero_grad
    scheduler_step get_lr train_data_len val_len cfg n e st train_loader val_loader
    test_loader = Ok st' ->
  exists evs,
    trace st' = trace st ++ evs /\
    best_score st' = best_after (best_score st) (val_scores evs).
Proof.
  induction n as [|n IH]; intros e st st'; cbn [fit_loop].
  - intros H; injection H as <-. exists []. split; [now rewrite app_nil_r|reflexivity].
  - destruct (fit_epoch _ _ _ _ _ _ _ _ _ _ _ _ _ _ _ _) as [s1|x] eqn:E; cbn [bind];
      [|discriminate].
    intros H. apply fit_epoch_effect in E as (avg & e1 & Ht1 & Hv1 & _ & Hb1).
    apply IH in H as (e2 & Ht2 & Hb2).
    exists (e1 ++ e2). rewrite Ht2, Ht1, <- app_assoc. split; [reflexivity|].
    rewrite val_scores_app, Hv1, Hb2, Hb1. reflexivity.
Qed.

Lemma best_after_bounds (l : list Q) : forall b : Q,
  (b <= best_after b l)%Q /\ (forall s, In s l -> (s <= best_after b l)%Q).
Proof.
  induction l as [|x l IH]; intros b.
  - split; [apply Qle_refl|intros s []].
  - unfold best_after. cbn [fold_left].
    fold (best_after (if Qltb b x then x else b) l).
    destruct (IH (if Qltb b x then x else b)) as [H1 H2].
    assert (Hb : (b <= (if Qltb b x then x else b))%Q).
    { destruct (Qltb b x) eqn:E; [|apply Qle_refl].
      apply Qltb_lt in E. now apply Qlt_le_weak. }
    assert (Hx : (x <= (if Qltb b x then x else b))%Q).
    { destruct (Qltb b x) eqn:E; [apply Qle_refl|]. now apply Qltb_ge in E. }
    split; [eapply Qle_trans; eassumption|].
    intros s [<-|Hs]; [eapply Qle_trans; eassumption|now apply H2].
Qed.

(** X22: when [fit] returns, on a fresh fitter with an empty checkpoint
    directory, the epoch counter is [n_epochs], the best score is the running
    maximum of 0 and the validation scores written to the log (so it is at
    least each of them), and the directory holds one file per save, numbered
    from 0. *)
Theorem X22_fit_final_state :
  forall cfg m o s train_loader val_loader test_loader (st' : Fitter),
    fit softmax1 model_train model_eval forward backward optimizer_step zero_grad
      scheduler_step get_lr train_data_len val_len cfg (TPUFitter_init m o s [])
      train_loader val_loader test_loader = Ok st' ->
    epoch st' = n_epochs cfg /\
    best_score st' = best_after 0 (val_scores (trace st')) /\
    (forall x, In x (val_scores (trace st')) -> (x <= best_score st')%Q) /\
    List.length (ckpts st') = saves (trace st') /\
    map fst (ckpts st') = seq 0 (List.length (ckpts st')).
Proof.
  intros cfg m o s train_loader val_loader test_loader st' H. unfold fit in H.
  pose proof H as H'.
  apply fit_loop_best in H as (evs & Ht & Hb).
  apply fit_loop_sync in H' as [[Hw (evs' & Ht' & Hl)] He]; [|reflexivity].
  cbn [TPUFitter_init trace best_score epoch ckpts app List.length] in *.
  subst evs evs'. split; [exact He|]. split; [exact Hb|]. split.
  - intros x Hx. rewrite Hb. now apply best_after_bounds.
  - split; [exact Hl|]. apply Hw. reflexivity.
Qed.

(** X23: a configuration with [batch_size = 0] makes [fit] raise
    [ZeroDivisionError] in its first epoch, and so does [verbose_step = 0]
    with [verbose] set, as soon as the first training batch is read. *)
Theorem X23_fit_zero_division :
  forall cfg (st : Fitter) train_loader val_loader test_loader,
    n_epochs cfg <> 0 ->
    batch_size cfg = 0 \/
    (verbose cfg = true /\ verbose_step cfg = 0 /\
     batch_size cfg <= train_data_len /\ train_loader 0 <> []) ->
    fit softmax1 model_train model_eval forward backward optimizer_step zero_grad
      scheduler_step get_lr train_data_len val_len cfg st train_loader val_loader test_loader
      = Raise ZeroDivisionError.
Proof.
  intros cfg st train_loader val_loader test_loader Hn H. unfold fit.
  destruct (n_epochs cfg) as [|n]; [contradiction|]. cbn [fit_loop].
  unfold fit_epoch, train_one_epoch. cbv zeta.
  destruct H as [H|(Hv & Hs & Hle & Hne)].
  - rewrite H. reflexivity.
  - destruct (batch_size cfg) as [|k] eqn:Hk; [reflexivity|].
    assert (Hbar : exists j, train_data_len / S k = S j).
    { destruct (train_data_len / S k) eqn:E; [|eauto].
      apply Nat.div_small_iff in E; lia. }
    destruct Hbar as [j Hj]. rewrite Hj.
    destruct (train_loader 0) as [|b rest]; [contradiction|].
    cbn [firstn train_loop]. unfold train_step. rewrite Hv, Hs. reflexivity.
Qed.

End FitterFrames.

(** ** Runs of the table-driven classifier *)

(** One validation batch, read by the scenario fitter. *)
Lemma X19_witness :
  exists losses fs st',
    validation (fun q : Q => q) (fun m : nat => m)
      (stub_forward (scenario_scores [])) 5 scenario_config
      (TPUFitter_init 1 tt tt []) [batch_of [0; 0; 0; 0; 1]%Z] = Ok (losses, fs, st') /\
    trace st' = [Forward] /\
    y_true fs = [0; 1; 0; 0; 0; 0; 1]%Z.
Proof.
  assert (E : exists r,
    validation (fun q : Q => q) (fun m : nat => m)
      (stub_forward (scenario_scores [])) 5 scenario_config
      (TPUFitter_init 1 tt tt []) [batch_of [0; 0; 0; 0; 1]%Z] = Ok r)
    by (eexists; vm_compute; reflexivity).
  destruct E as [[[losses fs] st'] E]. exists losses, fs, st'. split; [exact E|].
  destruct (@X19_validation_frame nat unit unit Q (fun q : Q => q) (fun m : nat => m)
              (stub_forward (scenario_scores [])) 5 scenario_config
              (TPUFitter_init 1 tt tt []) [batch_of [0; 0; 0; 0; 1]%Z] losses fs st' E)
    as (_ & _ & _ & _ & _ & _ & _ & Ht & Hy).
  split; [exact Ht|exact Hy].
Defined.

(** One training batch with two toxic comments. *)
Lemma X20_witness :
  exists losses fs st',
    train_one_epoch (fun q : Q => q) (fun m : nat => m) (fun m : nat => m)
      (stub_forward (scenario_scores [])) (fun m _ => m)
      stub_optimizer_step (fun _ m => m) stub_scheduler_step 7 scenario_config
      (TPUFitter_init 0 tt tt []) [batch_of [0; 0; 0; 1; 1]%Z] = Ok (losses, fs, st') /\
    ckpts st' = [] /\ fs = final_scores st'.
Proof.
  assert (E : exists r,
    train_one_epoch (fun q : Q => q) (fun m : nat => m) (fun m : nat => m)
      (stub_forward (scenario_scores [])) (fun m _ => m)
      stub_optimizer_step (fun _ m => m) stub_scheduler_step 7 scenario_config
      (TPUFitter_init 0 tt tt []) [batch_of [0; 0; 0; 1; 1]%Z] = Ok r)
    by (eexists; vm_compute; reflexivity).
  destruct E as [[[losses fs] st'] E]. exists losses, fs, st'. split; [exact E|].
  destruct (@X20_train_one_epoch_frame nat unit unit Q (fun q : Q => q) (fun m : nat => m)
              (fun m : nat => m) (stub_forward (scenario_scores [])) (fun m _ => m)
              stub_optimizer_step (fun _ m => m) stub_scheduler_step 7 scenario_config
              (TPUFitter_init 0 tt tt []) [batch_of [0; 0; 0; 1; 1]%Z] losses fs st' E)
    as [(_ & _ & Hc & _) Hf].
  split; [exact Hc|exact Hf].
Defined.

(** A first improvement in an empty directory: the model is saved as file 0
    and loaded again. *)
Lemma X21_witness :
  exists st',
    end_of_epoch (fun q : Q => q) (fun m : nat => m) (stub_forward (scenario_scores []))
      stub_scheduler_step scenario_config (TPUFitter_init 3 tt tt []) (4 # 5)%Q []
      = Ok st' /\
    ckpts st' = [(0, 3)] /\ model st' = 3.
Proof.
  destruct (proj1 (@X21_save_then_infer_round_trip nat unit unit Q (fun q : Q => q)
                     (fun m : nat => m) (stub_forward (scenario_scores []))
                     stub_scheduler_step)
              scenario_config (TPUFitter_init 3 tt tt []) (4 # 5)%Q [] eq_refl eq_refl)
    as (st' & He & Hc & _ & Hm & _).
  exists st'. split; [exact He|]. split; [exact Hc|exact Hm].
Defined.

(** The first scenario: two epochs, two improvements, two files. *)
Lemma X22_witness :
  exists st',
    fit (fun q : Q => q) (fun m => m) (fun m => m)
      (stub_forward (scenario_scores [1 # 10; 1 # 10; 1 # 10; 7 # 10; 9 # 10]%Q))
      (fun m _ => m) stub_optimizer_step (fun _ m => m) stub_scheduler_step
      (fun _ => 0%Q) 7 5 scenario_config (TPUFitter_init 0 tt tt [])
      (fun _ => [batch_of [0; 0; 0; 1; 1]%Z]) [batch_of [0; 0; 0; 0; 1]%Z] [] = Ok st' /\
    epoch st' = 2 /\
    List.length (ckpts st') = saves (trace st') /\
    best_score st' = best_after 0 (val_scores (trace st')).
Proof.
  assert (E : exists st',
    fit (fun q : Q => q) (fun m => m) (fun m => m)
      (stub_forward (scenario_scores [1 # 10; 1 # 10; 1 # 10; 7 # 10; 9 # 10]%Q))
      (fun m _ => m) stub_optimizer_step (fun _ m => m) stub_scheduler_step
      (fun _ => 0%Q) 7 5 scenario_config (TPUFitter_init 0 tt tt [])
      (fun _ => [batch_of [0; 0; 0; 1; 1]%Z]) [batch_of [0; 0; 0; 0; 1]%Z] [] = Ok st')
    by (eexists; vm_compute; reflexivity).
  destruct E as [st' E]. exists st'. split; [exact E|].
  destruct (@X22_fit_final_state nat unit unit Q (fun q : Q => q)
                (fun m => m) (fun m => m)
                (stub_forward (scenario_scores [1 # 10; 1 # 10; 1 # 10; 7 # 10; 9 # 10]%Q))
                (fun m _ => m) stub_optimizer_step (fun _ m => m) stub_scheduler_step
                (fun _ => 0%Q) 7 5 scenario_config 0 tt tt
                (fun _ => [batch_of [0; 0; 0; 1; 1]%Z]) [batch_of [0; 0; 0; 0; 1]%Z] [] st' E)
    as (He & Hb & _ & Hl & _).
  split; [exact He|]. split; [exact Hl|exact Hb].
Defined.

(** The scenario configuration with a batch size of 0. *)
Lemma X23_witness :
  fit (fun q : Q => q) (fun m => m) (fun m => m)
    (stub_forward (scenario_scores []))
    (fun m _ => m) stub_optimizer_step (fun _ m => m) stub_scheduler_step
    (fun _ => 0%Q) 7 5
    {| batch_size := 0; n_epochs := 2; verbose := true; verbose_step := 50;
       step_scheduler := false; validation_scheduler := true |}
    (TPUFitter_init 0 tt tt [])
    (fun _ => [batch_of [0; 0; 0; 1; 1]%Z]) [batch_of [0; 0; 0; 0; 1]%Z] []
    = Raise ZeroDivisionError.
Proof.
  apply X23_fit_zero_division; [discriminate|left; reflexivity].
Defined.

(** ** The mixer: every order and every choice can be drawn *)

Lemma raw_advance (g : Rng) (a i : nat) : raw (advance g a) i = raw g (a + i).
Proof. unfold raw, advance. cbn [tape cursor]. f_equal. lia. Qed.

Lemma reads_cons (g : Rng) (d : N) (ds : list N) :
  reads g (d :: ds) -> raw g 0 = d /\ reads (advance g 1) ds.
Proof.
  intros H. split.
  - apply (H 0). cbn [List.length]. lia.
  - intros i Hi. rewrite raw_advance. apply (H (S i)). cbn [List.length]. lia.
Qed.

Lemma reads_app (g : Rng) (a b : list N) :
  reads g (a ++ b) -> reads g a /\ reads (advance g (List.length a)) b.
Proof.
  intros H. split.
  - intros i Hi. rewrite (H i) by (rewrite length_app; lia). now apply app_nth1.
  - intros i Hi. rewrite raw_advance, (H (List.length a + i)) by (rewrite length_app; lia).
    apply app_nth2_plus.
Qed.

Lemma reads_rng_of (ds : list N) : reads (rng_of ds) ds.
Proof. intros i _. reflexivity. Qed.

Lemma mod_of_nat_small (i n : nat) : i < n -> N.to_nat (N.of_nat i mod N.of_nat n) = i.
Proof. intros H. rewrite N.mod_small by lia. apply Nnat.Nat2N.id. Qed.

Lemma randbelow_raw (n : nat) (g : Rng) :
  randbelow n g = (N.to_nat (raw g 0 mod N.of_nat n), advance g 1).
Proof.
  unfold randbelow, next_raw, raw, advance. rewrite Nat.add_0_r, Nat.add_1_r. reflexivity.
Qed.

Lemma randint_reach (a b k : nat) (g : Rng) :
  a <= k <= b -> raw g 0 = N.of_nat (k - a) -> randint a b g = (k, advance g 1).
Proof.
  intros Hk Hr. unfold randint. rewrite randbelow_raw, Hr, mod_of_nat_small by lia.
  f_equal. lia.
Qed.

Lemma choice_reach {A : Type} (seq : list A) (i : nat) (x : A) (g : Rng) :
  nth_error seq i = Some x -> raw g 0 = N.of_nat i -> choice seq g = Ok (x, advance g 1).
Proof.
  intros Hx Hr. unfold choice.
  assert (Hi : i < List.length seq) by (apply nth_error_Some; congruence).
  destruct seq as [|a seq']; [cbn [List.length] in Hi; lia|].
  rewrite randbelow_raw, Hr, mod_of_nat_small by exact Hi. rewrite Hx. reflexivity.
Qed.

Lemma append_choices_reach (pool xs : list text) :
  Forall (fun x => In x pool) xs ->
  exists ds,
    List.length ds = List.length xs /\
    forall texts g,
      reads g ds ->
      append_choices (List.length xs) pool texts g
        = Ok (texts ++ xs, advance g (List.length xs)).
Proof.
  induction 1 as [|x xs Hx _ (ds & Hl & IH)].
  - exists []. split; [reflexivity|]. intros texts g _. cbn [List.length append_choices].
    rewrite app_nil_r, advance_zero. reflexivity.
  - destruct (In_nth_error _ _ Hx) as [i Hi].
    exists (N.of_nat i :: ds). split; [cbn [List.length]; now rewrite Hl|].
    intros texts g Hg. apply reads_cons in Hg as [H0 Hg].
    cbn [List.length append_choices]. rewrite (@choice_reach _ _ _ _ _ Hi H0).
    rewrite (IH _ _ Hg), advance_advance, <- app_assoc. reflexivity.
Qed.

Lemma choice_In {A : Type} (seq : list A) (g g' : Rng) (x : A) :
  choice seq g = Ok (x, g') -> In x seq.
Proof.
  unfold choice. destruct seq as [|a seq']; [discriminate|].
  destruct (randbelow (List.length (a :: seq')) g) as [i g1].
  destruct (nth_error (a :: seq') i) as [y|] eqn:E; [|discriminate].
  intros H; injection H as <- <-. exact (nth_error_In _ _ E).
Qed.

Lemma append_choices_ok (pool : list text) (n : nat) : forall texts g r g',
  append_choices n pool texts g = Ok (r, g') ->
  exists xs, r = texts ++ xs /\ List.length xs = n /\ Forall (fun x => In x pool) xs.
Proof.
  induction n as [|n IH]; intros texts g r g'; cbn [append_choices].
  - intros H; injection H as <- <-. exists []. rewrite app_nil_r. repeat split. constructor.
  - destruct (choice pool g) as [[x g1]|e] eqn:E; [|discriminate].
    intros H. apply IH in H as (xs & -> & Hl & Hf).
    exists (x :: xs). rewrite <- app_assoc. split; [reflexivity|].
    split; [cbn [List.length]; now rewrite Hl|].
    constructor; [exact (@choice_In _ _ _ _ _ E)|exact Hf].
Qed.

Lemma length_set_nth {A : Type} (v : A) (l : list A) : forall i,
  List.length (set_nth i v l) = List.length l.
Proof.
  induction l as [|x l IH]; intros [|i]; cbn [set_nth List.length]; try reflexivity.
  now rewrite IH.
Qed.

Lemma length_swap {A : Type} (i j : nat) (l : list A) :
  List.length (swap i j l) = List.length l.
Proof.
  unfold swap. destruct (nth_error l j); [|reflexivity].
  destruct (nth_error l i); [|reflexivity]. now rewrite !length_set_nth.
Qed.

Lemma nth_error_set_nth_eq {A : Type} (v : A) (l : list A) : forall i,
  i < List.length l -> nth_error (set_nth i v l) i = Some v.
Proof.
  induction l as [|x l IH]; intros [|i] H; cbn [List.length] in H; try lia.
  - reflexivity.
  - cbn [set_nth nth_error]. apply IH. lia.
Qed.

Lemma nth_error_set_nth_neq {A : Type} (v : A) (l : list A) : forall i k,
  i <> k -> nth_error (set_nth i v l) k = nth_error l k.
Proof.
  induction l as [|x l IH]; intros [|i] [|k] H; cbn [set_nth nth_error]; try reflexivity;
    try congruence.
  apply IH. congruence.
Qed.

(** After [x[i], x[j] = x[j], x[i]], position [i] holds the old [x[j]]. *)
Lemma nth_error_swap {A : Type} (i j : nat) (l : list A) (a : A) :
  nth_error l j = Some a -> i < List.length l -> nth_error (swap i j l) i = Some a.
Proof.
  intros Hj Hi. unfold swap. rewrite Hj.
  destruct (nth_error l i) as [b|] eqn:Hb; [|apply nth_error_None in Hb; lia].
  destruct (Nat.eq_dec j i) as [->|Hne].
  - rewrite nth_error_set_nth_eq by (now rewrite length_set_nth). congruence.
  - rewrite nth_error_set_nth_neq by exact Hne. now apply nth_error_set_nth_eq.
Qed.

Lemma set_nth_app {A : Type} (v : A) (a b : list A) : forall i,
  i < List.length a -> set_nth i v (a ++ b) = set_nth i v a ++ b.
Proof.
  induction a as [|x a IH]; intros [|i] H; cbn [List.length] in H; try lia.
  - reflexivity.
  - cbn [app set_nth]. f_equal. apply IH. lia.
Qed.

Lemma swap_app {A : Type} (i j : nat) (a b : list A) :
  i < List.length a -> j < List.length a -> swap i j (a ++ b) = swap i j a ++ b.
Proof.
  intros Hi Hj. unfold swap. rewrite !nth_error_app1 by assumption.
  destruct (nth_error a j) as [u|]; [|reflexivity].
  destruct (nth_error a i) as [w|]; [|reflexivity].
  rewrite (@set_nth_app _ u a b i) by exact Hi.
  rewrite (@set_nth_app _ w (set_nth i u a) b j) by (now rewrite length_set_nth).
  reflexivity.
Qed.

(** The shuffle of the first [i+1] positions does not touch the rest. *)
Lemma shuffle_loop_app {A : Type} (b : list A) (i : nat) : forall (a : list A) (g : Rng),
  i < List.length a ->
  shuffle_loop i (a ++ b) g = (fst (shuffle_loop i a g) ++ b, snd (shuffle_loop i a g)).
Proof.
  induction i as [|i IH]; intros a g Hi; cbn [shuffle_loop]; [reflexivity|].
  pose proof (@randbelow_lt (S (S i)) g ltac:(lia)) as Hj.
  destruct (randbelow (S (S i)) g) as [j g1]. cbn [fst] in Hj.
  rewrite swap_app by lia. apply IH. rewrite length_swap. lia.
Qed.

Lemma last_decomp {A : Type} (l : list A) (y : A) : forall n,
  List.length l = S n -> nth_error l n = Some y -> l = firstn n l ++ [y].
Proof.
  induction l as [|x l IH]; intros n Hl Hn; [discriminate|].
  destruct n as [|n].
  - destruct l; [|discriminate]. cbn in Hn. injection Hn as ->. reflexivity.
  - cbn [firstn app]. f_equal. apply IH; [cbn [List.length] in Hl; lia|exact Hn].
Qed.

(** Every order of the list is the outcome of [shuffle] for some draws. *)
Lemma shuffle_loop_reach {A : Type} (n : nat) : forall (x p : list A),
  List.length x = S n -> Permutation x p ->
  exists ds,
    List.length ds = n /\
    forall g, reads g ds -> fst (shuffle_loop n x g) = p.
Proof.
  induction n as [|n IH]; intros x p Hl Hp.
  - destruct x as [|a [|b x]]; try discriminate.
    apply Permutation_length_1_inv in Hp. subst p.
    exists []. split; [reflexivity|]. intros g _. reflexivity.
  - assert (Hlp : List.length p = S (S n)) by (now rewrite <- (Permutation_length Hp)).
    destruct (@exists_last _ p) as (p' & y & ->);
      [intros ->; discriminate|].
    assert (Hy : In y x).
    { apply (Permutation_in y (Permutation_sym Hp)). apply in_or_app. right. now left. }
    destruct (In_nth_error _ _ Hy) as [j Hj].
    assert (Hjl : j < S (S n)) by (rewrite <- Hl; apply nth_error_Some; congruence).
    pose proof (@nth_error_swap _ (S n) j x y Hj ltac:(lia)) as Hlast.
    pose proof (@last_decomp _ (swap (S n) j x) y (S n)
                  ltac:(rewrite length_swap; exact Hl) Hlast) as Hd.
    set (x' := firstn (S n) (swap (S n) j x)) in Hd.
    assert (Hx' : List.length x' = S n).
    { subst x'. rewrite length_firstn, length_swap. lia. }
    assert (Hp' : Permutation x' p').
    { apply Permutation_app_inv_r with (l := [y]). rewrite <- Hd.
      rewrite (swap_perm (S n) j x). exact Hp. }
    destruct (IH x' p' Hx' Hp') as (ds & Hds & Hreach).
    exists (N.of_nat j :: ds). split; [cbn [List.length]; now rewrite Hds|].
    intros g Hg. apply reads_cons in Hg as [H0 Hg].
    cbn [shuffle_loop]. rewrite randbelow_raw, H0, mod_of_nat_small by exact Hjl.
    rewrite Hd, shuffle_loop_app by lia. cbn [fst]. now rewrite (Hreach _ Hg).
Qed.

Lemma shuffle_reach {A : Type} (x p : list A) :
  x <> [] -> Permutation x p ->
  exists ds,
    List.length ds = List.length x - 1 /\
    forall g, reads g ds -> fst (shuffle x g) = p.
Proof.
  intros Hne Hp. unfold shuffle.
  destruct x as [|a x]; [congruence|]. cbn [List.length].
  replace (S (List.length x) - 1) with (List.length x) by lia.
  now apply shuffle_loop_reach.
Qed.

(** C6: [generate_synthesic_sample] returns the single-space join of the
    text and the appended fragments in some order: for label 0, between 1 and
    5 sentences of the non-toxic pool; for any other label (label 1 in
    particular), between 0 and 2 sentences of the non-toxic pool and between 1
    and 3 of the toxic pool, so that a result for label 1 always holds a
    fragment of the toxic pool.  It returns whenever the pools it draws from
    are not empty, and every such number of fragments, every choice of them
    and every order of the fragments, the text included, is the result for
    some state of the random generator. *)
Theorem C6_generate_synthesic_sample :
  forall (pool : SyntheticPool) (t : text) (toxic : Z),
    (forall g r g',
       generate_synthesic_sample pool t toxic g = Ok (r, g') ->
       exists nt tx frags,
         r = join [char_space] frags /\
         Permutation frags (t :: nt ++ tx) /\
         Forall (fun x => In x (synthesic_non_toxic pool)) nt /\
         Forall (fun x => In x (synthesic_toxic pool)) tx /\
         (toxic = 0%Z -> 1 <= List.length nt <= 5 /\ tx = []) /\
         (toxic <> 0%Z ->
          List.length nt <= 2 /\ 1 <= List.length tx <= 3 /\
          exists x, In x (synthesic_toxic pool) /\ In x frags)) /\
    (forall g,
       (toxic = 0%Z -> synthesic_non_toxic pool <> []) ->
       (toxic <> 0%Z ->
        synthesic_toxic pool <> [] /\
        (synthesic_non_toxic pool <> [] \/ fst (randint 0 2 g) = 0)) ->
       exists r g', generate_synthesic_sample pool t toxic g = Ok (r, g')) /\
    (forall nt tx frags,
       Forall (fun x => In x (synthesic_non_toxic pool)) nt ->
       Forall (fun x => In x (synthesic_toxic pool)) tx ->
       Permutation frags (t :: nt ++ tx) ->
       (toxic = 0%Z -> 1 <= List.length nt <= 5 /\ tx = []) ->
       (toxic <> 0%Z -> List.length nt <= 2 /\ 1 <= List.length tx <= 3) ->
       exists g g',
         generate_synthesic_sample pool t toxic g = Ok (join [char_space] frags, g')).
Proof.
  intros pool t toxic. split; [|split].
  - intros g r g'. unfold generate_synthesic_sample, synthesic_fragments. cbv zeta.
    destruct (toxic =? 0)%Z eqn:Etox.
    + apply Z.eqb_eq in Etox.
      pose proof (@randint_range 1 5 g ltac:(lia)) as Hk.
      destruct (randint 1 5 g) as [k g1]. cbn [fst] in Hk.
      destruct (append_choices k (synthesic_non_toxic pool) [t] g1) as [[texts g2]|e] eqn:E;
        [|discriminate].
      apply append_choices_ok in E as (nt & -> & Hl & Hf).
      pose proof (shuffle_perm ([t] ++ nt) g2) as Hp.
      destruct (shuffle ([t] ++ nt) g2) as [frags g3]. cbn [fst] in Hp.
      intros H; injection H as <- <-.
      exists nt, [], frags. rewrite app_nil_r.
      split; [reflexivity|]. split; [exact Hp|]. split; [exact Hf|]. split; [constructor|].
      split; [intros _; split; [lia|reflexivity]|]. intros Hne. congruence.
    + apply Z.eqb_neq in Etox.
      pose proof (@randint_range 0 2 g ltac:(lia)) as Hk0.
      destruct (randint 0 2 g) as [k0 g1]. cbn [fst] in Hk0.
      destruct (append_choices k0 (synthesic_non_toxic pool) [t] g1) as [[texts g2]|e] eqn:E;
        [|discriminate].
      apply append_choices_ok in E as (nt & -> & Hl & Hf).
      pose proof (@randint_range 1 3 g2 ltac:(lia)) as Hk1.
      destruct (randint 1 3 g2) as [k1 g3]. cbn [fst] in Hk1.
      destruct (append_choices k1 (synthesic_toxic pool) ([t] ++ nt) g3)
        as [[texts g4]|e] eqn:E'; [|discriminate].
      apply append_choices_ok in E' as (tx & -> & Hl' & Hf').
      pose proof (shuffle_perm (([t] ++ nt) ++ tx) g4) as Hp.
      destruct (shuffle (([t] ++ nt) ++ tx) g4) as [frags g5]. cbn [fst] in Hp.
      intros H; injection H as <- <-.
      exists nt, tx, frags. split; [reflexivity|]. split; [exact Hp|].
      split; [exact Hf|]. split; [exact Hf'|]. split; [congruence|].
      intros _. split; [lia|]. split; [lia|].
      destruct tx as [|x tx']; [cbn [List.length] in Hl'; lia|].
      exists x. split; [now inversion Hf'|].
      eapply Permutation_in; [symmetry; exact Hp|].
      apply in_or_app. right. now left.
  - intros g H0 H1. unfold generate_synthesic_sample, synthesic_fragments. cbv zeta.
    destruct (toxic =? 0)%Z eqn:Etox.
    + apply Z.eqb_eq in Etox.
      destruct (randint 1 5 g) as [k g1].
      destruct (@append_choices_spec k _ [t] g1 (H0 Etox)) as (nt & g2 & -> & _).
      destruct (shuffle ([t] ++ nt) g2) as [frags g3]. eauto.
    + apply Z.eqb_neq in Etox. destruct (H1 Etox) as [Htox Hnon].
      destruct (randint 0 2 g) as [k0 g1]. cbn [fst] in Hnon.
      assert (E : exists nt g2,
                 append_choices k0 (synthesic_non_toxic pool) [t] g1 = Ok ([t] ++ nt, g2)).
      { destruct Hnon as [Hnon | ->].
        - destruct (@append_choices_spec k0 _ [t] g1 Hnon) as (nt & g2 & E & _). eauto.
        - exists [], g1. reflexivity. }
      destruct E as (nt & g2 & ->).
      destruct (randint 1 3 g2) as [k1 g3].
      destruct (@append_choices_spec k1 _ ([t] ++ nt) g3 Htox) as (tx & g4 & -> & _).
      destruct (shuffle (([t] ++ nt) ++ tx) g4) as [frags g5]. eauto.
  - intros nt tx frags Hnt Htx Hp H0 H1.
    destruct (@append_choices_reach _ _ Hnt) as (dn & Hdn & Rn).
    destruct (@append_choices_reach _ _ Htx) as (dt & Hdt & Rt).
    destruct (@shuffle_reach _ (([t] ++ nt) ++ tx) frags) as (dsh & Hdsh & Rs).
    { destruct nt; discriminate. }
    { rewrite <- app_assoc. symmetry. exact Hp. }
    unfold generate_synthesic_sample, synthesic_fragments. cbv zeta.
    destruct (toxic =? 0)%Z eqn:Etox.
    + apply Z.eqb_eq in Etox. destruct (H0 Etox) as [Hl ->].
      rewrite app_nil_r in Rs.
      exists (rng_of (N.of_nat (List.length nt - 1) :: dn ++ dsh)).
      pose proof (reads_rng_of (N.of_nat (List.length nt - 1) :: dn ++ dsh)) as Hg.
      apply reads_cons in Hg as [Hr Hg]. apply reads_app in Hg as [Hg1 Hg2].
      rewrite (@randint_reach 1 5 (List.length nt) _ ltac:(lia) Hr).
      rewrite (Rn _ _ Hg1).
      rewrite Hdn in Hg2. specialize (Rs _ Hg2).
      destruct (shuffle ([t] ++ nt) _) as [f g']. cbn [fst] in Rs. subst f. eauto.
    + apply Z.eqb_neq in Etox. destruct (H1 Etox) as [Hl0 Hl1].
      exists (rng_of (N.of_nat (List.length nt)
                        :: dn ++ N.of_nat (List.length tx - 1) :: dt ++ dsh)).
      pose proof (reads_rng_of (N.of_nat (List.length nt)
                                  :: dn ++ N.of_nat (List.length tx - 1) :: dt ++ dsh)) as Hg.
      apply reads_cons in Hg as [Hr Hg]. apply reads_app in Hg as [Hg1 Hg2].
      rewrite Hdn in Hg2. apply reads_cons in Hg2 as [Hr2 Hg2].
      apply reads_app in Hg2 as [Hg3 Hg4]. rewrite Hdt in Hg4.
      rewrite (@randint_reach 0 2 (List.length nt) _ ltac:(lia))
        by (rewrite Nat.sub_0_r; exact Hr).
      rewrite (Rn _ _ Hg1).
      rewrite (@randint_reach 1 3 (List.length tx) _ ltac:(lia) Hr2).
      rewrite (Rt _ _ Hg3).
      specialize (Rs _ Hg4).
      destruct (shuffle (([t] ++ nt) ++ tx) _) as [f g']. cbn [fst] in Rs. subst f. eauto.
Qed.

(** The mixer on the demonstration pools, for a toxic comment: a run that
    appends one non-toxic and two toxic sentences, and a run that puts a
    toxic sentence before the comment. *)
Lemma C6_witness :
  (exists nt tx frags g',
     generate_synthesic_sample pool_demo (str "You again.") 1 (rng_of [1; 0; 1; 1; 0; 2; 0; 1]%N)
       = Ok (join [char_space] frags, g') /\
     Permutation frags (str "You again." :: nt ++ tx) /\
     1 <= List.length tx <= 3) /\
  (exists g g',
     generate_synthesic_sample pool_demo (str "You again.") 1 g
       = Ok (str "Get lost. You again.", g')).
Proof.
  split.
  - assert (E : exists r g',
               generate_synthesic_sample pool_demo (str "You again.") 1
                 (rng_of [1; 0; 1; 1; 0; 2; 0; 1]%N) = Ok (r, g'))
      by (eexists; eexists; vm_compute; reflexivity).
    destruct E as (r & g' & E).
    destruct (proj1 (C6_generate_synthesic_sample pool_demo (str "You again.") 1%Z) _ _ _ E)
      as (nt & tx & frags & -> & Hp & _ & _ & _ & H1).
    destruct (H1 ltac:(discriminate)) as (_ & Hl & _).
    exists nt, tx, frags, g'. split; [exact E|]. split; [exact Hp|exact Hl].
  - apply (proj2 (proj2 (C6_generate_synthesic_sample pool_demo (str "You again.") 1%Z))
             [] [str "Get lost."] [str "Get lost."; str "You again."]).
    + constructor.
    + constructor; [right; left; reflexivity|constructor].
    + apply perm_swap.
    + discriminate.
    + intros _. cbn [List.length]. lia.
Defined.
